(** * Detection-evaluation metrics ([utils/metrics.py]): a shallow embedding

    The development follows the source file function by function:

    - [compute_ap] and [ap_per_class]            (AP engine),
    - [ConfusionMatrix.process_batch] / [plot]   (confusion aggregator),
    - [OD_AUCROC.process_batch] / [froc_curve]   (sensitivity engine),
    - [plot_pr_curve] / [plot_mc_curve]          (rendering boundary).

    Numbers.  numpy and torch floats are modelled by exact rationals [Q].
    Comparison, maximum, selection and reordering are exact on floats, so
    every order property below transfers as it is; sums, quotients and
    interpolated values are the real-arithmetic idealisation of the float
    computation.  Equality of computed numbers is [Qeq] ([==]).

    Exceptions.  Python exceptions are modelled by the error type [exn] and
    the [result] monad; a function that cannot raise is a plain function. *)

From stdpp Require Import strings gmap.
From Stdlib Require Import QArith Qminmax ZArith List Lia Lqa Bool Sorted.
Import ListNotations.

Set Default Proof Using "Type".

(* ===================================================================== *)
(** ** Python exceptions and the error monad                              *)
(* ===================================================================== *)

(** The exception classes that occur in the modelled code.  All but
    [KeyboardInterrupt] derive from Python's [Exception]. *)
Inductive exn : Type :=
| IndexError
| ValueError
| RuntimeError
| ImportError
| OSError
| KeyboardInterrupt.

Definition is_Exception (e : exn) : bool :=
  match e with
  | KeyboardInterrupt => false
  | _ => true
  end.

Inductive result (A : Type) : Type :=
| Ok (a : A)
| Raise (e : exn).

Arguments Ok {A} a.
Arguments Raise {A} e.

Definition rbind {A B : Type} (m : result A) (k : A -> result B) : result B :=
  match m with
  | Ok a => k a
  | Raise e => Raise e
  end.

Notation "'try!' x ':=' m 'in' k" := (rbind m (fun x => k))
  (at level 10, x pattern, m at level 100, k at level 200,
   format "'[v' 'try!'  x  ':='  m  'in' '/' k ']'").

Definition returns {A : Type} (m : result A) : Prop :=
  exists a, m = Ok a.

Definition raises {A : Type} (m : result A) : Prop :=
  exists e, m = Raise e.

(* ===================================================================== *)
(** ** Python indexing, integer casts, two-dimensional tensors            *)
(* ===================================================================== *)

Module Py.

Local Open Scope Z_scope.

(** [enumerate] *)
Definition enumerate {A : Type} (l : list A) : list (nat * A) :=
  combine (seq 0 (length l)) l.

(** Index normalisation of a Python / numpy / torch sequence of length [n]:
    [0 <= k < n] is itself, [-n <= k < 0] counts from the end, anything else
    raises [IndexError]. *)
Definition norm_index (n : nat) (k : Z) : result nat :=
  if (0 <=? k) && (k <? Z.of_nat n) then Ok (Z.to_nat k)
  else if (- Z.of_nat n <=? k) && (k <? 0) then Ok (Z.to_nat (k + Z.of_nat n))
  else Raise IndexError.

Definition index {A : Type} (l : list A) (k : Z) : result A :=
  try! i := norm_index (length l) k in
  match nth_error l i with
  | Some a => Ok a
  | None => Raise IndexError
  end.

(** [a[idx]] for an integer index array [idx] (a gather). *)
Fixpoint gather {A : Type} (l : list A) (idx : list Z) : result (list A) :=
  match idx with
  | [] => Ok []
  | k :: t =>
      try! a := index l k in
      try! r := gather l t in
      Ok (a :: r)
  end.

(** [a[mask]] for a boolean mask: the selected entries, as a new array. *)
Fixpoint select {A : Type} (mask : list bool) (l : list A) : list A :=
  match mask, l with
  | b :: mt, a :: t => if b then a :: select mt t else select mt t
  | _, _ => []
  end.

(** A [for] loop whose body updates the state [s] and may raise. *)
Fixpoint for_each {A S : Type} (body : S -> A -> result S) (s : S) (l : list A)
  : result S :=
  match l with
  | [] => Ok s
  | a :: t =>
      try! s' := body s a in
      for_each body s' t
  end.

(** [.astype(np.int16)]: two's-complement wrap-around to 16 bits. *)
Definition astype_int16 (z : Z) : Z :=
  (z + 32768) mod 65536 - 32768.

(** [.astype("int32")]. *)
Definition astype_int32 (z : Z) : Z :=
  (z + 2147483648) mod 4294967296 - 2147483648.

(** [.int()] on a float: truncation toward zero. *)
Definition int (q : Q) : Z :=
  Z.quot (Qnum q) (Z.pos (Qden q)).

Definition Qgt_bool (a b : Q) : bool := negb (Qle_bool a b).

End Py.

(** A two-dimensional float tensor, stored by rows.  [detections] is
    [N x 6] (x1, y1, x2, y2, conf, class) and [labels] is [M x 5]
    (class, x1, y1, x2, y2), as the docstrings of the source state. *)
Definition tensor : Type := list (list Q).

Module Tensor.

(** [t[:, k]] *)
Definition col (k : nat) (t : tensor) : list Q :=
  map (fun r => nth k r 0%Q) t.

(** [t[:, a:]] *)
Definition cols_from (a : nat) (t : tensor) : tensor :=
  map (skipn a) t.

(** [t[:, :b]] *)
Definition cols_to (b : nat) (t : tensor) : tensor :=
  map (firstn b) t.

(** One row after [row[k] = v]. *)
Fixpoint set_nth (k : nat) (v : Q) (r : list Q) : list Q :=
  match r, k with
  | [], _ => []
  | _ :: t, O => v :: t
  | x :: t, S k' => x :: set_nth k' v t
  end.

(** The tensor after [t[:, k] = v]. *)
Definition set_col (k : nat) (v : Q) (t : tensor) : tensor :=
  map (set_nth k v) t.

End Tensor.

(* ===================================================================== *)
(** ** The matcher shared by the two aggregators                          *)
(* ===================================================================== *)

(** One row of the [matches] array: (label index, detection index, IoU). *)
Definition match_row : Type := (nat * nat * Q)%type.

Module Matcher.

Definition m_label (m : match_row) : nat := fst (fst m).
Definition m_det (m : match_row) : nat := snd (fst m).
Definition m_iou (m : match_row) : Q := snd m.

(** [x = torch.where(iou > thres)] followed by
    [torch.cat((torch.stack(x, 1), iou[x[0], x[1]][:, None]), 1)]:
    the rows (i, j, iou[i][j]) with [iou[i][j] > thres], in row-major
    order.  The comparison is strict. *)
Definition row_candidates (thres : Q) (i : nat) (row : list Q) : list match_row :=
  flat_map (fun jv : nat * Q =>
              if Py.Qgt_bool (snd jv) thres then [(i, fst jv, snd jv)] else [])
           (Py.enumerate row).

Definition candidates (iou : tensor) (thres : Q) : list match_row :=
  flat_map (fun ir : nat * list Q => row_candidates thres (fst ir) (snd ir))
           (Py.enumerate iou).

(** [matches[matches[:, 2].argsort()[::-1]]]: ascending sort on the IoU
    column, reversed.  The sort is an insertion sort (what numpy runs on
    short arrays); the order among equal IoU values is the sort's own. *)
Fixpoint insert_by_iou (m : match_row) (l : list match_row) : list match_row :=
  match l with
  | [] => [m]
  | h :: t =>
      if Qle_bool (m_iou m) (m_iou h) then m :: l
      else h :: insert_by_iou m t
  end.

Definition sort_by_iou (l : list match_row) : list match_row :=
  fold_right insert_by_iou [] l.

Definition by_descending_iou (l : list match_row) : list match_row :=
  rev (sort_by_iou l).

(** [np.unique(column, return_index=True)[1]]: for every distinct value of
    the column, in ascending order, the index of its first occurrence;
    [matches[...]] then keeps those rows. *)
Fixpoint insert_key (k : nat) (l : list nat) : list nat :=
  match l with
  | [] => [k]
  | h :: t =>
      if Nat.ltb k h then k :: l
      else if Nat.eqb k h then l
      else h :: insert_key k t
  end.

Definition unique_keys (keys : list nat) : list nat :=
  fold_right insert_key [] keys.

Definition first_with (key : match_row -> nat) (l : list match_row) (k : nat)
  : list match_row :=
  match find (fun m => Nat.eqb (key m) k) l with
  | Some m => [m]
  | None => []
  end.

Definition unique_first (key : match_row -> nat) (l : list match_row)
  : list match_row :=
  flat_map (first_with key l) (unique_keys (map key l)).

(** Lines 146-150: the two-pass greedy resolution, run only when more than
    one candidate survives. *)
Definition dedup (matches : list match_row) : list match_row :=
  if Nat.ltb 1 (length matches) then
    let matches := by_descending_iou matches in
    let matches := unique_first m_det matches in
    let matches := by_descending_iou matches in
    unique_first m_label matches
  else matches.

(** [m0, m1, _ = matches.transpose().astype(np.int16)] *)
Definition m0 (matches : list match_row) : list Z :=
  map (fun m => Py.astype_int16 (Z.of_nat (m_label m))) matches.

Definition m1 (matches : list match_row) : list Z :=
  map (fun m => Py.astype_int16 (Z.of_nat (m_det m))) matches.

(** [j = m0 == i] *)
Definition eq_mask (m : list Z) (i : nat) : list bool :=
  map (fun z => Z.eqb z (Z.of_nat i)) m.

(** [sum(j)] *)
Definition count_true (mask : list bool) : nat :=
  length (List.filter (fun b : bool => b) mask).

(** [any(j)] *)
Definition any (mask : list bool) : bool :=
  existsb (fun b : bool => b) mask.

End Matcher.

(* ===================================================================== *)
(** ** [ConfusionMatrix]                                                  *)
(* ===================================================================== *)

Module ConfusionMatrix.

Record t : Type := mk {
  matrix : list (list Z);   (* (nc+1) x (nc+1) counters *)
  nc : nat;
  conf : Q;
  iou_thres : Q
}.

(** [__init__(nc, conf=0.25, iou_thres=0.45)] *)
Definition init (nc : nat) (conf iou_thres : Q) : t :=
  mk (repeat (repeat 0%Z (nc + 1)) (nc + 1)) nc conf iou_thres.

Definition default (nc : nat) : t := init nc (25 # 100) (45 # 100).

(** [self.matrix[r, c] += 1] *)
Definition incr (m : list (list Z)) (r c : Z) : result (list (list Z)) :=
  try! i := Py.norm_index (length m) r in
  match nth_error m i with
  | None => Raise IndexError
  | Some row =>
      try! j := Py.norm_index (length row) c in
      match nth_error row j with
      | None => Raise IndexError
      | Some v => Ok (<[i := <[j := (v + 1)%Z]> row]> m)
      end
  end.

(** [self.matrix.sum()] *)
Definition row_sum (row : list Z) : Z := fold_right Z.add 0%Z row.
Definition total (m : list (list Z)) : Z := fold_right Z.add 0%Z (map row_sum m).

Section ProcessBatch.

(** [general.box_iou(boxes_a[M,4], boxes_b[N,4])]: the IoU collaborator,
    an [M x N] matrix. *)
Variable box_iou : tensor -> tensor -> tensor.

(** Lines 138-152. *)
Definition kept_detections (self : t) (detections : tensor) : tensor :=
  Py.select (map (fun c => Py.Qgt_bool c (conf self)) (Tensor.col 4 detections))
            detections.

Definition matches_of (self : t) (detections labels : tensor) : list match_row :=
  let iou := box_iou (Tensor.cols_from 1 labels) (Tensor.cols_to 4 detections) in
  let x := Matcher.candidates iou (iou_thres self) in
  if Nat.ltb 0 (length x) then Matcher.dedup x else [].

(** Lines 156-161: the body of the loop over the ground-truth labels. *)
Definition label_step (self : t) (n : bool) (m0 m1 detection_classes : list Z)
    (mat : list (list Z)) (igc : nat * Z) : result (list (list Z)) :=
  let j := Matcher.eq_mask m0 (fst igc) in
  if n && Nat.eqb (Matcher.count_true j) 1 then
    try! dcs := Py.gather detection_classes (Py.select j m1) in
    match dcs with
    | [dc] => incr mat (snd igc) dc
    | _ => Raise IndexError
    end
  else incr mat (Z.of_nat (nc self)) (snd igc).

(** Lines 164-166: the body of the loop over the detections. *)
Definition detection_step (self : t) (m1 : list Z)
    (mat : list (list Z)) (idc : nat * Z) : result (list (list Z)) :=
  if negb (Matcher.any (Matcher.eq_mask m1 (fst idc))) then
    incr mat (snd idc) (Z.of_nat (nc self))
  else Ok mat.

Definition process_batch (self : t) (detections labels : tensor) : result t :=
  let detections := kept_detections self detections in
  let gt_classes := map Py.int (Tensor.col 0 labels) in
  let detection_classes := map Py.int (Tensor.col 5 detections) in
  let matches := matches_of self detections labels in
  let n := Nat.ltb 0 (length matches) in
  let m0 := Matcher.m0 matches in
  let m1 := Matcher.m1 matches in
  try! mat := Py.for_each (label_step self n m0 m1 detection_classes)
                       (matrix self) (Py.enumerate gt_classes) in
  try! mat := (if n then Py.for_each (detection_step self m1) mat
                                  (Py.enumerate detection_classes)
               else Ok mat) in
  Ok (mk mat (nc self) (conf self) (iou_thres self)).

End ProcessBatch.

End ConfusionMatrix.

(* ===================================================================== *)
(** ** The IoU collaborator                                               *)
(* ===================================================================== *)

Module General.

Local Open Scope Q_scope.

Definition box_area (b : list Q) : Q :=
  (nth 2 b 0 - nth 0 b 0) * (nth 3 b 0 - nth 1 b 0).

Definition clamp0 (q : Q) : Q := Qmax 0 q.

Definition box_inter (a b : list Q) : Q :=
  clamp0 (Qmin (nth 2 a 0) (nth 2 b 0) - Qmax (nth 0 a 0) (nth 0 b 0)) *
  clamp0 (Qmin (nth 3 a 0) (nth 3 b 0) - Qmax (nth 1 a 0) (nth 1 b 0)).

(** Modelled from the spec: [general.box_iou] is not part of the sources at
    hand; the glossary defines IoU as the ratio of overlap area to union
    area of two (x1, y1, x2, y2) boxes, and section 6 gives the interface
    [box_iou(boxesA[M,4], boxesB[N,4]) -> iouMatrix[M,N]]. *)
Definition box_iou (boxes_a boxes_b : tensor) : tensor :=
  map (fun a =>
         map (fun b =>
                let inter := box_inter a b in
                Qred (inter / (box_area a + box_area b - inter)))
             boxes_b)
      boxes_a.

End General.

(* ===================================================================== *)
(** ** numpy primitives on one-dimensional float arrays                   *)
(* ===================================================================== *)

Module Np.

Local Open Scope Q_scope.

(** [np.flip] *)
Definition flip (a : list Q) : list Q := rev a.

(** [np.maximum.accumulate]: running maximum, first element kept. *)
Fixpoint accumulate_from (acc : Q) (a : list Q) : list Q :=
  match a with
  | [] => []
  | x :: t => let m := Qmax acc x in m :: accumulate_from m t
  end.

Definition maximum_accumulate (a : list Q) : list Q :=
  match a with
  | [] => []
  | x :: t => x :: accumulate_from x t
  end.

(** [a[-1]] raises [IndexError] on an empty array. *)
Fixpoint last_item (a : list Q) : result Q :=
  match a with
  | [] => Raise IndexError
  | [x] => Ok x
  | _ :: t => last_item t
  end.

(** [np.linspace(0, 1, n)]: the grid k/(n-1), k = 0 .. n-1. *)
Definition linspace01 (n : nat) : list Q :=
  map (fun k => inject_Z (Z.of_nat k) / inject_Z (Z.of_nat (n - 1))) (seq 0 n).

(** The interval search of [np.interp] for a key inside the range of [xp]:
    starting from the point [p], advance while the next abscissa is [<= x]
    (numpy's linear scan; its bisection returns the same index on a sorted
    [xp]), then interpolate on the interval found.  At the last point, and
    at an exact abscissa, the ordinate is returned without arithmetic. *)
Fixpoint interp_walk (x : Q) (p : Q * Q) (rest : list (Q * Q)) : Q :=
  match rest with
  | [] => snd p
  | q :: rest' =>
      if Qle_bool (fst q) x then interp_walk x q rest'
      else if Qeq_bool (fst p) x then snd p
      else (snd q - snd p) / (fst q - fst p) * (x - fst p) + snd p
  end.

Definition interp_at (left right : Q) (pts : list (Q * Q)) (x : Q) : Q :=
  match pts with
  | [] => 0
  | p :: rest =>
      if negb (Qle_bool x (fst (last pts p))) then right
      else if negb (Qle_bool (fst p) x) then left
      else interp_walk x p rest
  end.

(** [np.interp(x, xp, fp, left, right)].  [ValueError] when [xp] is empty or
    [xp] and [fp] differ in length; [left] and [right] default to the first
    and the last ordinate. *)
Definition interp (x xp fp : list Q) (left right : option Q) : result (list Q) :=
  match xp, fp with
  | [], _ => Raise ValueError
  | x0 :: _, f0 :: _ =>
      if Nat.eqb (length xp) (length fp) then
        let l := match left with Some v => v | None => f0 end in
        let r := match right with Some v => v | None => last fp f0 end in
        Ok (map (interp_at l r (combine xp fp)) x)
      else Raise ValueError
  | _ :: _, [] => Raise ValueError
  end.

(** [np.trapz(y, x)]: composite trapezoidal rule. *)
Fixpoint trapz (y x : list Q) : Q :=
  match y, x with
  | y0 :: ((y1 :: _) as ty), x0 :: ((x1 :: _) as tx) =>
      (x1 - x0) * (y1 + y0) / 2 + trapz ty tx
  | _, _ => 0
  end.

(** [a.cumsum()] *)
Fixpoint cumsum_from (acc : Q) (a : list Q) : list Q :=
  match a with
  | [] => []
  | x :: t => let s := acc + x in s :: cumsum_from s t
  end.

Definition cumsum (a : list Q) : list Q := cumsum_from 0 a.

(** [np.argsort(a)]: the indices that sort [a] in ascending order; an
    insertion sort, which keeps equal keys in their input order. *)
Fixpoint insert_idx (k : nat * Q) (l : list (nat * Q)) : list (nat * Q) :=
  match l with
  | [] => [k]
  | h :: t =>
      if Qle_bool (snd k) (snd h) then k :: l
      else h :: insert_idx k t
  end.

Definition argsort (a : list Q) : list nat :=
  map fst (fold_right insert_idx [] (Py.enumerate a)).

(** [a[i]] for an integer index array [i] (numpy fancy indexing):
    [IndexError] when an index is outside [a], otherwise the entries at
    the indices. *)
Definition fancy {A : Type} (i : list nat) (a : list A) : result (list A) :=
  Py.gather a (map Z.of_nat i).

(** The entries of [a] at indices that [a[i]] has accepted; the default
    [d] is not read then. *)
Definition take {A : Type} (d : A) (i : list nat) (a : list A) : list A :=
  map (fun k => nth k a d) i.

(** [tp[i]] on a two-dimensional array stored by columns.  The indices
    select rows: they are checked against the number of rows, which the
    columns of one array share and the first one shows, and every column
    is then re-indexed.  An array without columns has no entry to
    select. *)
Definition take_rows (i : list nat) (tp : list (list Q))
  : result (list (list Q)) :=
  match tp with
  | [] => Ok []
  | col0 :: _ =>
      try! _ := fancy i col0 in
      Ok (map (take 0 i) tp)
  end.

(** [np.unique(a)]: the distinct values in ascending order. *)
Fixpoint insert_unique (k : Z) (l : list Z) : list Z :=
  match l with
  | [] => [k]
  | h :: t =>
      if Z.ltb k h then k :: l
      else if Z.eqb k h then l
      else h :: insert_unique k t
  end.

Definition unique (a : list Z) : list Z :=
  fold_right insert_unique [] a.

(** [a.argmax()]: the first index of the largest value. *)
Fixpoint argmax_from (best : Q) (besti i : nat) (a : list Q) : nat :=
  match a with
  | [] => besti
  | x :: t =>
      if Py.Qgt_bool x best then argmax_from x i (S i) t
      else argmax_from best besti (S i) t
  end.

Definition argmax (a : list Q) : nat :=
  match a with
  | [] => O
  | x :: t => argmax_from x O 1%nat t
  end.

(** Elementwise binary operation on two arrays of one shape. *)
Fixpoint map2 (f : Q -> Q -> Q) (a b : list Q) : list Q :=
  match a, b with
  | x :: ta, y :: tb => f x y :: map2 f ta tb
  | _, _ => []
  end.

End Np.

(* ===================================================================== *)
(** ** [compute_ap]                                                       *)
(* ===================================================================== *)

Module AP.

Local Open Scope Q_scope.

(** Line 106: the precision envelope,
    [np.flip(np.maximum.accumulate(np.flip(mpre)))]. *)
Definition envelope (mpre : list Q) : list Q :=
  Np.flip (Np.maximum_accumulate (Np.flip mpre)).

(** [compute_ap(recall, precision)] returns [(ap, mpre, mrec)]; the method is
    the constant ["interp"], so only that branch is live. *)
Definition compute_ap (recall precision : list Q)
  : result (Q * list Q * list Q) :=
  try! r_last := Np.last_item recall in
  let mrec := [0] ++ recall ++ [r_last + (1 # 100)] in
  let mpre := [1] ++ precision ++ [0] in
  let mpre := envelope mpre in
  let x := Np.linspace01 101 in
  try! y := Np.interp x mrec mpre None None in
  Ok (Np.trapz y x, mpre, mrec).

End AP.

(* ===================================================================== *)
(** ** Tensors as heap objects                                            *)
(* ===================================================================== *)

(** The caller's [detections] and [labels] are references to tensors that
    the callee could write through.  A heap maps references to tensors:
    boolean-mask indexing ([t[mask]]) allocates a new tensor, while a slice
    assignment ([t[:, k] = v]) writes into the tensor it is applied to. *)
Abbreviation loc := nat (only parsing).
Abbreviation heap := (gmap nat tensor) (only parsing).

Module Heap.

Definition read (h : heap) (l : loc) : tensor :=
  match h !! l with
  | Some t => t
  | None => []
  end.

Definition alloc (h : heap) (t : tensor) : loc * heap :=
  let l := fresh (dom h) in (l, <[l := t]> h).

(** [h[l][:, k] = v] *)
Definition write_col (h : heap) (l : loc) (k : nat) (v : Q) : heap :=
  match h !! l with
  | Some t => <[l := Tensor.set_col k v t]> h
  | None => h
  end.

End Heap.

(* ===================================================================== *)
(** ** [OD_AUCROC]                                                        *)
(* ===================================================================== *)

(** The value of a torch true division: a finite number, or the IEEE
    results of dividing by zero. *)
Inductive tfloat : Type :=
| Fin (q : Q)
| Inf
| NaN.

Module Torch.

(** [torch.cat(tensors)] raises [RuntimeError] on an empty list. *)
Definition cat (ts : list (list Q)) : result (list Q) :=
  match ts with
  | [] => Raise RuntimeError
  | _ => Ok (concat ts)
  end.

(** [torch.stack(tensors)] raises [RuntimeError] on an empty list. *)
Definition stack {A : Type} (ts : list A) : result (list A) :=
  match ts with
  | [] => Raise RuntimeError
  | _ => Ok ts
  end.

(** [torch.max(t, 0, keepdim=True)[0]]; the reduction raises on an empty
    tensor. *)
Definition max0 (t : list Q) : result Q :=
  match t with
  | [] => Raise IndexError
  | x :: r => Ok (fold_left Qmax r x)
  end.

(** [torch.sum(t > threshold)] *)
Definition count_gt (t : list Q) (threshold : Q) : Z :=
  Z.of_nat (length (List.filter (fun v => Py.Qgt_bool v threshold) t)).

(** [count / n] for an integer tensor and a Python int: true division. *)
Definition true_divide (count : Z) (n : nat) : tfloat :=
  match n with
  | O => if Z.eqb count 0 then NaN else Inf
  | S _ => Fin (count # Pos.of_nat n)
  end.

(** [t <= c] on a float that may be infinite or not a number. *)
Definition le_bool (x : tfloat) (c : Q) : bool :=
  match x with
  | Fin q => Qle_bool q c
  | Inf => false
  | NaN => false
  end.

End Torch.

Module OD_AUCROC.

(** A [torchmetrics.ROC] accumulator: the (preds, target) tensors handed to
    [update], in call order. *)
Definition roc_state : Type := list (list Q * list Q).

Definition update (roc : roc_state) (preds target : list Q) : roc_state :=
  roc ++ [(preds, target)].

Record t : Type := mk {
  roc_lesion : roc_state;
  roc_image : roc_state;
  roc_image_noloc : roc_state;
  class_modifier : Z;
  markers_in_normal_image : list (list Q);
  nc : nat;
  iou_thres : Q;
  fm_img_ths : Q;
  malignant_cls_th : Q
}.

(** [__init__(nc, iou_thres=0.5, fm_img_ths=1.0)] *)
Definition init (nc : nat) (iou_thres fm_img_ths : Q) : result t :=
  let new th := mk [] [] [] 1 [] nc iou_thres fm_img_ths th in
  match nc with
  | 4%nat => Ok (new 2%Q)
  | 2%nat => Ok (new 1%Q)
  | 1%nat => Ok (new 0%Q)
  | _ => Raise ValueError
  end.

Definition set_rocs (self : t) (lesion image noloc : roc_state) : t :=
  mk lesion image noloc (class_modifier self) (markers_in_normal_image self)
     (nc self) (iou_thres self) (fm_img_ths self) (malignant_cls_th self).

Definition append_markers (self : t) (probs : list Q) : t :=
  mk (roc_lesion self) (roc_image self) (roc_image_noloc self)
     (class_modifier self) (markers_in_normal_image self ++ [probs])
     (nc self) (iou_thres self) (fm_img_ths self) (malignant_cls_th self).

Section ProcessBatch.

Variable box_iou : tensor -> tensor -> tensor.

(** Lines 273-282: the candidate pairs; the two-pass resolution is
    commented out in this class. *)
Definition matches_of (self : t) (mal_detections mal_labels : tensor)
  : list match_row :=
  let iou := box_iou (Tensor.cols_from 1 mal_labels) (Tensor.cols_to 4 mal_detections) in
  let x := Matcher.candidates iou (iou_thres self) in
  if Nat.ltb 0 (length x) then x else [].

(** Lines 293-296: the inner loop over the detections matched to one
    label; the state is [(best_score, image_best_score)]. *)
Definition best_step (gc : Z) (st : Q * Q) (dcp : Z * Q) : Q * Q :=
  if Z.eqb (fst dcp) gc then
    let best_score := Qmax (fst st) (snd dcp) in
    (best_score, Qmax (snd st) best_score)
  else st.

(** Lines 290-299: the body of the loop over the ground-truth labels; the
    state is [(roc_lesion, image_best_score)]. *)
Definition lesion_step (n : bool) (m0 m1 detection_classes : list Z)
    (detection_probs : list Q) (st : roc_state * Q) (igc : nat * Z)
  : result (roc_state * Q) :=
  let gc := snd igc in
  let j := Matcher.eq_mask m0 (fst igc) in
  let miss := Ok (update (fst st) [0%Q] [inject_Z gc], snd st) in
  if n && Nat.ltb 0 (Matcher.count_true j) then
    try! dcs := Py.gather detection_classes (Py.select j m1) in
    if existsb (fun dc => Z.eqb dc gc) dcs then
      try! probs := Py.gather detection_probs (Py.select j m1) in
      let r := fold_left (best_step gc) (combine dcs probs) (0%Q, snd st) in
      Ok (update (fst st) [fst r] [inject_Z gc], snd r)
    else miss
  else miss.

(** Lines 246-302, on the two relabelled copies. *)
Definition update_image (self : t) (mal_detections mal_labels : tensor)
  : result t :=
  let detection_probs := Tensor.col 4 mal_detections in
  let nl := length mal_labels in
  if Nat.eqb (length mal_detections) 0 then
    if Nat.eqb nl 0 then
      let self := append_markers self detection_probs in
      Ok (set_rocs self (update (roc_lesion self) [0%Q] [0%Q])
                        (update (roc_image self) [0%Q] [0%Q])
                        (update (roc_image_noloc self) [0%Q] [0%Q]))
    else
      Ok (set_rocs self (update (roc_lesion self) (repeat 0%Q nl) (repeat 1%Q nl))
                        (update (roc_image self) [0%Q] [1%Q])
                        (update (roc_image_noloc self) [0%Q] [1%Q]))
  else if Nat.eqb nl 0 then
    let self := append_markers self detection_probs in
    try! mx := Torch.max0 detection_probs in
    Ok (set_rocs self (update (roc_lesion self) [mx] [0%Q])
                      (update (roc_image self) [mx] [0%Q])
                      (update (roc_image_noloc self) [mx] [0%Q]))
  else
    try! mx := Torch.max0 detection_probs in
    let noloc := update (roc_image_noloc self) [mx] [1%Q] in
    let gt_classes :=
      map (fun c => (Py.int c + class_modifier self)%Z) (Tensor.col 0 mal_labels) in
    let detection_classes :=
      map (fun c => (Py.int c + class_modifier self)%Z) (Tensor.col 5 mal_detections) in
    let matches := matches_of self mal_detections mal_labels in
    let n := Nat.ltb 0 (length matches) in
    let m0 := Matcher.m0 matches in
    let m1 := Matcher.m1 matches in
    try! st := Py.for_each (lesion_step n m0 m1 detection_classes detection_probs)
                           (roc_lesion self, 0%Q) (Py.enumerate gt_classes) in
    let image := if Nat.ltb 0 nl then update (roc_image self) [snd st] [1%Q]
                 else roc_image self in
    Ok (set_rocs self (fst st) image noloc).

(** [process_batch(detections, labels)]: lines 241-244 select the malignant
    rows into new tensors and overwrite the class column of those, then the
    image is scored. *)
Definition process_batch (self : t) (detections labels : loc) (h : heap)
  : result (t * heap) :=
  let d := Heap.read h detections in
  let l := Heap.read h labels in
  let '(mal_detections, h) :=
    Heap.alloc h (Py.select (map (Qle_bool (malignant_cls_th self)) (Tensor.col 5 d)) d) in
  let '(mal_labels, h) :=
    Heap.alloc h (Py.select (map (Qle_bool (malignant_cls_th self)) (Tensor.col 0 l)) l) in
  let h := Heap.write_col h mal_detections 5 0%Q in
  let h := Heap.write_col h mal_labels 0 0%Q in
  try! self := update_image self (Heap.read h mal_detections) (Heap.read h mal_labels) in
  Ok (self, h).

End ProcessBatch.

(** [froc_curve(tpr, thresholds)] *)
Definition froc_step (self : t) (n_normal_images : nat)
    (avg_fm_image_per_ths : list tfloat) (threshold : Q) : result (list tfloat) :=
  try! markers := Torch.cat (markers_in_normal_image self) in
  let avg_fm_image := Torch.true_divide (Torch.count_gt markers threshold) n_normal_images in
  Ok (avg_fm_image_per_ths ++ [avg_fm_image]).

Definition froc_curve (self : t) (tpr thresholds : list Q)
  : result (list Q * list tfloat) :=
  let n_normal_images := length (markers_in_normal_image self) in
  try! avg_fm_image_per_ths :=
    Py.for_each (froc_step self n_normal_images) [] thresholds in
  try! stacked := Torch.stack avg_fm_image_per_ths in
  Ok (tpr, stacked).

Section Score.

(** torchmetrics: [ROC.compute()] gives (fpr, tpr, thresholds);
    [functional.auc(x, y)] integrates.  Both are library code and may
    raise. *)
Variable roc_compute : roc_state -> result (list Q * list Q * list Q).
Variable auc : list tfloat -> list tfloat -> result tfloat.

Definition partial_auc (self : t) (tpr : list Q) (fm_img : list tfloat)
  : result tfloat :=
  let partial_fm_img_idx := map (fun x => Torch.le_bool x (fm_img_ths self)) fm_img in
  auc (map Fin (Py.select partial_fm_img_idx tpr))
      (Py.select partial_fm_img_idx fm_img).

Definition level (self : t) (roc : roc_state) (froc_first : bool)
  : result (tfloat * tfloat) :=
  try! c := roc_compute roc in
  let '(fpr, tpr, thresholds) := c in
  if froc_first then
    try! f := froc_curve self tpr thresholds in
    try! a := auc (map Fin fpr) (map Fin tpr) in
    try! pa := partial_auc self (fst f) (snd f) in
    Ok (a, pa)
  else
    try! a := auc (map Fin fpr) (map Fin tpr) in
    try! f := froc_curve self tpr thresholds in
    try! pa := partial_auc self (fst f) (snd f) in
    Ok (a, pa).

Definition score (self : t)
  : result (tfloat * tfloat * tfloat * tfloat * tfloat * tfloat) :=
  try! lesion := level self (roc_lesion self) true in
  try! image := level self (roc_image self) false in
  try! nonloc := level self (roc_image_noloc self) false in
  Ok (fst lesion, fst image, fst nonloc, snd lesion, snd image, snd nonloc).

End Score.

End OD_AUCROC.

(* ===================================================================== *)
(** ** The rendering boundary: [plot_pr_curve], [plot_mc_curve]           *)
(* ===================================================================== *)

(** matplotlib (and seaborn) are collaborators behind the boundary: each
    of their entry points either returns or raises. *)
Record backend : Type := mk_backend {
  import_seaborn : result unit;          (* [import seaborn as sn] *)
  new_figure : result unit;              (* [plt.subplots] / [plt.figure] *)
  draw : result unit;                    (* [ax.plot], labels, legend, heatmap *)
  savefig : String.string -> result unit (* [fig.savefig(path)] *)
}.

Module Plot.

(** The per-class legend branch reads [names[i]] for every curve. *)
Definition legend_names (names : list String.string) (curves : nat) : result unit :=
  if Nat.ltb 0 (length names) && Nat.ltb (length names) 21 then
    if Nat.ltb (length names) curves then Raise IndexError else Ok tt
  else Ok tt.

(** [plot_pr_curve(px, py, ap, save_dir, names)]; [np.stack(py, axis=1)]
    raises [ValueError] on an empty list. *)
Definition plot_pr_curve (bk : backend) (px : list Q) (py : list (list Q))
    (ap : list (list Q)) (save_dir : String.string) (names : list String.string)
  : result unit :=
  try! _ := new_figure bk in
  try! _ := (match py with [] => Raise ValueError | _ => Ok tt end) in
  try! _ := legend_names names (length py) in
  try! _ := draw bk in
  savefig bk save_dir.

(** [plot_mc_curve(px, py, save_dir, names, xlabel, ylabel)] *)
Definition plot_mc_curve (bk : backend) (px : list Q) (py : list (list Q))
    (save_dir : String.string) (names : list String.string)
  : result unit :=
  try! _ := new_figure bk in
  try! _ := legend_names names (length py) in
  try! _ := draw bk in
  savefig bk save_dir.

End Plot.

(* ===================================================================== *)
(** ** [ap_per_class]                                                     *)
(* ===================================================================== *)

Module ApPerClass.

Local Open Scope Q_scope.

(** The guard [1e-16]. *)
Definition eps : Q := 1 # 10000000000000000.

(** [np.linspace(0, 1, 1000)] *)
Definition px : list Q := Np.linspace01 1000.

Definition zeros (n : nat) : list Q := repeat 0 n.

(** The two-dimensional array [tp] ([n x T], one column per IoU threshold)
    is stored by columns: [tp] is the list of its [tp.shape[1]] columns,
    each of length [n].  [tp[:, j]] is the [j]-th element; an index outside
    the shape raises [IndexError]. *)
Definition column (j : nat) (a : list (list Q)) : result (list Q) :=
  match nth_error a j with
  | Some c => Ok c
  | None => Raise IndexError
  end.

(** What one iteration of the loop over the classes writes: row [ci] of
    [p], of [r] and of [ap], and what it appends to [py]. *)
Record class_rows : Type := mk_rows {
  p_row : list Q;
  r_row : list Q;
  ap_row : list Q;
  py_rows : list (list Q)
}.

(** Lines 75-78: the loop over the threshold columns; the state is
    [(ap[ci, :j], py)]. *)
Definition ap_step (plot : bool) (st : list Q * list (list Q))
    (jrp : nat * (list Q * list Q)) : result (list Q * list (list Q)) :=
  try! c := AP.compute_ap (fst (snd jrp)) (snd (snd jrp)) in
  let '(ap, mpre, mrec) := c in
  if plot && Nat.eqb (fst jrp) 0 then
    try! y := Np.interp px mrec mpre None None in
    Ok (fst st ++ [ap], snd st ++ [y])
  else Ok (fst st ++ [ap], snd st).

(** Lines 55-78: the body of the loop over the classes, on the arrays
    already sorted by confidence. *)
Definition class_body (plot : bool) (tp : list (list Q)) (conf : list Q)
    (pred_cls target_cls : list Z) (c : Z) : result class_rows :=
  let i := map (Z.eqb c) pred_cls in
  let n_l := Matcher.count_true (map (Z.eqb c) target_cls) in
  let n_p := Matcher.count_true i in
  if Nat.eqb n_p 0 || Nat.eqb n_l 0 then
    Ok (mk_rows (zeros 1000) (zeros 1000) (zeros (length tp)) [])
  else
    let tp_i := map (Py.select i) tp in
    let fpc := map (fun col => Np.cumsum (map (fun v => 1 - v) col)) tp_i in
    let tpc := map Np.cumsum tp_i in
    let recall := map (map (fun v => v / (inject_Z (Z.of_nat n_l) + eps))) tpc in
    try! recall0 := column 0 recall in
    try! r := Np.interp (map Qopp px) (map Qopp (Py.select i conf)) recall0
                        (Some 0) None in
    let precision :=
      map (fun tf => Np.map2 (fun t f => t / (t + f)) (fst tf) (snd tf))
          (combine tpc fpc) in
    try! precision0 := column 0 precision in
    try! p := Np.interp (map Qopp px) (map Qopp (Py.select i conf)) precision0
                        (Some 1) None in
    try! st := Py.for_each (ap_step plot) ([], [])
                           (Py.enumerate (combine recall precision)) in
    Ok (mk_rows p r (fst st) (snd st)).

(** [f1 = 2 * p * r / (p + r + 1e-16)] on one row. *)
Definition f1_row (p r : list Q) : list Q :=
  Np.map2 (fun a b => 2 * a * b / (a + b + eps)) p r.

(** [f1.mean(0)]: the mean over the classes at every grid point.  With no
    class at all numpy yields NaN everywhere and [argmax] is 0; the model
    yields 0 everywhere and [argmax] is 0 as well. *)
Definition mean0 (rows : list (list Q)) : list Q :=
  map (fun s => s / inject_Z (Z.of_nat (length rows)))
      (fold_right (Np.map2 Qplus) (zeros 1000) rows).

(** [a[:, i]] *)
Definition at_col (i : nat) (a : list (list Q)) : list Q :=
  map (fun row => nth i row 0) a.

Record output : Type := mk_output {
  out_p : list Q;
  out_r : list Q;
  out_ap : list (list Q);
  out_f1 : list Q;
  out_classes : list Z
}.

(** Lines 47-89, on the arrays that line 45 has sorted by confidence. *)
Definition per_class (bk : backend) (tp : list (list Q)) (conf : list Q)
    (pred_cls target_cls : list Z) (plot : bool) (save_dir : String.string)
    (names : list String.string) : result output :=
  let unique_classes := Np.unique target_cls in
  try! rows := Py.for_each
                 (fun acc c =>
                    try! row := class_body plot tp conf pred_cls target_cls c in
                    Ok (acc ++ [row]))
                 [] unique_classes in
  let p := map p_row rows in
  let r := map r_row rows in
  let ap := map ap_row rows in
  let py := concat (map py_rows rows) in
  let f1 := map (fun row => f1_row (p_row row) (r_row row)) rows in
  try! _ := (if plot then
               try! _ := Plot.plot_pr_curve bk px py ap
                           (String.append save_dir "/PR_curve.png"%string) names in
               try! _ := Plot.plot_mc_curve bk px f1
                           (String.append save_dir "/F1_curve.png"%string) names in
               try! _ := Plot.plot_mc_curve bk px p
                           (String.append save_dir "/P_curve.png"%string) names in
               Plot.plot_mc_curve bk px r
                           (String.append save_dir "/R_curve.png"%string) names
             else Ok tt) in
  let i := Np.argmax (mean0 f1) in
  Ok (mk_output (at_col i p) (at_col i r) ap (at_col i f1)
                (map Py.astype_int32 unique_classes)).

(** [ap_per_class(tp, conf, pred_cls, target_cls, plot, save_dir, names)]:
    lines 44-45 sort the three arrays by descending confidence,
    [tp, conf, pred_cls = tp[i], conf[i], pred_cls[i]], and raise
    [IndexError] when [tp] or [pred_cls] has fewer rows than [conf]. *)
Definition ap_per_class (bk : backend) (tp : list (list Q)) (conf : list Q)
    (pred_cls target_cls : list Z) (plot : bool) (save_dir : String.string)
    (names : list String.string) : result output :=
  let i := Np.argsort (map Qopp conf) in
  try! tp := Np.take_rows i tp in
  try! conf := Np.fancy i conf in
  try! pred_cls := Np.fancy i pred_cls in
  per_class bk tp conf pred_cls target_cls plot save_dir names.

End ApPerClass.

(* ===================================================================== *)
(** ** [ConfusionMatrix.plot]                                             *)
(* ===================================================================== *)

Module ConfusionMatrixPlot.

(** The body of the [try] block: the normalised copy [array] is a new
    array, so [self.matrix] is only read. *)
Definition render (bk : backend) (self : ConfusionMatrix.t)
    (save_dir : String.string) : result unit :=
  try! _ := import_seaborn bk in
  try! _ := new_figure bk in
  try! _ := draw bk in
  savefig bk (String.append save_dir "/confusion_matrix.png"%string).

(** [plot(save_dir, names)]: [try: ... except Exception as e: pass]. *)
Definition plot (bk : backend) (self : ConfusionMatrix.t)
    (save_dir : String.string) : result unit :=
  match render bk self save_dir with
  | Ok _ => Ok tt
  | Raise e => if is_Exception e then Ok tt else Raise e
  end.

End ConfusionMatrixPlot.

(* ===================================================================== *)
(** ** [fitness]                                                          *)
(* ===================================================================== *)

Module Fitness.

Local Open Scope Q_scope.

(** The weights for [P, R, mAP@0.5, mAP@0.5:0.95]. *)
Definition w : list Q := [0; 0; 1 # 10; 9 # 10].

Definition sum (a : list Q) : Q := fold_right Qplus 0 a.

(** [fitness(x)] is [(x[:, :4] * w).sum(1)] on an array [x] of [ncols]
    columns, stored by rows.  The product broadcasts the slice against the
    four weights: a slice of four columns is multiplied elementwise, a
    slice of one column is repeated, any other width raises
    [ValueError]. *)
Definition fitness (ncols : nat) (x : list (list Q)) : result (list Q) :=
  match Nat.min ncols 4 with
  | 4%nat => Ok (map (fun row => sum (Np.map2 Qmult (firstn 4 row) w)) x)
  | 1%nat => Ok (map (fun row => sum (map (Qmult (nth 0 row 0)) w)) x)
  | _ => Raise ValueError
  end.

End Fitness.

(* ===================================================================== *)
(** * Vocabulary of the statements                                        *)
(* ===================================================================== *)

(** Notions that the properties below are worded with; none of them is
    part of the program. *)

Module ConfusionMatrixTerms.

Import ConfusionMatrix.

(** The detection at index [i] is claimed when some match row carries it. *)
Definition claimed (matches : list match_row) (i : nat) : bool :=
  existsb (fun m => Nat.eqb (Matcher.m_det m) i) matches.

(** The predicted classes of the detections that no match row claims, in
    detection order. *)
Definition unclaimed (matches : list match_row) (detection_classes : list Z)
  : list Z :=
  map snd (List.filter (fun idc : nat * Z => negb (claimed matches (fst idc)))
                       (Py.enumerate detection_classes)).

(** The counter matrix is square of side [k]. *)
Definition square (k : nat) (m : list (list Z)) : Prop :=
  length m = k /\ List.Forall (fun row => length row = k) m.

(** A class id that names one of the [k] classes. *)
Definition class_below (k : nat) (c : Z) : Prop :=
  (0 <= c < Z.of_nat k)%Z.

(** The counter at row [i], column [j]. *)
Definition cell (m : list (list Z)) (i j : nat) : Z :=
  nth j (nth i m []) 0%Z.

(** The matrix [m'] has the shape of [m0] and no smaller counter. *)
Definition grown_from (m0 m' : list (list Z)) : Prop :=
  map (@length Z) m' = map (@length Z) m0 /\
  forall i j, (cell m0 i j <= cell m' i j)%Z.

(** The number of entries of [l] equal to [c]. *)
Definition occurrences (c : Z) (l : list Z) : Z :=
  Z.of_nat (length (List.filter (Z.eqb c) l)).

End ConfusionMatrixTerms.

Module OD_AUCROCTerms.

Import OD_AUCROC.

(** The two relabelled copies of lines 241-244, as values. *)
Definition mal_detections_of (self : t) (d : tensor) : tensor :=
  Tensor.set_col 5 0%Q
    (Py.select (map (Qle_bool (malignant_cls_th self)) (Tensor.col 5 d)) d).

Definition mal_labels_of (self : t) (l : tensor) : tensor :=
  Tensor.set_col 0 0%Q
    (Py.select (map (Qle_bool (malignant_cls_th self)) (Tensor.col 0 l)) l).

(** The match rows that pair the label at index [i] with a detection. *)
Definition paired (matches : list match_row) (i : nat) : list match_row :=
  List.filter (fun m => Nat.eqb (Matcher.m_label m) i) matches.

(** The score credited to the label at index [i]: the largest score among
    the detections paired with it, and 0 when there is none. *)
Definition label_score (matches : list match_row) (detection_probs : list Q)
    (i : nat) : Q :=
  fold_left Qmax
    (map (fun m => nth (Matcher.m_det m) detection_probs 0%Q) (paired matches i))
    0%Q.

(** The engine [OD_AUCROC(nc=1)] with the default thresholds. *)
Definition engine1 : t := mk [] [] [] 1 [] 1 (1 # 2) 1 0.

(** The number of scores recorded in an accumulator. *)
Definition observations (roc : roc_state) : nat :=
  length (concat (map fst roc)).

(** The average number of recorded markers per recorded normal image
    whose score is above [threshold]. *)
Definition avg_false_markers (self : t) (threshold : Q) : Q :=
  Torch.count_gt (concat (markers_in_normal_image self)) threshold
  # Pos.of_nat (length (markers_in_normal_image self)).

End OD_AUCROCTerms.

Module ApPerClassTerms.

Import ApPerClass.

Local Open Scope Q_scope.

(** A (recall, precision) column pair on which [compute_ap] returns. *)
Definition good (rp : list Q * list Q) : Prop :=
  fst rp <> [] /\ length (snd rp) = length (fst rp).

Definition ap_of (rp : list Q * list Q) : Q :=
  match AP.compute_ap (fst rp) (snd rp) with
  | Ok (ap, _, _) => ap
  | Raise _ => 0
  end.

Definition py_of (rp : list Q * list Q) : list (list Q) :=
  match AP.compute_ap (fst rp) (snd rp) with
  | Ok (_, mpre, mrec) =>
      match Np.interp px mrec mpre None None with
      | Ok y => [y]
      | Raise _ => []
      end
  | Raise _ => []
  end.

(** The (recall, precision) pair computed from one column of [tp]. *)
Definition curves_of (i : list bool) (n_l : nat) (col : list Q)
  : list Q * list Q :=
  let tp_i := Py.select i col in
  let tpc := Np.cumsum tp_i in
  let fpc := Np.cumsum (map (fun v => 1 - v) tp_i) in
  (map (fun v => v / (inject_Z (Z.of_nat n_l) + eps)) tpc,
   Np.map2 (fun t f => t / (t + f)) tpc fpc).

(** Two iterations wrote the same precision row, recall row and [py]
    entries (their [ap] rows may differ), or raised the same exception. *)
Definition same_curves (a b : result class_rows) : Prop :=
  match a, b with
  | Ok x, Ok y =>
      p_row x = p_row y /\ r_row x = r_row y /\ py_rows x = py_rows y
  | Raise e, Raise e' => e = e'
  | _, _ => False
  end.

Definition row_rel (x y : class_rows) : Prop :=
  p_row x = p_row y /\ r_row x = r_row y /\ py_rows x = py_rows y.

(** Two calls agree on everything but the [ap] array, or raise the same
    exception. *)
Definition same_operating_point (a b : result output) : Prop :=
  match a, b with
  | Ok x, Ok y =>
      out_p x = out_p y /\ out_r x = out_r y /\ out_f1 x = out_f1 y /\
      out_classes x = out_classes y
  | Raise e, Raise e' => e = e'
  | _, _ => False
  end.

(** Every index of [i] lies within an axis of length [n]. *)
Definition in_range (i : list nat) (n : nat) : bool :=
  forallb (fun k => Nat.ltb k n) i.

(** The sort indices of [conf] lie within the rows of [tp] and within
    [pred_cls]. *)
Definition indexable (tp : list (list Q)) (conf : list Q) (pred_cls : list Z)
  : bool :=
  let i := Np.argsort (map Qopp conf) in
  match tp with
  | [] => true
  | col0 :: _ => in_range i (length col0)
  end && in_range i (length pred_cls).

Definition collect (f : Z -> result class_rows)
    (acc : list class_rows) (c : Z) : result (list class_rows) :=
  try! row := f c in Ok (acc ++ [row]).

End ApPerClassTerms.

(* ===================================================================== *)
(** * Properties                                                          *)
(* ===================================================================== *)

(** ** The error monad *)

Lemma rbind_Ok_inv {A B : Type} (m : result A) (k : A -> result B) (b : B) :
  rbind m k = Ok b -> exists a, m = Ok a /\ k a = Ok b.
Proof.
  destruct m as [a|e]; simpl; intros H.
  - exists a; split; [reflexivity | exact H].
  - discriminate H.
Qed.

Lemma Qgt_bool_iff (a b : Q) : Py.Qgt_bool a b = true <-> (b < a)%Q.
Proof.
  unfold Py.Qgt_bool. rewrite negb_true_iff.
  split; intros H.
  - apply Qnot_le_lt. intros Hle. apply Qle_bool_iff in Hle. congruence.
  - destruct (Qle_bool a b) eqn:E; [|reflexivity].
    apply Qle_bool_iff in E. exfalso. exact (Qlt_not_le _ _ H E).
Qed.

(** ** Sorted lists, by index *)

Section SortedLists.

Context {A : Type} (R : A -> A -> Prop).

Lemma StronglySorted_snoc (S : A -> A -> Prop) (l : list A) (a : A) :
  StronglySorted S l -> List.Forall (fun x => S x a) l ->
  StronglySorted S (l ++ [a]).
Proof.
  induction l as [|x l IH]; simpl; intros Hs Hall.
  - constructor; constructor.
  - inversion Hs as [|? ? Hs' Hx]; subst.
    inversion Hall as [|? ? Hxa Hall']; subst.
    constructor.
    + apply IH; assumption.
    + apply List.Forall_app. split; [assumption | constructor; [assumption | constructor]].
Qed.

Lemma StronglySorted_rev_flip (l : list A) :
  StronglySorted R l -> StronglySorted (fun a b => R b a) (rev l).
Proof.
  induction 1 as [|x l Hs IH Hx]; simpl.
  - constructor.
  - apply StronglySorted_snoc; [exact IH|].
    apply List.Forall_rev. exact Hx.
Qed.

Lemma StronglySorted_nth_lt (l : list A) (d : A) :
  StronglySorted R l ->
  forall i j, (i < j)%nat -> (j < length l)%nat -> R (nth i l d) (nth j l d).
Proof.
  induction 1 as [|x l Hs IH Hx]; intros i j Hij Hj; simpl in Hj.
  - lia.
  - destruct j as [|j]; [lia|].
    destruct i as [|i]; simpl.
    + rewrite List.Forall_forall in Hx. apply Hx. apply nth_In. lia.
    + apply IH; lia.
Qed.

End SortedLists.

(** ** [compute_ap]: the precision envelope *)

Module APFacts.

Local Open Scope Q_scope.

Lemma accumulate_from_ge (l : list Q) :
  forall acc, List.Forall (fun x => acc <= x) (Np.accumulate_from acc l).
Proof.
  induction l as [|x l IH]; intros acc; simpl.
  - constructor.
  - constructor.
    + apply Q.le_max_l.
    + eapply List.Forall_impl; [|apply IH].
      simpl. intros y Hy. eapply Qle_trans; [apply Q.le_max_l | exact Hy].
Qed.

Lemma accumulate_from_sorted (l : list Q) :
  forall acc, StronglySorted Qle (Np.accumulate_from acc l).
Proof.
  induction l as [|x l IH]; intros acc; simpl.
  - constructor.
  - constructor; [apply IH | apply accumulate_from_ge].
Qed.

Lemma maximum_accumulate_sorted (l : list Q) :
  StronglySorted Qle (Np.maximum_accumulate l).
Proof.
  destruct l as [|x l]; simpl.
  - constructor.
  - constructor; [apply accumulate_from_sorted | apply accumulate_from_ge].
Qed.

Lemma accumulate_from_length (l : list Q) :
  forall acc, length (Np.accumulate_from acc l) = length l.
Proof.
  induction l as [|x l IH]; intros acc; simpl; [reflexivity | now rewrite IH].
Qed.

Lemma maximum_accumulate_length (l : list Q) :
  length (Np.maximum_accumulate l) = length l.
Proof.
  destruct l; simpl; [reflexivity | now rewrite accumulate_from_length].
Qed.

Lemma envelope_length (l : list Q) : length (AP.envelope l) = length l.
Proof.
  unfold AP.envelope, Np.flip.
  now rewrite length_rev, maximum_accumulate_length, length_rev.
Qed.

(** The envelope is non-increasing from its first to its last point. *)
Lemma envelope_sorted (l : list Q) :
  StronglySorted (fun a b => b <= a) (AP.envelope l).
Proof.
  unfold AP.envelope, Np.flip.
  apply StronglySorted_rev_flip, maximum_accumulate_sorted.
Qed.

Lemma envelope_nth_le (l : list Q) (i j : nat) :
  (i <= j)%nat -> (j < length (AP.envelope l))%nat ->
  nth j (AP.envelope l) 0 <= nth i (AP.envelope l) 0.
Proof.
  intros Hij Hj.
  destruct (Nat.eq_dec i j) as [->|Hne]; [apply Qle_refl|].
  apply (StronglySorted_nth_lt (fun a b => b <= a) _ 0 (envelope_sorted l)); lia.
Qed.

Lemma last_cons_head {A : Type} (l : list A) :
  forall a d, last (a :: l) d = last l a.
Proof.
  induction l as [|b l IH]; intros a d; [reflexivity|].
  change (last (a :: b :: l) d) with (last (b :: l) d).
  rewrite (IH b d). symmetry. apply IH.
Qed.

Lemma accumulate_from_snoc (l : list Q) :
  forall acc x,
    Np.accumulate_from acc (l ++ [x]) =
    Np.accumulate_from acc l ++ [Qmax (last (Np.accumulate_from acc l) acc) x].
Proof.
  induction l as [|y l IH]; intros acc x.
  - reflexivity.
  - change (Np.accumulate_from acc ((y :: l) ++ [x]))
      with (Qmax acc y :: Np.accumulate_from (Qmax acc y) (l ++ [x])).
    change (Np.accumulate_from acc (y :: l))
      with (Qmax acc y :: Np.accumulate_from (Qmax acc y) l).
    rewrite IH, last_cons_head. reflexivity.
Qed.

Lemma accumulate_from_last_le (bound : Q) (l : list Q) :
  forall acc, acc <= bound -> List.Forall (fun x => x <= bound) l ->
    last (Np.accumulate_from acc l) acc <= bound.
Proof.
  induction l as [|y l IH]; intros acc Hacc Hall.
  - exact Hacc.
  - inversion Hall as [|? ? Hy Hl]; subst.
    assert (Hm : Qmax acc y <= bound) by (apply Q.max_lub; assumption).
    specialize (IH _ Hm Hl).
    change (Np.accumulate_from acc (y :: l))
      with (Qmax acc y :: Np.accumulate_from (Qmax acc y) l).
    rewrite last_cons_head. exact IH.
Qed.

(** The shape of the envelope of the padded precision array: the running
    maximum reaches the leading sentinel last, and the trailing sentinel is
    kept as it is. *)
Lemma envelope_padded (precision : list Q) :
  exists m body,
    AP.envelope ([1] ++ precision ++ [0]) = Qmax m 1 :: body ++ [0] /\
    length body = length precision /\
    (List.Forall (fun p => p <= 1) precision -> m <= 1).
Proof.
  exists (last (Np.accumulate_from 0 (rev precision)) 0),
         (rev (Np.accumulate_from 0 (rev precision))).
  split; [|split].
  - unfold AP.envelope, Np.flip. simpl.
    rewrite rev_app_distr. simpl.
    rewrite accumulate_from_snoc. rewrite rev_app_distr. simpl. reflexivity.
  - now rewrite length_rev, accumulate_from_length, length_rev.
  - intros Hall. apply accumulate_from_last_le.
    + discriminate.
    + apply List.Forall_rev. exact Hall.
Qed.

Lemma last_item_Ok (a : list Q) (x : Q) :
  Np.last_item a = Ok x -> a <> [] /\ last a 0 = x.
Proof.
  induction a as [|y a IH]; simpl; intros H; [discriminate|].
  destruct a as [|z a].
  - inversion H; subst. split; [discriminate | reflexivity].
  - destruct (IH H) as [_ Hl]. split; [discriminate | exact Hl].
Qed.

Lemma last_item_nonempty (a : list Q) :
  a <> [] -> exists x, Np.last_item a = Ok x.
Proof.
  induction a as [|y a IH]; intros Hne; [congruence|].
  destruct a as [|z a].
  - exists y. reflexivity.
  - destruct IH as [x Hx]; [discriminate|]. exists x. exact Hx.
Qed.

Lemma interp_Ok (x xp fp y : list Q) (left right : option Q) :
  Np.interp x xp fp left right = Ok y -> length xp = length fp.
Proof.
  unfold Np.interp. destruct xp as [|x0 xp]; [discriminate|].
  destruct fp as [|f0 fp]; [discriminate|].
  destruct (Nat.eqb (length (x0 :: xp)) (length (f0 :: fp))) eqn:E; [|discriminate].
  intros _. now apply Nat.eqb_eq in E.
Qed.

Lemma interp_returns (x xp fp : list Q) (left right : option Q) :
  xp <> [] -> length xp = length fp ->
  exists y, Np.interp x xp fp left right = Ok y.
Proof.
  intros Hne Hlen. unfold Np.interp.
  destruct xp as [|x0 xp]; [congruence|].
  destruct fp as [|f0 fp]; [discriminate|].
  rewrite Hlen, Nat.eqb_refl. eexists. reflexivity.
Qed.

(** What a returning call of [compute_ap] has computed. *)
Lemma compute_ap_Ok (recall precision : list Q) (ap : Q) (mpre mrec : list Q) :
  AP.compute_ap recall precision = Ok (ap, mpre, mrec) ->
  exists r_last,
    Np.last_item recall = Ok r_last /\
    mrec = [0] ++ recall ++ [r_last + (1 # 100)] /\
    mpre = AP.envelope ([1] ++ precision ++ [0]) /\
    length mrec = length mpre.
Proof.
  unfold AP.compute_ap. intros H.
  apply rbind_Ok_inv in H. destruct H as [r_last [Hlast H]].
  apply rbind_Ok_inv in H. destruct H as [y [Hy H]].
  inversion H; subst. exists r_last.
  split; [exact Hlast|]. split; [reflexivity|]. split; [reflexivity|].
  exact (interp_Ok _ _ _ _ _ _ Hy).
Qed.

Lemma compute_ap_returns (recall precision : list Q) :
  recall <> [] -> length precision = length recall ->
  returns (AP.compute_ap recall precision).
Proof.
  intros Hne Hlen. unfold returns, AP.compute_ap.
  destruct (last_item_nonempty recall Hne) as [r_last ->]. cbn [rbind].
  match goal with
  | |- context [Np.interp ?x ?xp ?fp None None] =>
      destruct (interp_returns x xp fp None None) as [y Hy]
  end.
  - discriminate.
  - rewrite envelope_length. simpl. rewrite !length_app. simpl. lia.
  - rewrite Hy. cbn [rbind]. eexists. reflexivity.
Qed.

(** The padded recall array is non-decreasing when the recall curve is
    non-negative and non-decreasing. *)
Lemma sorted_le_last (a : list Q) (x : Q) :
  StronglySorted Qle a -> Np.last_item a = Ok x ->
  List.Forall (fun y => y <= x) a.
Proof.
  induction 1 as [|y a Hs IH Hy]; intros Hlast; [constructor|].
  destruct a as [|z a].
  - simpl in Hlast. inversion Hlast; subst. constructor; [apply Qle_refl | constructor].
  - assert (Hl : Np.last_item (z :: a) = Ok x) by exact Hlast.
    specialize (IH Hl). constructor; [|exact IH].
    inversion IH as [|? ? Hz _]; subst.
    inversion Hy as [|? ? Hyz _]; subst.
    eapply Qle_trans; eassumption.
Qed.

Lemma mrec_sorted (recall : list Q) (r_last : Q) :
  StronglySorted Qle recall -> List.Forall (fun r => 0 <= r) recall ->
  Np.last_item recall = Ok r_last ->
  StronglySorted Qle ([0] ++ recall ++ [r_last + (1 # 100)]).
Proof.
  intros Hs Hpos Hlast.
  pose proof (sorted_le_last _ _ Hs Hlast) as Hle.
  assert (Hstep : r_last <= r_last + (1 # 100)).
  { rewrite <- (Qplus_0_r r_last) at 1. apply Qplus_le_r. discriminate. }
  simpl. constructor.
  - apply StronglySorted_snoc; [exact Hs|].
    eapply List.Forall_impl; [|exact Hle].
    simpl. intros y Hy. eapply Qle_trans; eassumption.
  - apply List.Forall_app. split; [exact Hpos|].
    constructor; [|constructor].
    destruct (last_item_Ok _ _ Hlast) as [Hne _].
    destruct recall as [|r0 recall]; [congruence|].
    inversion Hpos as [|? ? H0 _]; subst.
    inversion Hle as [|? ? H1 _]; subst.
    eapply Qle_trans; [exact H0|]. eapply Qle_trans; eassumption.
Qed.

(** C5 (as amended).  The precision envelope returned by [compute_ap] is
    non-increasing along the array, that is, as recall increases: for
    indices [i <= j] the value at [j] is at most the value at [i].  Hence,
    for a non-negative, non-decreasing recall curve, of any two points of
    the envelope the one at the higher recall has the smaller-or-equal
    precision. *)
Theorem compute_ap_envelope_monotone
    (recall precision : list Q) (ap : Q) (mpre mrec : list Q) :
  AP.compute_ap recall precision = Ok (ap, mpre, mrec) ->
  (forall i j, (i <= j)%nat -> (j < length mpre)%nat ->
     nth j mpre 0 <= nth i mpre 0) /\
  (StronglySorted Qle recall -> List.Forall (fun r => 0 <= r) recall ->
   forall i j, (i < length mrec)%nat -> (j < length mrec)%nat ->
     nth i mrec 0 < nth j mrec 0 -> nth j mpre 0 <= nth i mpre 0).
Proof.
  intros H.
  destruct (compute_ap_Ok _ _ _ _ _ H) as [r_last [Hlast [Hmrec [Hmpre Hlen]]]].
  assert (Hidx : forall i j, (i <= j)%nat -> (j < length mpre)%nat ->
                   nth j mpre 0 <= nth i mpre 0).
  { subst mpre. intros i j. apply envelope_nth_le. }
  split; [exact Hidx|].
  intros Hs Hpos i j Hi Hj Hlt.
  apply Hidx; [|lia].
  destruct (Nat.le_gt_cases i j) as [Hij|Hji]; [exact Hij|].
  exfalso. apply (Qlt_not_le _ _ Hlt).
  pose proof (mrec_sorted _ _ Hs Hpos Hlast) as Hsorted.
  rewrite <- Hmrec in Hsorted.
  apply (StronglySorted_nth_lt Qle mrec 0 Hsorted); lia.
Qed.

(** Witness for C5 (amended): the recall curve [0.5; 1] with precision
    [1; 0.5]. *)
Lemma compute_ap_envelope_monotone_witness :
  exists ap mpre mrec,
    AP.compute_ap [1 # 2; 1] [1; 1 # 2] = Ok (ap, mpre, mrec) /\
    (forall i j, (i <= j)%nat -> (j < length mpre)%nat ->
       nth j mpre 0 <= nth i mpre 0).
Proof.
  destruct (compute_ap_returns [1 # 2; 1] [1; 1 # 2]) as [[[ap mpre] mrec] H].
  - discriminate.
  - reflexivity.
  - exists ap, mpre, mrec. split; [exact H|].
    exact (proj1 (compute_ap_envelope_monotone _ _ _ _ _ H)).
Defined.

(** C5, the claim as worded, fails: for recall [0.5] and precision [0.5]
    the returned arrays are mrec = [0; 0.5; 0.51] and mpre = [1; 0.5; 0];
    the point at index 0 has the lower recall and the strictly larger
    precision. *)
Lemma compute_ap_envelope_counterexample :
  ~ (forall ap mpre mrec,
       AP.compute_ap [1 # 2] [1 # 2] = Ok (ap, mpre, mrec) ->
       forall i j, (i < length mpre)%nat -> (j < length mpre)%nat ->
         nth i mrec 0 < nth j mrec 0 -> nth i mpre 0 <= nth j mpre 0).
Proof.
  intros Hclaim.
  destruct (compute_ap_returns [1 # 2] [1 # 2]) as [[[ap mpre] mrec] H];
    [discriminate | reflexivity |].
  specialize (Hclaim ap mpre mrec H 0%nat 2%nat).
  destruct (compute_ap_Ok _ _ _ _ _ H) as [r_last [Hlast [Hmrec [Hmpre _]]]].
  simpl in Hlast. inversion Hlast; subst r_last. subst mpre mrec.
  vm_compute in Hclaim.
  apply Hclaim; try reflexivity; repeat constructor.
Qed.

(** C7.  For a non-empty recall array and a precision array whose values
    are at most 1, [compute_ap] returns whenever the two arrays have one
    length, and the envelope it returns is 1 at its first point (the
    recall-0 sentinel) and 0 at its last point (the sentinel at
    [recall[-1] + 0.01]). *)
Theorem compute_ap_sentinels (recall precision : list Q) :
  recall <> [] ->
  List.Forall (fun p => p <= 1) precision ->
  (length precision = length recall ->
   returns (AP.compute_ap recall precision)) /\
  (forall ap mpre mrec,
     AP.compute_ap recall precision = Ok (ap, mpre, mrec) ->
     nth 0 mpre 0 == 1 /\ last mpre 1 = 0 /\
     nth 0 mrec 1 = 0 /\ last mrec 0 = last recall 0 + (1 # 100) /\
     length mpre = (length precision + 2)%nat).
Proof.
  intros Hne Hall. split; [apply compute_ap_returns; exact Hne|].
  intros ap mpre mrec H.
  destruct (compute_ap_Ok _ _ _ _ _ H) as [r_last [Hlast [Hmrec [Hmpre _]]]].
  destruct (envelope_padded precision) as [m [body [Henv [Hbody Hm]]]].
  rewrite Henv in Hmpre. subst mpre mrec.
  destruct (last_item_Ok _ _ Hlast) as [_ Hl].
  repeat split.
  - simpl. apply Q.max_r. apply Hm. exact Hall.
  - change (Qmax m 1 :: body ++ [0]) with ((Qmax m 1 :: body) ++ [0]).
    apply last_last.
  - change ([0] ++ recall ++ [r_last + (1 # 100)])
      with ((0 :: recall) ++ [r_last + (1 # 100)]).
    rewrite last_last. now rewrite Hl.
  - simpl. rewrite length_app. simpl. lia.
Qed.

(** Witness for C7: recall [0.5; 1], precision [1; 0.5]. *)
Lemma compute_ap_sentinels_witness :
  returns (AP.compute_ap [1 # 2; 1] [1; 1 # 2]) /\
  (forall ap mpre mrec,
     AP.compute_ap [1 # 2; 1] [1; 1 # 2] = Ok (ap, mpre, mrec) ->
     nth 0 mpre 0 == 1 /\ last mpre 1 = 0).
Proof.
  assert (Hne : [1 # 2; 1] <> @nil Q) by discriminate.
  assert (Hall : List.Forall (fun p => p <= 1) [1; 1 # 2]).
  { repeat constructor; discriminate. }
  pose proof (compute_ap_sentinels [1 # 2; 1] [1; 1 # 2] Hne Hall) as [Hret Hends].
  split; [apply Hret; reflexivity|].
  intros ap mpre mrec H.
  destruct (Hends ap mpre mrec H) as [H1 [H2 _]]. split; assumption.
Defined.

End APFacts.

(** ** The matcher *)

Module MatcherFacts.

Local Open Scope Q_scope.

Lemma In_combine_seq {A : Type} (l : list A) :
  forall s i x,
    In (i, x) (combine (seq s (length l)) l) <->
    (s <= i)%nat /\ nth_error l (i - s) = Some x.
Proof.
  induction l as [|a l IH]; intros s i x; simpl.
  - split; [tauto|]. intros [_ H]. destruct (i - s)%nat; discriminate.
  - rewrite IH. split.
    + intros [H|[Hle H]].
      * inversion H; subst. rewrite Nat.sub_diag. split; [lia | reflexivity].
      * split; [lia|]. replace (i - s)%nat with (S (i - S s)) by lia. exact H.
    + intros [Hle H]. destruct (Nat.eq_dec s i) as [->|Hne].
      * rewrite Nat.sub_diag in H. simpl in H. inversion H; subst. now left.
      * right. split; [lia|].
        replace (i - s)%nat with (S (i - S s)) in H by lia. exact H.
Qed.

Lemma In_enumerate {A : Type} (l : list A) (i : nat) (x : A) :
  In (i, x) (Py.enumerate l) <-> nth_error l i = Some x.
Proof.
  unfold Py.enumerate. rewrite In_combine_seq, Nat.sub_0_r.
  split; [tauto | intros H; split; [lia | exact H]].
Qed.

Lemma enumerate_length {A : Type} (l : list A) :
  length (Py.enumerate l) = length l.
Proof.
  unfold Py.enumerate. rewrite length_combine, length_seq. lia.
Qed.

(** The candidate rows are exactly the entries of the IoU matrix that are
    strictly above the threshold. *)
Lemma In_row_candidates (thres : Q) (i : nat) (row : list Q) (m : match_row) :
  In m (Matcher.row_candidates thres i row) <->
  Matcher.m_label m = i /\
  nth_error row (Matcher.m_det m) = Some (Matcher.m_iou m) /\
  thres < Matcher.m_iou m.
Proof.
  unfold Matcher.row_candidates. rewrite in_flat_map. split.
  - intros [[j v] [Hin Hm]]. simpl in Hm.
    destruct (Py.Qgt_bool v thres) eqn:E; [|contradiction].
    destruct Hm as [<-|[]]. apply In_enumerate in Hin.
    apply Qgt_bool_iff in E. simpl. auto.
  - destruct m as [[i' j] v].
    unfold Matcher.m_label, Matcher.m_det, Matcher.m_iou. simpl.
    intros [-> [Hnth Hlt]].
    exists (j, v). split; [now apply In_enumerate|].
    simpl. apply Qgt_bool_iff in Hlt. rewrite Hlt. now left.
Qed.

Lemma In_candidates (iou : tensor) (thres : Q) (m : match_row) :
  In m (Matcher.candidates iou thres) <->
  exists row, nth_error iou (Matcher.m_label m) = Some row /\
              nth_error row (Matcher.m_det m) = Some (Matcher.m_iou m) /\
              thres < Matcher.m_iou m.
Proof.
  unfold Matcher.candidates. rewrite in_flat_map. split.
  - intros [[i row] [Hin Hm]]. simpl in Hm.
    apply In_row_candidates in Hm. destruct Hm as [Hi [Hj Hlt]].
    apply In_enumerate in Hin. exists row. subst i. auto.
  - intros [row [Hi [Hj Hlt]]]. exists (Matcher.m_label m, row).
    split; [now apply In_enumerate|].
    simpl. apply In_row_candidates. auto.
Qed.

(** Sorting and de-duplicating only drop or reorder rows. *)
Lemma In_insert_by_iou (x m : match_row) (l : list match_row) :
  In m (Matcher.insert_by_iou x l) <-> m = x \/ In m l.
Proof.
  induction l as [|h l IH]; simpl.
  - intuition.
  - destruct (Qle_bool (Matcher.m_iou x) (Matcher.m_iou h)); simpl.
    + intuition.
    + rewrite IH. intuition.
Qed.

Lemma In_sort_by_iou (m : match_row) (l : list match_row) :
  In m (Matcher.sort_by_iou l) <-> In m l.
Proof.
  induction l as [|h l IH]; simpl; [tauto|].
  rewrite In_insert_by_iou, IH. intuition.
Qed.

Lemma In_by_descending_iou (m : match_row) (l : list match_row) :
  In m (Matcher.by_descending_iou l) <-> In m l.
Proof.
  unfold Matcher.by_descending_iou. rewrite <- in_rev. apply In_sort_by_iou.
Qed.

Lemma In_unique_first (key : match_row -> nat) (m : match_row) (l : list match_row) :
  In m (Matcher.unique_first key l) -> In m l.
Proof.
  unfold Matcher.unique_first. rewrite in_flat_map.
  intros [k [_ Hm]]. unfold Matcher.first_with in Hm.
  destruct (find (fun m0 => Nat.eqb (key m0) k) l) as [m'|] eqn:E; [|contradiction].
  destruct Hm as [<-|[]]. apply find_some in E. tauto.
Qed.

Lemma In_dedup (m : match_row) (l : list match_row) :
  In m (Matcher.dedup l) -> In m l.
Proof.
  unfold Matcher.dedup. destruct (Nat.ltb 1 (length l)); [|tauto].
  intros H.
  apply In_unique_first in H. apply (proj1 (In_by_descending_iou _ _)) in H.
  apply In_unique_first in H. apply (proj1 (In_by_descending_iou _ _)) in H.
  exact H.
Qed.

End MatcherFacts.

(** ** [ConfusionMatrix.process_batch] *)

Module ConfusionMatrixFacts.

Import ConfusionMatrix ConfusionMatrixTerms.

(** *** Counters *)

Lemma row_sum_insert (row : list Z) :
  forall j v x, nth_error row j = Some x ->
    row_sum (<[j := v]> row) = (row_sum row - x + v)%Z.
Proof.
  induction row as [|a row IH]; intros j v x H.
  - destruct j; discriminate.
  - destruct j as [|j]; simpl in *.
    + inversion H; subst. unfold row_sum. simpl. lia.
    + specialize (IH j v x H). unfold row_sum in *. simpl. lia.
Qed.

Lemma total_insert (m : list (list Z)) :
  forall i row row', nth_error m i = Some row ->
    total (<[i := row']> m) = (total m - row_sum row + row_sum row')%Z.
Proof.
  induction m as [|a m IH]; intros i row row' H.
  - destruct i; discriminate.
  - destruct i as [|i]; simpl in *.
    + inversion H; subst. unfold total. simpl. lia.
    + specialize (IH i row row' H). unfold total in *. simpl. lia.
Qed.

Lemma incr_total (m m' : list (list Z)) (r c : Z) :
  incr m r c = Ok m' -> total m' = (total m + 1)%Z.
Proof.
  unfold incr. intros H.
  apply rbind_Ok_inv in H. destruct H as [i [_ H]].
  destruct (nth_error m i) as [row|] eqn:Hrow; [|discriminate].
  apply rbind_Ok_inv in H. destruct H as [j [_ H]].
  destruct (nth_error row j) as [v|] eqn:Hv; [|discriminate].
  inversion H; subst.
  rewrite (total_insert _ _ _ _ Hrow), (row_sum_insert _ _ _ _ Hv). lia.
Qed.

(** A loop whose body adds [w a] to a measure of the state adds the sum of
    the weights. *)
Lemma for_each_measure {A S : Type} (mu : S -> Z) (w : A -> Z)
    (body : S -> A -> result S) :
  (forall s a s', body s a = Ok s' -> mu s' = (mu s + w a)%Z) ->
  forall l s s', Py.for_each body s l = Ok s' ->
    mu s' = (mu s + fold_right (fun a acc => w a + acc) 0 l)%Z.
Proof.
  intros Hbody. induction l as [|a l IH]; intros s s' H; simpl in H.
  - inversion H; subst. simpl. lia.
  - apply rbind_Ok_inv in H. destruct H as [s1 [H1 H2]].
    rewrite (IH _ _ H2), (Hbody _ _ _ H1). simpl. lia.
Qed.

Lemma sum_ones {A : Type} (l : list A) :
  fold_right (fun _ acc => 1 + acc)%Z 0%Z l = Z.of_nat (length l).
Proof.
  induction l as [|a l IH]; simpl length; [reflexivity|].
  simpl fold_right. rewrite IH. lia.
Qed.

Section Loops.

Variable self : t.

Lemma label_step_total (n : bool) (m0 m1 dcs : list Z)
    (mat mat' : list (list Z)) (igc : nat * Z) :
  label_step self n m0 m1 dcs mat igc = Ok mat' ->
  total mat' = (total mat + 1)%Z.
Proof.
  unfold label_step.
  destruct (n && Nat.eqb (Matcher.count_true (Matcher.eq_mask m0 (fst igc))) 1).
  - intros H. apply rbind_Ok_inv in H. destruct H as [l [_ H]].
    destruct l as [|dc [|? ?]]; try discriminate.
    exact (incr_total _ _ _ _ H).
  - apply incr_total.
Qed.

Lemma label_loop_total (n : bool) (m0 m1 dcs : list Z)
    (mat mat' : list (list Z)) (gts : list (nat * Z)) :
  Py.for_each (label_step self n m0 m1 dcs) mat gts = Ok mat' ->
  total mat' = (total mat + Z.of_nat (length gts))%Z.
Proof.
  intros H.
  rewrite (for_each_measure total (fun _ => 1%Z) _
             (fun s a s' => label_step_total n m0 m1 dcs s s' a) _ _ _ H).
  now rewrite sum_ones.
Qed.

(** The detection loop increments [matrix[dc, nc]] once for every
    detection whose index the test [not any(m1 == i)] lets through, and
    does nothing else. *)
Lemma detection_loop_filter (m1 : list Z) (idcs : list (nat * Z)) :
  forall mat,
    Py.for_each (detection_step self m1) mat idcs =
    Py.for_each (fun mat dc => incr mat dc (Z.of_nat (nc self))) mat
      (map snd (List.filter
                  (fun idc : nat * Z =>
                     negb (Matcher.any (Matcher.eq_mask m1 (fst idc))))
                  idcs)).
Proof.
  induction idcs as [|idc idcs IH]; intros mat; [reflexivity|].
  simpl. unfold detection_step at 1.
  destruct (negb (Matcher.any (Matcher.eq_mask m1 (fst idc)))); simpl.
  - destruct (incr mat (snd idc) (Z.of_nat (nc self))); simpl; [apply IH | reflexivity].
  - apply IH.
Qed.

Lemma bump_loop_total (dcs : list Z) :
  forall mat mat',
    Py.for_each (fun mat dc => incr mat dc (Z.of_nat (nc self))) mat dcs = Ok mat' ->
    total mat' = (total mat + Z.of_nat (length dcs))%Z.
Proof.
  intros mat mat' H.
  rewrite (for_each_measure total (fun _ => 1%Z) _
             (fun s a s' => incr_total s s' a (Z.of_nat (nc self))) _ _ _ H).
  now rewrite sum_ones.
Qed.

End Loops.

(** *** The 16-bit index columns *)

Lemma astype_int16_small (k : nat) :
  (Z.of_nat k < 32768)%Z -> Py.astype_int16 (Z.of_nat k) = Z.of_nat k.
Proof.
  intros H. unfold Py.astype_int16.
  rewrite Z.mod_small; lia.
Qed.

Lemma any_m1_claimed (matches : list match_row) (i : nat) :
  (Z.of_nat i < 32768)%Z ->
  List.Forall (fun m => (Z.of_nat (Matcher.m_det m) < 32768)%Z) matches ->
  Matcher.any (Matcher.eq_mask (Matcher.m1 matches) i) = claimed matches i.
Proof.
  intros Hi. unfold Matcher.any, Matcher.eq_mask, Matcher.m1, claimed.
  induction 1 as [|m l Hm Hl IH]; [reflexivity|].
  simpl. rewrite IH. f_equal.
  rewrite (astype_int16_small _ Hm).
  destruct (Nat.eqb (Matcher.m_det m) i) eqn:E.
  - apply Nat.eqb_eq in E. subst. apply Z.eqb_refl.
  - apply Nat.eqb_neq in E. apply Z.eqb_neq. lia.
Qed.

Lemma filter_ext_In {A : Type} (f g : A -> bool) (l : list A) :
  (forall a, In a l -> f a = g a) -> List.filter f l = List.filter g l.
Proof.
  induction l as [|a l IH]; intros H; [reflexivity|].
  simpl. rewrite (H a (or_introl eq_refl)), IH; [reflexivity|].
  intros b Hb. apply H. now right.
Qed.

Lemma unclaimed_code (matches : list match_row) (dcs : list Z) :
  (Z.of_nat (length dcs) < 32768)%Z ->
  List.Forall (fun m => (Z.of_nat (Matcher.m_det m) < 32768)%Z) matches ->
  map snd (List.filter
             (fun idc : nat * Z =>
                negb (Matcher.any (Matcher.eq_mask (Matcher.m1 matches) (fst idc))))
             (Py.enumerate dcs)) =
  unclaimed matches dcs.
Proof.
  intros Hn Hm. unfold unclaimed. f_equal.
  apply filter_ext_In. intros [i dc] Hin. simpl.
  apply MatcherFacts.In_enumerate in Hin.
  assert (Hi : (i < length dcs)%nat).
  { apply nth_error_Some. congruence. }
  rewrite any_m1_claimed; [reflexivity | lia | exact Hm].
Qed.

(** *** Termination without error on well-formed input *)

Lemma norm_index_nonneg (n : nat) (k : Z) :
  (0 <= k < Z.of_nat n)%Z -> Py.norm_index n k = Ok (Z.to_nat k).
Proof.
  intros H. unfold Py.norm_index.
  destruct (Z.leb_spec 0 k); [|lia].
  destruct (Z.ltb_spec k (Z.of_nat n)); [|lia]. reflexivity.
Qed.

Lemma incr_returns (k : nat) (m : list (list Z)) (r c : Z) :
  square k m -> (0 <= r < Z.of_nat k)%Z -> (0 <= c < Z.of_nat k)%Z ->
  exists m', incr m r c = Ok m' /\ square k m'.
Proof.
  intros [Hlen Hrows] Hr Hc. unfold incr.
  rewrite Hlen, (norm_index_nonneg _ _ Hr). cbn [rbind].
  destruct (nth_error m (Z.to_nat r)) as [row|] eqn:Hrow.
  2:{ apply nth_error_None in Hrow. lia. }
  assert (Hrl : length row = k).
  { rewrite List.Forall_forall in Hrows. apply Hrows.
    eapply nth_error_In. exact Hrow. }
  rewrite Hrl, (norm_index_nonneg _ _ Hc). cbn [rbind].
  destruct (nth_error row (Z.to_nat c)) as [v|] eqn:Hv.
  2:{ apply nth_error_None in Hv. lia. }
  eexists. split; [reflexivity|]. split.
  - now rewrite length_insert.
  - apply Forall_insert; [exact Hrows|]. now rewrite length_insert.
Qed.

Lemma for_each_returns {A S : Type} (Inv : S -> Prop)
    (body : S -> A -> result S) (l : list A) :
  (forall s a, Inv s -> In a l -> exists s', body s a = Ok s' /\ Inv s') ->
  forall s, Inv s -> exists s', Py.for_each body s l = Ok s' /\ Inv s'.
Proof.
  induction l as [|a l IH]; intros Hbody s Hs; simpl.
  - exists s. split; [reflexivity | exact Hs].
  - destruct (Hbody s a Hs (or_introl eq_refl)) as [s1 [H1 Hs1]].
    rewrite H1. cbn [rbind]. apply IH; [|exact Hs1].
    intros s0 a0 Hs0 Hin. apply Hbody; [exact Hs0 | now right].
Qed.

Lemma select_In {A : Type} (mask : list bool) :
  forall (l : list A) (a : A), In a (Py.select mask l) -> In a l.
Proof.
  induction mask as [|b mask IH]; intros l a H; [contradiction|].
  destruct l as [|x l]; [contradiction|]. simpl in H.
  destruct b.
  - destruct H as [<-|H]; [now left | right; now apply IH].
  - right. now apply IH.
Qed.

Lemma select_length {A : Type} (mask : list bool) :
  forall (l : list A), length mask = length l ->
    length (Py.select mask l) = Matcher.count_true mask.
Proof.
  unfold Matcher.count_true.
  induction mask as [|b mask IH]; intros l H; [reflexivity|].
  destruct l as [|x l]; [discriminate|]. simpl in *.
  destruct b; simpl; rewrite IH; auto.
Qed.

Lemma index_nonneg {A : Type} (l : list A) (k : Z) :
  (0 <= k < Z.of_nat (length l))%Z ->
  exists a, Py.index l k = Ok a /\ In a l.
Proof.
  intros H. unfold Py.index. rewrite (norm_index_nonneg _ _ H). cbn [rbind].
  destruct (nth_error l (Z.to_nat k)) as [a|] eqn:E.
  - exists a. split; [reflexivity|]. eapply nth_error_In. exact E.
  - apply nth_error_None in E. lia.
Qed.

Section Returns.

Variable self : t.
Hypothesis Hsquare : square (nc self + 1) (matrix self).

Lemma label_step_returns (n : bool) (matches : list match_row)
    (dcs : list Z) (mat : list (list Z)) (igc : nat * Z) :
  List.Forall (fun m => (Z.of_nat (Matcher.m_det m) < 32768)%Z /\
                        (Matcher.m_det m < length dcs)%nat) matches ->
  List.Forall (class_below (nc self)) dcs ->
  class_below (nc self) (snd igc) ->
  square (nc self + 1) mat ->
  exists mat',
    label_step self n (Matcher.m0 matches) (Matcher.m1 matches) dcs mat igc = Ok mat' /\
    square (nc self + 1) mat'.
Proof.
  intros Hm Hdcs Hgc Hmat. unfold label_step, class_below in *.
  destruct (n && Nat.eqb (Matcher.count_true
                            (Matcher.eq_mask (Matcher.m0 matches) (fst igc))) 1) eqn:E.
  - apply andb_true_iff in E. destruct E as [_ E]. apply Nat.eqb_eq in E.
    set (j := Matcher.eq_mask (Matcher.m0 matches) (fst igc)) in *.
    assert (Hlen : length (Py.select j (Matcher.m1 matches)) = 1%nat).
    { rewrite select_length; [exact E|].
      unfold j, Matcher.eq_mask, Matcher.m0, Matcher.m1.
      now rewrite !length_map. }
    destruct (Py.select j (Matcher.m1 matches)) as [|k [|? ?]] eqn:Hsel;
      try discriminate.
    assert (Hk : In k (Matcher.m1 matches)).
    { apply (select_In j). rewrite Hsel. now left. }
    unfold Matcher.m1 in Hk. apply in_map_iff in Hk.
    destruct Hk as [m [Hkm Hin]].
    rewrite List.Forall_forall in Hm. destruct (Hm m Hin) as [H16 Hlt].
    rewrite (astype_int16_small _ H16) in Hkm. subst k.
    destruct (index_nonneg dcs (Z.of_nat (Matcher.m_det m))) as [dc [Hidx Hdc]];
      [lia|].
    simpl. rewrite Hidx. cbn [rbind].
    rewrite List.Forall_forall in Hdcs. specialize (Hdcs dc Hdc).
    apply (incr_returns (nc self + 1)); [exact Hmat | lia | lia].
  - apply (incr_returns (nc self + 1)); [exact Hmat | lia | lia].
Qed.

Lemma detection_step_returns (m1 : list Z) (mat : list (list Z)) (idc : nat * Z) :
  class_below (nc self) (snd idc) ->
  square (nc self + 1) mat ->
  exists mat', detection_step self m1 mat idc = Ok mat' /\ square (nc self + 1) mat'.
Proof.
  intros Hdc Hmat. unfold detection_step, class_below in *.
  destruct (negb (Matcher.any (Matcher.eq_mask m1 (fst idc)))).
  - apply (incr_returns (nc self + 1)); [exact Hmat | lia | lia].
  - exists mat. split; [reflexivity | exact Hmat].
Qed.

End Returns.

Lemma In_enumerate_snd {A : Type} (l : list A) (ia : nat * A) :
  In ia (Py.enumerate l) -> In (snd ia) l.
Proof.
  destruct ia as [i a]. intros H. apply MatcherFacts.In_enumerate in H.
  eapply nth_error_In. exact H.
Qed.

Section Batch.

Variable box_iou : tensor -> tensor -> tensor.

Lemma In_matches_of (self : t) (detections labels : tensor) (m : match_row) :
  In m (matches_of box_iou self detections labels) ->
  In m (Matcher.candidates
          (box_iou (Tensor.cols_from 1 labels) (Tensor.cols_to 4 detections))
          (iou_thres self)).
Proof.
  unfold matches_of.
  destruct (Nat.ltb 0 (length (Matcher.candidates _ _))); [|contradiction].
  apply MatcherFacts.In_dedup.
Qed.

Lemma matches_det_bound (self : t) (detections labels : tensor) :
  List.Forall (fun row => length row = length detections)
    (box_iou (Tensor.cols_from 1 labels) (Tensor.cols_to 4 detections)) ->
  List.Forall (fun m => (Matcher.m_det m < length detections)%nat)
    (matches_of box_iou self detections labels).
Proof.
  intros Hshape. apply List.Forall_forall. intros m Hm.
  apply In_matches_of, MatcherFacts.In_candidates in Hm.
  destruct Hm as [row [Hrow [Hv _]]].
  rewrite List.Forall_forall in Hshape.
  rewrite <- (Hshape row (nth_error_In _ _ Hrow)).
  apply nth_error_Some. congruence.
Qed.

(** C6.  In [ConfusionMatrix.process_batch] every row of [matches] is an
    entry of the IoU matrix that is strictly greater than [iou_thres]; a
    pair whose IoU is equal to (or below) the threshold is in no row; and
    when no entry exceeds the threshold, [matches] is empty. *)
Theorem process_batch_matches_above_threshold
    (self : t) (detections labels : tensor) :
  let kept := kept_detections self detections in
  let iou := box_iou (Tensor.cols_from 1 labels) (Tensor.cols_to 4 kept) in
  let matches := matches_of box_iou self kept labels in
  (forall m, In m matches ->
     exists row, nth_error iou (Matcher.m_label m) = Some row /\
                 nth_error row (Matcher.m_det m) = Some (Matcher.m_iou m) /\
                 (iou_thres self < Matcher.m_iou m)%Q) /\
  (forall i j row v,
     nth_error iou i = Some row -> nth_error row j = Some v ->
     (v <= iou_thres self)%Q -> forall q, ~ In (i, j, q) matches) /\
  ((forall row v, In row iou -> In v row -> (v <= iou_thres self)%Q) ->
   matches = []).
Proof.
  intros kept iou matches.
  assert (H1 : forall m, In m matches ->
     exists row, nth_error iou (Matcher.m_label m) = Some row /\
                 nth_error row (Matcher.m_det m) = Some (Matcher.m_iou m) /\
                 (iou_thres self < Matcher.m_iou m)%Q).
  { intros m Hm. apply In_matches_of in Hm.
    now apply MatcherFacts.In_candidates in Hm. }
  split; [exact H1|]. split.
  - intros i j row v Hrow Hv Hle q Hin.
    destruct (H1 _ Hin) as [row' [Hrow' [Hv' Hlt]]].
    unfold Matcher.m_label, Matcher.m_det, Matcher.m_iou in *. simpl in *.
    rewrite Hrow in Hrow'. inversion Hrow'; subst row'.
    rewrite Hv in Hv'. inversion Hv'; subst q.
    exact (Qlt_not_le _ _ Hlt Hle).
  - intros Hall. destruct matches as [|m ms] eqn:E; [reflexivity|].
    exfalso. destruct (H1 m (or_introl eq_refl)) as [row [Hrow [Hv Hlt]]].
    apply (Qlt_not_le _ _ Hlt).
    apply (Hall row); eapply nth_error_In; eassumption.
Qed.

(** C2 (as amended).  On a batch whose IoU matrix has one column per kept
    detection (fewer than [2^15] of them), a returning call of
    [process_batch] adds one count per ground-truth label and then, only
    when at least one match survived, one count at
    [matrix[predicted_class][nc]] per kept detection that no match claims;
    when no match survived the detections are not visited.  The call does
    return when the matrix is square of side [nc + 1] and all class ids
    are below [nc]. *)
Theorem process_batch_total_added
    (self : t) (detections labels : tensor) :
  let kept := kept_detections self detections in
  let gt_classes := map Py.int (Tensor.col 0 labels) in
  let detection_classes := map Py.int (Tensor.col 5 kept) in
  let iou := box_iou (Tensor.cols_from 1 labels) (Tensor.cols_to 4 kept) in
  let matches := matches_of box_iou self kept labels in
  let n := Nat.ltb 0 (length matches) in
  (Z.of_nat (length kept) < 32768)%Z ->
  List.Forall (fun row => length row = length kept) iou ->
  (square (nc self + 1) (matrix self) ->
   List.Forall (class_below (nc self)) gt_classes ->
   List.Forall (class_below (nc self)) detection_classes ->
   returns (process_batch box_iou self detections labels)) /\
  (forall cm', process_batch box_iou self detections labels = Ok cm' ->
     exists mat,
       total mat = (total (matrix self) + Z.of_nat (length labels))%Z /\
       (if n then Py.for_each (fun mat dc => incr mat dc (Z.of_nat (nc self)))
                              mat (unclaimed matches detection_classes)
        else Ok mat) = Ok (matrix cm') /\
       total (matrix cm') =
         (total (matrix self) + Z.of_nat (length labels) +
          (if n then Z.of_nat (length (unclaimed matches detection_classes))
           else 0))%Z).
Proof.
  intros kept gt_classes detection_classes iou matches n Hsmall Hshape.
  assert (Hdcs_len : length detection_classes = length kept).
  { unfold detection_classes, Tensor.col. now rewrite !length_map. }
  assert (Hgt_len : length gt_classes = length labels).
  { unfold gt_classes, Tensor.col. now rewrite !length_map. }
  pose proof (matches_det_bound self kept labels Hshape) as Hbound.
  fold matches in Hbound.
  assert (H16 : List.Forall
                  (fun m => (Z.of_nat (Matcher.m_det m) < 32768)%Z) matches).
  { eapply List.Forall_impl; [|exact Hbound]. simpl. intros m Hm. lia. }
  split.
  - intros Hsq Hgt Hdc. unfold returns, process_batch.
    fold kept. fold gt_classes. fold detection_classes. fold matches. fold n.
    destruct (for_each_returns (square (nc self + 1))
                (label_step self n (Matcher.m0 matches) (Matcher.m1 matches)
                   detection_classes)
                (Py.enumerate gt_classes)) with (s := matrix self)
      as [mat [Hmat Hsq']].
    + intros s a Hs Ha. apply label_step_returns; try assumption.
      * rewrite List.Forall_forall in *. intros m Hm. split.
        -- apply H16, Hm.
        -- rewrite Hdcs_len. apply Hbound, Hm.
      * rewrite List.Forall_forall in Hgt. apply Hgt.
        now apply In_enumerate_snd.
    + exact Hsq.
    + rewrite Hmat. cbn [rbind]. destruct n.
      * destruct (for_each_returns (square (nc self + 1))
                    (detection_step self (Matcher.m1 matches))
                    (Py.enumerate detection_classes)) with (s := mat)
          as [mat2 [Hmat2 _]].
        -- intros s a Hs Ha. apply detection_step_returns; try assumption.
           rewrite List.Forall_forall in Hdc. apply Hdc.
           now apply In_enumerate_snd.
        -- exact Hsq'.
        -- rewrite Hmat2. cbn [rbind]. eexists. reflexivity.
      * cbn [rbind]. eexists. reflexivity.
  - intros cm' H. unfold process_batch in H.
    fold kept in H. fold gt_classes in H. fold detection_classes in H.
    fold matches in H. fold n in H.
    apply rbind_Ok_inv in H. destruct H as [mat [Hlab H]].
    apply rbind_Ok_inv in H. destruct H as [mat2 [Hdet H]].
    inversion H; subst cm'. simpl matrix.
    exists mat.
    pose proof (label_loop_total self _ _ _ _ _ _ _ Hlab) as Htot.
    rewrite MatcherFacts.enumerate_length, Hgt_len in Htot.
    split; [exact Htot|].
    destruct n.
    + rewrite detection_loop_filter in Hdet.
      rewrite unclaimed_code in Hdet; [|lia|exact H16].
      split; [exact Hdet|].
      rewrite (bump_loop_total self _ _ _ Hdet). lia.
    + inversion Hdet; subst mat2. split; [reflexivity | lia].
Qed.

End Batch.

(** Witness for C6: a label box of 20 x 9 inside a detection box of
    20 x 20 has IoU exactly 0.45, the default threshold, and is not
    matched. *)
Lemma process_batch_matches_above_threshold_witness :
  ~ In (0%nat, 0%nat, 9 # 20)
       (matches_of General.box_iou (default 1)
          (kept_detections (default 1) [[0; 0; 20; 20; 9 # 10; 0]])
          [[0; 0; 0; 20; 9]])%Q.
Proof.
  pose proof (process_batch_matches_above_threshold General.box_iou (default 1)
                [[0; 0; 20; 20; 9 # 10; 0]] [[0; 0; 0; 20; 9]])%Q as H.
  cbv zeta in H. destruct H as [_ [H _]].
  apply (H 0%nat 0%nat [9 # 20] (9 # 20))%Q.
  - reflexivity.
  - reflexivity.
  - discriminate.
Defined.

(** Witness for C2 (amended): two labels, three kept detections, two
    matches and one unclaimed detection; three counts are added. *)
Lemma process_batch_total_added_witness :
  exists cm',
    process_batch General.box_iou (default 2)
      [[10; 10; 50; 50; 9 # 10; 0]; [10; 10; 50; 48; 8 # 10; 1];
       [200; 200; 210; 210; 9 # 10; 1]]%Q
      [[0; 10; 10; 50; 50]; [1; 10; 10; 50; 49]]%Q = Ok cm' /\
    total (matrix cm') = 3%Z.
Proof.
  pose proof (process_batch_total_added General.box_iou (default 2)
      [[10; 10; 50; 50; 9 # 10; 0]; [10; 10; 50; 48; 8 # 10; 1];
       [200; 200; 210; 210; 9 # 10; 1]]%Q
      [[0; 10; 10; 50; 50]; [1; 10; 10; 50; 49]]%Q) as H.
  cbv zeta in H.
  destruct H as [Hret Hsum].
  - vm_compute. reflexivity.
  - vm_compute. repeat constructor.
  - destruct Hret as [cm' Hcm'].
    + vm_compute. repeat constructor.
    + vm_compute. repeat constructor; discriminate.
    + vm_compute. repeat constructor; discriminate.
    + exists cm'. split; [exact Hcm'|].
      destruct (Hsum cm' Hcm') as [mat [_ [_ Htot]]].
      rewrite Htot. vm_compute. reflexivity.
Defined.

(** C2, the claim as worded, fails when no candidate pair survives the
    IoU threshold: one label and one far-away detection above the
    confidence cutoff.  The label is counted as missed, the detection is
    claimed by no match and is unclaimed, yet [matrix[0][1]] stays 0 and
    the total grows by 1, not by 1 + 1. *)
Lemma process_batch_total_added_counterexample :
  let self := default 1 in
  let detections := [[100; 100; 150; 150; 9 # 10; 0]]%Q in
  let labels := [[0; 10; 10; 50; 50]]%Q in
  let kept := kept_detections self detections in
  let matches := matches_of General.box_iou self kept labels in
  exists cm',
    process_batch General.box_iou self detections labels = Ok cm' /\
    kept = detections /\ matches = [] /\
    unclaimed matches (map Py.int (Tensor.col 5 kept)) = [0%Z] /\
    matrix cm' = [[0; 0]; [1; 0]]%Z /\
    total (matrix cm') <>
      (total (matrix self) + Z.of_nat (length labels) +
       Z.of_nat (length (unclaimed matches (map Py.int (Tensor.col 5 kept)))))%Z.
Proof.
  cbv zeta. eexists. split; [vm_compute; reflexivity|].
  repeat split; try (vm_compute; reflexivity).
  vm_compute. discriminate.
Qed.

End ConfusionMatrixFacts.

(** ** [OD_AUCROC] *)

Module OD_AUCROCFacts.

Import OD_AUCROC OD_AUCROCTerms.

(** *** The heap *)

Lemma alloc_fresh (h : heap) (t : tensor) :
  h !! fst (Heap.alloc h t) = None.
Proof.
  unfold Heap.alloc. simpl. apply not_elem_of_dom. apply is_fresh.
Qed.

Lemma read_insert_eq (h : heap) (l : loc) (t : tensor) :
  Heap.read (<[l := t]> h) l = t.
Proof.
  unfold Heap.read. now rewrite lookup_insert_eq.
Qed.

Lemma read_insert_ne (h : heap) (l l' : loc) (t : tensor) :
  l <> l' -> Heap.read (<[l := t]> h) l' = Heap.read h l'.
Proof.
  intros Hne. unfold Heap.read. now rewrite lookup_insert_ne.
Qed.

Lemma write_col_insert_eq (h : heap) (l : loc) (t : tensor) (k : nat) (v : Q) :
  Heap.write_col (<[l := t]> h) l k v = <[l := Tensor.set_col k v t]> h.
Proof.
  unfold Heap.write_col. rewrite lookup_insert_eq. apply insert_insert_eq.
Qed.

Lemma write_col_insert_ne (h : heap) (l l' : loc) (t : tensor) (k : nat) (v : Q) :
  l <> l' ->
  Heap.write_col (<[l' := t]> h) l k v = <[l' := t]> (Heap.write_col h l k v).
Proof.
  intros Hne. unfold Heap.write_col.
  rewrite lookup_insert_ne by congruence.
  destruct (h !! l); [|reflexivity].
  apply insert_insert_ne. exact Hne.
Qed.

Section Heap.

Variable box_iou : tensor -> tensor -> tensor.

(** [process_batch] scores the relabelled copies and leaves behind a heap
    that extends the caller's: two new tensors, nothing else touched. *)
Lemma process_batch_heap (self : t) (detections labels : loc) (h : heap) :
  exists (md ml : loc) (h' : heap),
    h !! md = None /\ h !! ml = None /\ md <> ml /\
    h' = <[ml := mal_labels_of self (Heap.read h labels)]>
           (<[md := mal_detections_of self (Heap.read h detections)]> h) /\
    process_batch box_iou self detections labels h =
      (try! self' := update_image box_iou self
                       (mal_detections_of self (Heap.read h detections))
                       (mal_labels_of self (Heap.read h labels)) in
       Ok (self', h')).
Proof.
  unfold process_batch, mal_detections_of, mal_labels_of.
  set (sd := Py.select _ (Heap.read h detections)).
  set (sl := Py.select _ (Heap.read h labels)).
  unfold Heap.alloc.
  set (md := fresh (dom h)).
  set (ml := fresh (dom (<[md := sd]> h))).
  assert (Hmd : h !! md = None) by (apply not_elem_of_dom, is_fresh).
  assert (Hml1 : <[md := sd]> h !! ml = None) by (apply not_elem_of_dom, is_fresh).
  assert (Hne : md <> ml).
  { intros E. rewrite <- E, lookup_insert_eq in Hml1. discriminate. }
  assert (Hml : h !! ml = None).
  { rewrite lookup_insert_ne in Hml1 by exact Hne. exact Hml1. }
  exists md, ml,
    (<[ml := Tensor.set_col 0 0%Q sl]> (<[md := Tensor.set_col 5 0%Q sd]> h)).
  repeat split; try assumption.
  rewrite (write_col_insert_ne _ md ml) by exact Hne.
  rewrite write_col_insert_eq.
  rewrite write_col_insert_eq.
  rewrite (read_insert_ne _ ml md) by congruence.
  rewrite !read_insert_eq.
  reflexivity.
Qed.

(** C10.  [process_batch] leaves the caller's tensors as they were: the
    heap after a returning call holds every tensor of the heap before it
    with its original value, in particular [detections] and [labels]; the
    zeros written into the class columns went to two newly allocated
    copies. *)
Theorem process_batch_preserves_inputs
    (self self' : t) (detections labels : loc) (h h' : heap) (d l : tensor) :
  h !! detections = Some d ->
  h !! labels = Some l ->
  process_batch box_iou self detections labels h = Ok (self', h') ->
  h' !! detections = Some d /\
  h' !! labels = Some l /\
  (forall x t, h !! x = Some t -> h' !! x = Some t) /\
  (exists md ml,
     h !! md = None /\ h !! ml = None /\
     h' !! md = Some (mal_detections_of self d) /\
     h' !! ml = Some (mal_labels_of self l)).
Proof.
  intros Hd Hl H.
  destruct (process_batch_heap self detections labels h)
    as [md [ml [h2 [Hmd [Hml [Hne [Hh2 Heq]]]]]]].
  rewrite Heq in H. apply rbind_Ok_inv in H. destruct H as [s [_ H]].
  inversion H; subst self' h'. clear H.
  assert (Hrd : Heap.read h detections = d) by (unfold Heap.read; now rewrite Hd).
  assert (Hrl : Heap.read h labels = l) by (unfold Heap.read; now rewrite Hl).
  rewrite Hrd, Hrl in Hh2.
  assert (Hframe : forall x t, h !! x = Some t -> h2 !! x = Some t).
  { intros x t Hx. subst h2.
    rewrite !lookup_insert_ne by congruence. exact Hx. }
  split; [now apply Hframe|]. split; [now apply Hframe|].
  split; [exact Hframe|].
  exists md, ml. subst h2. repeat split; try assumption.
  - rewrite lookup_insert_ne by congruence. apply lookup_insert_eq.
  - apply lookup_insert_eq.
Qed.

End Heap.

(** *** Scoring one image *)

Lemma max0_nonempty (t : list Q) :
  t <> [] -> exists mx, Torch.max0 t = Ok mx.
Proof.
  destruct t as [|x r]; [congruence|]. intros _. eexists. reflexivity.
Qed.

Lemma gather_returns {A : Type} (l : list A) (idx : list Z) :
  List.Forall (fun k => (0 <= k < Z.of_nat (length l))%Z) idx ->
  exists r, Py.gather l idx = Ok r /\ length r = length idx.
Proof.
  induction 1 as [|k idx Hk Hidx IH]; simpl.
  - exists []. split; reflexivity.
  - destruct (ConfusionMatrixFacts.index_nonneg l k Hk) as [a [Ha _]].
    destruct IH as [r [Hr Hlen]].
    rewrite Ha. cbn [rbind]. rewrite Hr. cbn [rbind].
    exists (a :: r). split; [reflexivity | simpl; now rewrite Hlen].
Qed.

Lemma lesion_step_adds_one (n : bool) (m0 m1 dcs : list Z) (probs : list Q)
    (st st' : roc_state * Q) (igc : nat * Z) :
  lesion_step n m0 m1 dcs probs st igc = Ok st' ->
  Z.of_nat (length (fst st')) = (Z.of_nat (length (fst st)) + 1)%Z.
Proof.
  assert (Hupd : forall roc p tg,
             Z.of_nat (length (update roc p tg)) = (Z.of_nat (length roc) + 1)%Z).
  { intros. unfold update. rewrite length_app. simpl. lia. }
  unfold lesion_step.
  destruct (n && Nat.ltb 0 (Matcher.count_true (Matcher.eq_mask m0 (fst igc)))).
  - intros H. apply rbind_Ok_inv in H. destruct H as [ds [_ H]].
    destruct (existsb (fun dc => Z.eqb dc (snd igc)) ds).
    + apply rbind_Ok_inv in H. destruct H as [ps [_ H]].
      inversion H; subst st'. apply Hupd.
    + inversion H; subst st'. apply Hupd.
  - intros H. inversion H; subst st'. apply Hupd.
Qed.

Lemma lesion_step_returns (n : bool) (matches : list match_row)
    (dcs : list Z) (probs : list Q) (st : roc_state * Q) (igc : nat * Z) :
  length probs = length dcs ->
  List.Forall (fun m => (Z.of_nat (Matcher.m_det m) < 32768)%Z /\
                        (Matcher.m_det m < length dcs)%nat) matches ->
  exists st',
    lesion_step n (Matcher.m0 matches) (Matcher.m1 matches) dcs probs st igc = Ok st'.
Proof.
  intros Hlen Hm. unfold lesion_step.
  set (j := Matcher.eq_mask (Matcher.m0 matches) (fst igc)).
  assert (Hidx : forall (A : Type) (l : list A), length l = length dcs ->
            List.Forall (fun k => (0 <= k < Z.of_nat (length l))%Z)
                        (Py.select j (Matcher.m1 matches))).
  { intros A l Hl. apply List.Forall_forall. intros k Hk.
    apply ConfusionMatrixFacts.select_In in Hk.
    unfold Matcher.m1 in Hk. apply in_map_iff in Hk.
    destruct Hk as [m [Hkm Hin]].
    rewrite List.Forall_forall in Hm. destruct (Hm m Hin) as [H16 Hlt].
    rewrite (ConfusionMatrixFacts.astype_int16_small _ H16) in Hkm.
    subst k. rewrite Hl. lia. }
  destruct (n && Nat.ltb 0 (Matcher.count_true j)); [|eexists; reflexivity].
  destruct (gather_returns dcs _ (Hidx Z dcs eq_refl)) as [ds [Hds _]].
  rewrite Hds. cbn [rbind].
  destruct (existsb (fun dc => Z.eqb dc (snd igc)) ds); [|eexists; reflexivity].
  destruct (gather_returns probs _ (Hidx Q probs Hlen)) as [ps [Hps _]].
  rewrite Hps. cbn [rbind]. eexists. reflexivity.
Qed.

Section Image.

Variable box_iou : tensor -> tensor -> tensor.

(** With the two-pass resolution commented out, [matches] is the list of
    candidates itself. *)
Lemma matches_of_candidates (self : t) (mal_d mal_l : tensor) :
  matches_of box_iou self mal_d mal_l =
  Matcher.candidates (box_iou (Tensor.cols_from 1 mal_l) (Tensor.cols_to 4 mal_d))
                     (iou_thres self).
Proof.
  unfold matches_of.
  destruct (Matcher.candidates _ _) as [|m ms]; reflexivity.
Qed.

(** An image with detections and labels: what [update_image] appends. *)
Lemma update_image_both (self self' : t) (mal_d mal_l : tensor) :
  mal_d <> [] -> mal_l <> [] ->
  update_image box_iou self mal_d mal_l = Ok self' ->
  length (roc_lesion self') = (length (roc_lesion self) + length mal_l)%nat /\
  length (roc_image self') = (length (roc_image self) + 1)%nat /\
  length (roc_image_noloc self') = (length (roc_image_noloc self) + 1)%nat /\
  markers_in_normal_image self' = markers_in_normal_image self.
Proof.
  intros Hd Hl. unfold update_image.
  destruct mal_d as [|d0 mal_d]; [congruence|].
  destruct mal_l as [|l0 mal_l]; [congruence|].
  cbn [length Nat.eqb]. intros H.
  apply rbind_Ok_inv in H. destruct H as [mx [_ H]].
  apply rbind_Ok_inv in H. destruct H as [st [Hloop H]].
  inversion H; subst self'. clear H. cbn [Nat.ltb Nat.leb].
  unfold set_rocs. cbn [roc_lesion roc_image roc_image_noloc markers_in_normal_image].
  pose proof (ConfusionMatrixFacts.for_each_measure
                (fun st : roc_state * Q => Z.of_nat (length (fst st)))
                (fun _ => 1%Z) _
                (fun s a s' => lesion_step_adds_one _ _ _ _ _ s s' a)
                _ _ _ Hloop) as Hcount.
  rewrite ConfusionMatrixFacts.sum_ones, MatcherFacts.enumerate_length in Hcount.
  unfold Tensor.col in Hcount. rewrite !length_map in Hcount.
  cbn [fst length] in Hcount.
  unfold update. rewrite !length_app. cbn [length].
  repeat split; try lia. 
Qed.

Lemma update_image_both_returns (self : t) (mal_d mal_l : tensor) :
  mal_d <> [] -> mal_l <> [] ->
  (Z.of_nat (length mal_d) < 32768)%Z ->
  List.Forall (fun row => length row = length mal_d)
    (box_iou (Tensor.cols_from 1 mal_l) (Tensor.cols_to 4 mal_d)) ->
  returns (update_image box_iou self mal_d mal_l).
Proof.
  intros Hd Hl Hsmall Hshape. unfold returns, update_image.
  destruct (max0_nonempty (Tensor.col 4 mal_d)) as [mx Hmx].
  { destruct mal_d; [congruence | discriminate]. }
  destruct mal_d as [|d0 mal_d'] eqn:Ed; [congruence|].
  destruct mal_l as [|l0 mal_l'] eqn:El; [congruence|].
  rewrite <- Ed, <- El in *.
  replace (Nat.eqb (length mal_d) 0) with false by (rewrite Ed; reflexivity).
  replace (Nat.eqb (length mal_l) 0) with false by (rewrite El; reflexivity).
  rewrite Hmx. cbn [rbind].
  set (dcs := map _ (Tensor.col 5 mal_d)).
  set (matches := matches_of box_iou self mal_d mal_l).
  assert (Hdcs : length dcs = length mal_d).
  { unfold dcs, Tensor.col. now rewrite !length_map. }
  assert (Hm : List.Forall
                 (fun m => (Z.of_nat (Matcher.m_det m) < 32768)%Z /\
                           (Matcher.m_det m < length dcs)%nat) matches).
  { apply List.Forall_forall. intros m Hin. unfold matches in Hin.
    rewrite matches_of_candidates in Hin.
    apply MatcherFacts.In_candidates in Hin.
    destruct Hin as [row [Hrow [Hv _]]].
    rewrite List.Forall_forall in Hshape.
    pose proof (Hshape row (nth_error_In _ _ Hrow)) as Hrl.
    assert (Matcher.m_det m < length row)%nat
      by (apply nth_error_Some; congruence).
    rewrite Hdcs. lia. }
  destruct (ConfusionMatrixFacts.for_each_returns (fun _ => True)
              (lesion_step (Nat.ltb 0 (length matches)) (Matcher.m0 matches)
                 (Matcher.m1 matches) dcs (Tensor.col 4 mal_d))
              (Py.enumerate
                 (map (fun c => (Py.int c + class_modifier self)%Z)
                      (Tensor.col 0 mal_l))))
    with (s := (roc_lesion self, 0%Q)) as [st [Hst _]].
  - intros s a _ _.
    destruct (lesion_step_returns (Nat.ltb 0 (length matches)) matches dcs
                (Tensor.col 4 mal_d) s a) as [st' Hst'].
    + unfold Tensor.col. rewrite Hdcs. now rewrite length_map.
    + exact Hm.
    + exists st'. split; [exact Hst' | exact I].
  - exact I.
  - rewrite Hst. cbn [rbind]. eexists. reflexivity.
Qed.

(** An image with detections and no labels: lines 260-265. *)
Lemma update_image_normal (self : t) (mal_d : tensor) :
  mal_d <> [] ->
  exists mx,
    Torch.max0 (Tensor.col 4 mal_d) = Ok mx /\
    update_image box_iou self mal_d [] =
      Ok (mk (update (roc_lesion self) [mx] [0%Q])
             (update (roc_image self) [mx] [0%Q])
             (update (roc_image_noloc self) [mx] [0%Q])
             (class_modifier self)
             (markers_in_normal_image self ++ [Tensor.col 4 mal_d])
             (nc self) (iou_thres self) (fm_img_ths self)
             (malignant_cls_th self)).
Proof.
  intros Hd.
  destruct (max0_nonempty (Tensor.col 4 mal_d)) as [mx Hmx].
  { destruct mal_d; [congruence | discriminate]. }
  exists mx. split; [exact Hmx|].
  unfold update_image. destruct mal_d as [|d0 mal_d]; [congruence|].
  cbn [length Nat.eqb]. rewrite Hmx. reflexivity.
Qed.

End Image.

(** *** The FROC transform *)

Lemma cat_nonempty (ts : list (list Q)) :
  ts <> [] -> Torch.cat ts = Ok (concat ts).
Proof.
  destruct ts; [congruence | reflexivity].
Qed.

Lemma true_divide_pos (c : Z) (n : nat) :
  n <> 0%nat -> Torch.true_divide c n = Fin (c # Pos.of_nat n).
Proof.
  destruct n; [congruence | reflexivity].
Qed.

Lemma froc_loop (self : t) (n : nat) (thresholds : list Q) :
  markers_in_normal_image self <> [] -> n <> 0%nat ->
  forall acc,
    Py.for_each (froc_step self n) acc thresholds =
    Ok (acc ++ map (fun th =>
                      Fin (Torch.count_gt (concat (markers_in_normal_image self)) th
                           # Pos.of_nat n))
                   thresholds).
Proof.
  intros Hm Hn. induction thresholds as [|th ths IH]; intros acc.
  - simpl. now rewrite app_nil_r.
  - cbn [Py.for_each]. unfold froc_step at 1.
    rewrite (cat_nonempty _ Hm). cbn [rbind].
    rewrite (true_divide_pos _ _ Hn). rewrite IH.
    rewrite <- app_assoc. reflexivity.
Qed.

Lemma froc_curve_value (self : t) (tpr thresholds : list Q) :
  markers_in_normal_image self <> [] -> thresholds <> [] ->
  froc_curve self tpr thresholds =
  Ok (tpr, map (fun th =>
                  Fin (Torch.count_gt (concat (markers_in_normal_image self)) th
                       # Pos.of_nat (length (markers_in_normal_image self))))
               thresholds).
Proof.
  intros Hm Ht. unfold froc_curve.
  rewrite (froc_loop self _ thresholds Hm).
  - cbn [rbind app]. destruct thresholds as [|th ths]; [congruence|]. reflexivity.
  - destruct (markers_in_normal_image self); [congruence | discriminate].
Qed.

Lemma froc_curve_empty (self : t) (tpr thresholds : list Q) :
  markers_in_normal_image self = [] ->
  froc_curve self tpr thresholds = Raise RuntimeError.
Proof.
  intros Hm. unfold froc_curve.
  destruct thresholds as [|th ths]; simpl.
  - reflexivity.
  - unfold froc_step at 1. rewrite Hm. reflexivity.
Qed.

Lemma init_no_markers (n : nat) (iou fm : Q) (self : t) :
  init n iou fm = Ok self -> markers_in_normal_image self = [].
Proof.
  unfold init. intros H.
  destruct n as [|[|[|[|[|n]]]]]; try discriminate; inversion H; reflexivity.
Qed.

Lemma score_raises_without_markers
    (roc_compute : roc_state -> result (list Q * list Q * list Q))
    (auc : list tfloat -> list tfloat -> result tfloat) (self : t) :
  markers_in_normal_image self = [] -> raises (score roc_compute auc self).
Proof.
  intros Hm. unfold raises, score, level.
  destruct (roc_compute (roc_lesion self)) as [[[fpr tpr] ths]|e]; cbn [rbind].
  - rewrite (froc_curve_empty self tpr ths Hm). cbn [rbind].
    eexists. reflexivity.
  - eexists. reflexivity.
Qed.

(** C4 (as amended).  With no negative image recorded, [froc_curve] raises
    [RuntimeError] for every input ([torch.cat], or [torch.stack], of an
    empty list), before any division is made, and so [score] raises,
    whatever the ROC library returns; this is the case of a newly
    constructed engine.  With at least one negative image recorded and at
    least one threshold, [froc_curve] returns one finite value per
    threshold. *)
Theorem froc_curve_without_negative_images (self : t) :
  (markers_in_normal_image self = [] ->
   (forall tpr thresholds, froc_curve self tpr thresholds = Raise RuntimeError) /\
   (forall roc_compute auc, raises (score roc_compute auc self))) /\
  (forall n iou fm, init n iou fm = Ok self ->
   forall roc_compute auc, raises (score roc_compute auc self)) /\
  (markers_in_normal_image self <> [] ->
   forall tpr thresholds, thresholds <> [] ->
   exists fm_img,
     froc_curve self tpr thresholds = Ok (tpr, fm_img) /\
     length fm_img = length thresholds /\
     List.Forall (fun x => exists q, x = Fin q) fm_img).
Proof.
  split; [|split].
  - intros Hm. split.
    + intros tpr ths. now apply froc_curve_empty.
    + intros rc auc. now apply score_raises_without_markers.
  - intros n iou fm Hinit rc auc.
    apply score_raises_without_markers. eapply init_no_markers. exact Hinit.
  - intros Hm tpr ths Hths. eexists. split; [|split].
    + now apply froc_curve_value.
    + now rewrite length_map.
    + apply List.Forall_forall. intros x Hx. apply in_map_iff in Hx.
      destruct Hx as [th [<- _]]. eexists. reflexivity.
Qed.

(** Witness for C4 (amended): a new engine for one class. *)
Lemma froc_curve_without_negative_images_witness :
  exists self,
    init 1 (1 # 2) 1 = Ok self /\
    froc_curve self [0; 1]%Q [1; 0]%Q = Raise RuntimeError.
Proof.
  eexists. split; [reflexivity|].
  apply (proj1 (froc_curve_without_negative_images _)). reflexivity.
Defined.

(** C4, the claim as worded, fails: on a new engine the FROC computation
    does not return, it raises. *)
Lemma froc_curve_without_negative_images_counterexample :
  exists self,
    init 1 (1 # 2) 1 = Ok self /\
    markers_in_normal_image self = [] /\
    ~ returns (froc_curve self [0; 1]%Q [1; 0]%Q) /\
    ~ returns (froc_curve self [] []).
Proof.
  eexists. split; [reflexivity|]. split; [reflexivity|].
  split; intros [a Ha]; vm_compute in Ha; discriminate.
Qed.

(** *** The score credited to one label *)

Lemma select_paired (matches : list match_row) (i : nat) :
  (Z.of_nat i < 32768)%Z ->
  List.Forall (fun m => (Z.of_nat (Matcher.m_label m) < 32768)%Z) matches ->
  Py.select (Matcher.eq_mask (Matcher.m0 matches) i) (Matcher.m1 matches) =
    Matcher.m1 (paired matches i) /\
  Matcher.count_true (Matcher.eq_mask (Matcher.m0 matches) i) =
    length (paired matches i).
Proof.
  intros Hi. unfold Matcher.eq_mask, Matcher.m0, Matcher.m1, Matcher.count_true, paired.
  induction 1 as [|m ms Hm Hms [IH1 IH2]]; [split; reflexivity|].
  cbn [map Py.select List.filter].
  rewrite (ConfusionMatrixFacts.astype_int16_small _ Hm).
  destruct (Nat.eqb (Matcher.m_label m) i) eqn:E.
  - apply Nat.eqb_eq in E.
    replace (Z.eqb (Z.of_nat (Matcher.m_label m)) (Z.of_nat i)) with true
      by (symmetry; apply Z.eqb_eq; lia).
    cbn [map length List.filter]. rewrite IH1, IH2. split; reflexivity.
  - apply Nat.eqb_neq in E.
    replace (Z.eqb (Z.of_nat (Matcher.m_label m)) (Z.of_nat i)) with false
      by (symmetry; apply Z.eqb_neq; lia).
    cbn [List.filter]. split; assumption.
Qed.

Lemma index_of_nat {A : Type} (l : list A) (d : A) (k : nat) :
  (k < length l)%nat -> Py.index l (Z.of_nat k) = Ok (nth k l d).
Proof.
  intros Hk. unfold Py.index.
  rewrite ConfusionMatrixFacts.norm_index_nonneg by lia. cbn [rbind].
  rewrite Nat2Z.id. rewrite (nth_error_nth' l d Hk). reflexivity.
Qed.

Lemma gather_m1 {A : Type} (l : list A) (d : A) (ms : list match_row) :
  List.Forall (fun m => (Z.of_nat (Matcher.m_det m) < 32768)%Z /\
                        (Matcher.m_det m < length l)%nat) ms ->
  Py.gather l (Matcher.m1 ms) = Ok (map (fun m => nth (Matcher.m_det m) l d) ms).
Proof.
  unfold Matcher.m1.
  induction 1 as [|m ms [H16 Hlt] Hms IH]; [reflexivity|].
  cbn [map Py.gather].
  rewrite (ConfusionMatrixFacts.astype_int16_small _ H16).
  rewrite (index_of_nat l d _ Hlt). cbn [rbind]. rewrite IH. reflexivity.
Qed.

Lemma map_snd_combine_eq {A B : Type} (a : list A) :
  forall b : list B, length a = length b -> map snd (combine a b) = b.
Proof.
  induction a as [|x a IH]; intros [|y b] H; try discriminate; [reflexivity|].
  cbn [combine map snd]. rewrite IH; [reflexivity | now inversion H].
Qed.

Lemma best_fold (gc : Z) (dcps : list (Z * Q)) :
  List.Forall (fun dcp => fst dcp = gc) dcps ->
  forall b img,
    fst (fold_left (best_step gc) dcps (b, img)) =
    fold_left Qmax (map snd dcps) b.
Proof.
  induction 1 as [|dcp dcps Hd Hds IH]; intros b img; [reflexivity|].
  cbn [fold_left map]. unfold best_step at 2. cbn [fst snd].
  rewrite Hd, Z.eqb_refl. apply IH.
Qed.

Lemma lesion_step_value (matches : list match_row) (dcs : list Z)
    (probs : list Q) (st : roc_state * Q) (i : nat) (gc : Z) :
  (Z.of_nat i < 32768)%Z ->
  length probs = length dcs ->
  List.Forall (fun dc => dc = gc) dcs ->
  List.Forall (fun m => (Z.of_nat (Matcher.m_label m) < 32768)%Z /\
                        (Z.of_nat (Matcher.m_det m) < 32768)%Z /\
                        (Matcher.m_det m < length dcs)%nat) matches ->
  exists img,
    lesion_step (Nat.ltb 0 (length matches)) (Matcher.m0 matches)
      (Matcher.m1 matches) dcs probs st (i, gc) =
    Ok (update (fst st) [label_score matches probs i] [inject_Z gc], img).
Proof.
  intros Hi Hlen Hdcs Hm. unfold lesion_step, label_score. cbn [fst snd].
  assert (Hlab : List.Forall
                   (fun m => (Z.of_nat (Matcher.m_label m) < 32768)%Z) matches).
  { eapply List.Forall_impl; [|exact Hm]. simpl. tauto. }
  destruct (select_paired matches i Hi Hlab) as [Hsel Hcount].
  rewrite Hsel, Hcount.
  assert (Hp : List.Forall
                 (fun m => (Z.of_nat (Matcher.m_det m) < 32768)%Z /\
                           (Matcher.m_det m < length dcs)%nat) (paired matches i)).
  { apply List.Forall_forall. intros m Hin. unfold paired in Hin.
    apply filter_In in Hin. destruct Hin as [Hin _].
    rewrite List.Forall_forall in Hm. destruct (Hm m Hin) as [_ H]. exact H. }
  destruct (paired matches i) as [|m ms] eqn:Ep.
  - cbn [length Nat.ltb Nat.leb]. rewrite andb_false_r.
    eexists. reflexivity.
  - assert (Hn : Nat.ltb 0 (length matches) = true).
    { destruct matches; [discriminate Ep | reflexivity]. }
    rewrite Hn. cbn [length Nat.ltb Nat.leb andb].
    rewrite (gather_m1 dcs gc (m :: ms) Hp). cbn [rbind].
    assert (Hall : List.Forall (fun dc => dc = gc)
                     (map (fun m0 => nth (Matcher.m_det m0) dcs gc) (m :: ms))).
    { apply List.Forall_forall. intros dc Hdc. apply in_map_iff in Hdc.
      destruct Hdc as [m' [<- Hin]].
      rewrite List.Forall_forall in Hp, Hdcs.
      apply Hdcs. apply nth_In. apply (Hp m' Hin). }
    assert (Hex : existsb (fun dc => Z.eqb dc gc)
                    (map (fun m0 => nth (Matcher.m_det m0) dcs gc) (m :: ms)) = true).
    { cbn [map existsb]. inversion Hall as [|? ? H1 _]; subst.
      rewrite H1 at 1. rewrite Z.eqb_refl. reflexivity. }
    rewrite Hex.
    assert (Hp' : List.Forall
                    (fun m => (Z.of_nat (Matcher.m_det m) < 32768)%Z /\
                              (Matcher.m_det m < length probs)%nat) (m :: ms)).
    { rewrite Hlen. exact Hp. }
    rewrite (gather_m1 probs 0%Q (m :: ms) Hp'). cbn [rbind].
    eexists. f_equal. f_equal. f_equal. f_equal.
    rewrite best_fold.
    + rewrite map_snd_combine_eq; [reflexivity|]. now rewrite !length_map.
    + apply List.Forall_forall. intros [dc p] Hin.
      apply in_combine_l in Hin. simpl.
      rewrite List.Forall_forall in Hall. now apply Hall.
Qed.

Lemma lesion_loop_value (matches : list match_row) (dcs : list Z)
    (probs : list Q) (gc : Z) (k : nat) :
  length probs = length dcs ->
  List.Forall (fun dc => dc = gc) dcs ->
  List.Forall (fun m => (Z.of_nat (Matcher.m_label m) < 32768)%Z /\
                        (Z.of_nat (Matcher.m_det m) < 32768)%Z /\
                        (Matcher.m_det m < length dcs)%nat) matches ->
  forall s st,
    (Z.of_nat (s + k) <= 32768)%Z ->
    exists img,
      Py.for_each (lesion_step (Nat.ltb 0 (length matches)) (Matcher.m0 matches)
                     (Matcher.m1 matches) dcs probs)
                  st (combine (seq s k) (repeat gc k)) =
      Ok (fst st ++ map (fun i => ([label_score matches probs i], [inject_Z gc]))
                        (seq s k),
          img).
Proof.
  intros Hlen Hdcs Hm. induction k as [|k IH]; intros s st Hs.
  - cbn [seq repeat combine Py.for_each map]. rewrite app_nil_r.
    exists (snd st). destruct st; reflexivity.
  - cbn [seq repeat combine Py.for_each map].
    destruct (lesion_step_value matches dcs probs st s gc) as [img Himg];
      try assumption; [lia|].
    rewrite Himg. cbn [rbind].
    destruct (IH (S s) (update (fst st) [label_score matches probs s] [inject_Z gc], img))
      as [img' Himg']; [lia|].
    rewrite Himg'. cbn [fst]. unfold update. rewrite <- app_assoc.
    exists img'. reflexivity.
Qed.

Lemma set_nth_nth (k : nat) (v : Q) :
  forall r, (k < length r)%nat -> nth k (Tensor.set_nth k v r) 0%Q = v.
Proof.
  induction k as [|k IH]; intros [|x r] H; simpl in *; try lia; [reflexivity|].
  apply IH. lia.
Qed.

Lemma col_set_col (k : nat) (v : Q) (t : tensor) :
  List.Forall (fun r => (k < length r)%nat) t ->
  Tensor.col k (Tensor.set_col k v t) = repeat v (length (Tensor.set_col k v t)).
Proof.
  unfold Tensor.col, Tensor.set_col.
  induction 1 as [|r t Hr Ht IH]; [reflexivity|].
  cbn [map length repeat]. rewrite IH, (set_nth_nth k v r Hr). reflexivity.
Qed.

Lemma select_Forall {A : Type} (P : A -> Prop) (mask : list bool) (l : list A) :
  List.Forall P l -> List.Forall P (Py.select mask l).
Proof.
  intros H. apply List.Forall_forall. intros a Ha.
  apply ConfusionMatrixFacts.select_In in Ha.
  rewrite List.Forall_forall in H. now apply H.
Qed.

Section Scores.

Variable box_iou : tensor -> tensor -> tensor.

(** An image with detections and labels whose class columns hold 0: the
    lesion accumulator receives, label by label, the score credited to
    the label. *)
Lemma update_image_lesion_scores (self self' : t) (mal_d mal_l : tensor) :
  mal_d <> [] -> mal_l <> [] ->
  Tensor.col 5 mal_d = repeat 0%Q (length mal_d) ->
  Tensor.col 0 mal_l = repeat 0%Q (length mal_l) ->
  (Z.of_nat (length mal_d) < 32768)%Z ->
  (Z.of_nat (length mal_l) < 32768)%Z ->
  length (box_iou (Tensor.cols_from 1 mal_l) (Tensor.cols_to 4 mal_d)) = length mal_l ->
  List.Forall (fun row => length row = length mal_d)
    (box_iou (Tensor.cols_from 1 mal_l) (Tensor.cols_to 4 mal_d)) ->
  update_image box_iou self mal_d mal_l = Ok self' ->
  roc_lesion self' =
  roc_lesion self ++
  map (fun i => ([label_score (matches_of box_iou self mal_d mal_l)
                              (Tensor.col 4 mal_d) i],
                 [inject_Z (class_modifier self)]))
      (seq 0 (length mal_l)).
Proof.
  intros Hd Hl Hcd Hcl Hsd Hsl Hrows Hshape. unfold update_image.
  destruct mal_d as [|d0 mal_d'] eqn:Ed; [congruence|].
  destruct mal_l as [|l0 mal_l'] eqn:El; [congruence|].
  rewrite <- Ed, <- El in *.
  replace (Nat.eqb (length mal_d) 0) with false by (rewrite Ed; reflexivity).
  replace (Nat.eqb (length mal_l) 0) with false by (rewrite El; reflexivity).
  intros H.
  apply rbind_Ok_inv in H. destruct H as [mx [_ H]].
  apply rbind_Ok_inv in H. destruct H as [st [Hloop H]].
  inversion H; subst self'. clear H.
  unfold set_rocs. cbn [roc_lesion].
  rewrite Hcd, Hcl in Hloop. rewrite !map_repeat in Hloop.
  unfold Py.enumerate in Hloop. rewrite repeat_length in Hloop.
  change (Py.int 0 + class_modifier self)%Z with (class_modifier self) in Hloop.
  set (matches := matches_of box_iou self mal_d mal_l) in *.
  destruct (lesion_loop_value matches
              (repeat (class_modifier self) (length mal_d))
              (Tensor.col 4 mal_d) (class_modifier self) (length mal_l))
    with (s := 0%nat) (st := (roc_lesion self, 0%Q)) as [img Himg].
  - unfold Tensor.col. now rewrite length_map, repeat_length.
  - apply List.Forall_forall. intros dc Hdc. now apply repeat_spec in Hdc.
  - apply List.Forall_forall. intros m Hin. unfold matches in Hin.
    rewrite matches_of_candidates in Hin.
    apply MatcherFacts.In_candidates in Hin.
    destruct Hin as [row [Hrow [Hv _]]].
    assert (Matcher.m_label m < length mal_l)%nat.
    { rewrite <- Hrows. apply nth_error_Some. congruence. }
    rewrite List.Forall_forall in Hshape.
    pose proof (Hshape row (nth_error_In _ _ Hrow)) as Hrl.
    assert (Matcher.m_det m < length row)%nat
      by (apply nth_error_Some; congruence).
    rewrite repeat_length. lia.
  - simpl. lia.
  - rewrite Himg in Hloop. inversion Hloop; subst st. reflexivity.
Qed.

End Scores.

Section Scoring.

Variable box_iou : tensor -> tensor -> tensor.

(** C1 (as amended).  For an image with at least one malignant detection
    and one malignant label, the matches used to score it are all the
    candidate pairs: exactly the entries of the IoU matrix strictly above
    [iou_thres], with no resolution (a label index or a detection index
    may repeat).  Scoring returns when the IoU matrix has one column per
    malignant detection (fewer than [2^15]), and then every malignant
    label has received exactly one lesion-level entry, and each image-level
    accumulator one entry.  On well-shaped tensors the lesion-level entry
    of a label holds the largest score among all the detections paired
    with it (0 when there is none). *)
Theorem process_batch_keeps_all_candidates
    (self : t) (detections labels : loc) (h : heap) :
  let mal_d := mal_detections_of self (Heap.read h detections) in
  let mal_l := mal_labels_of self (Heap.read h labels) in
  let iou := box_iou (Tensor.cols_from 1 mal_l) (Tensor.cols_to 4 mal_d) in
  let matches := matches_of box_iou self mal_d mal_l in
  mal_d <> [] -> mal_l <> [] ->
  (forall m, In m matches <->
     exists row, nth_error iou (Matcher.m_label m) = Some row /\
                 nth_error row (Matcher.m_det m) = Some (Matcher.m_iou m) /\
                 (iou_thres self < Matcher.m_iou m)%Q) /\
  ((Z.of_nat (length mal_d) < 32768)%Z ->
   List.Forall (fun row => length row = length mal_d) iou ->
   returns (process_batch box_iou self detections labels h)) /\
  (forall self' h',
     process_batch box_iou self detections labels h = Ok (self', h') ->
     length (roc_lesion self') = (length (roc_lesion self) + length mal_l)%nat /\
     length (roc_image self') = (length (roc_image self) + 1)%nat /\
     length (roc_image_noloc self') = (length (roc_image_noloc self) + 1)%nat /\
     markers_in_normal_image self' = markers_in_normal_image self) /\
  (List.Forall (fun r => (5 < length r)%nat) (Heap.read h detections) ->
   List.Forall (fun r => (0 < length r)%nat) (Heap.read h labels) ->
   (Z.of_nat (length mal_d) < 32768)%Z ->
   (Z.of_nat (length mal_l) < 32768)%Z ->
   length iou = length mal_l ->
   List.Forall (fun row => length row = length mal_d) iou ->
   forall self' h',
     process_batch box_iou self detections labels h = Ok (self', h') ->
     roc_lesion self' =
     roc_lesion self ++
     map (fun i => ([label_score matches (Tensor.col 4 mal_d) i],
                    [inject_Z (class_modifier self)]))
         (seq 0 (length mal_l))).
Proof.
  intros mal_d mal_l iou matches Hd Hl.
  destruct (process_batch_heap box_iou self detections labels h)
    as [md [ml [h2 [_ [_ [_ [_ Heq]]]]]]].
  fold mal_d in Heq. fold mal_l in Heq.
  split; [|split; [|split]].
  - intros m. unfold matches. rewrite matches_of_candidates.
    apply MatcherFacts.In_candidates.
  - intros Hsmall Hshape.
    destruct (update_image_both_returns box_iou self mal_d mal_l Hd Hl Hsmall Hshape)
      as [s Hs].
    unfold returns. rewrite Heq, Hs. cbn [rbind]. eexists. reflexivity.
  - intros self' h' H. rewrite Heq in H.
    apply rbind_Ok_inv in H. destruct H as [s [Hs H]].
    inversion H; subst s h'.
    exact (update_image_both box_iou self self' mal_d mal_l Hd Hl Hs).
  - intros Hrd Hrl Hsd Hsl Hrows Hshape self' h' H. rewrite Heq in H.
    apply rbind_Ok_inv in H. destruct H as [s [Hs H]].
    inversion H; subst s h'.
    apply (update_image_lesion_scores box_iou self self' mal_d mal_l);
      try assumption.
    + unfold mal_d, mal_detections_of. apply col_set_col.
      now apply select_Forall.
    + unfold mal_l, mal_labels_of. apply col_set_col.
      now apply select_Forall.
Qed.

(** C3 (as amended).  For an image with at least one malignant detection
    and no malignant label, [process_batch] returns; it appends to
    [markers_in_normal_image] one entry holding the scores of all the
    malignant detections of the image (not only the largest), and pushes
    the largest score with label 0 to the three accumulators.  [froc_curve]
    then counts, at each threshold, every recorded score above it, divided
    by the number of recorded images. *)
Theorem process_batch_normal_image_markers
    (self : t) (detections labels : loc) (h : heap) :
  let mal_d := mal_detections_of self (Heap.read h detections) in
  let mal_l := mal_labels_of self (Heap.read h labels) in
  mal_d <> [] -> mal_l = [] ->
  exists mx self' h',
    process_batch box_iou self detections labels h = Ok (self', h') /\
    Torch.max0 (Tensor.col 4 mal_d) = Ok mx /\
    markers_in_normal_image self' =
      markers_in_normal_image self ++ [Tensor.col 4 mal_d] /\
    roc_lesion self' = update (roc_lesion self) [mx] [0%Q] /\
    roc_image self' = update (roc_image self) [mx] [0%Q] /\
    roc_image_noloc self' = update (roc_image_noloc self) [mx] [0%Q] /\
    (forall tpr thresholds, thresholds <> [] ->
       froc_curve self' tpr thresholds =
       Ok (tpr,
           map (fun th =>
                  Fin (Torch.count_gt
                         (concat (markers_in_normal_image self ++
                                  [Tensor.col 4 mal_d])) th
                       # Pos.of_nat (length (markers_in_normal_image self) + 1)))
               thresholds)).
Proof.
  intros mal_d mal_l Hd Hl.
  destruct (process_batch_heap box_iou self detections labels h)
    as [md [ml [h2 [_ [_ [_ [_ Heq]]]]]]].
  fold mal_d in Heq. fold mal_l in Heq. rewrite Hl in Heq.
  destruct (update_image_normal box_iou self mal_d Hd) as [mx [Hmx Hupd]].
  rewrite Hupd in Heq. cbn [rbind] in Heq.
  eexists mx, _, h2. split; [exact Heq|]. split; [exact Hmx|].
  cbn [markers_in_normal_image roc_lesion roc_image roc_image_noloc].
  repeat split.
  intros tpr ths Hths.
  rewrite froc_curve_value; cbn [markers_in_normal_image].
  - rewrite length_app. reflexivity.
  - intros E. apply app_eq_nil in E. destruct E as [_ E]. discriminate.
  - exact Hths.
Qed.

End Scoring.

(** Witness for C1 (amended): two detections, of scores 0.9 and 0.8, that
    both overlap the one label; the label is credited once, with 0.9. *)
Lemma process_batch_keeps_all_candidates_witness :
  let h : heap :=
    <[0%nat := [[10; 10; 50; 50; 9 # 10; 0]; [10; 10; 50; 48; 8 # 10; 0]]%Q]>
      (<[1%nat := [[0; 10; 10; 50; 50]]%Q]> ∅) in
  init 1 (1 # 2) 1 = Ok engine1 /\
  exists self' h',
    process_batch General.box_iou engine1 0%nat 1%nat h = Ok (self', h') /\
    roc_lesion self' = [([9 # 10], [1])]%Q.
Proof.
  cbv zeta. split; [reflexivity|].
  pose proof (process_batch_keeps_all_candidates General.box_iou engine1
                0%nat 1%nat
                (<[0%nat := [[10; 10; 50; 50; 9 # 10; 0];
                             [10; 10; 50; 48; 8 # 10; 0]]%Q]>
                   (<[1%nat := [[0; 10; 10; 50; 50]]%Q]> ∅))) as H.
  cbv zeta in H.
  destruct H as [_ [Hret [_ Hscore]]].
  - vm_compute. discriminate.
  - vm_compute. discriminate.
  - destruct Hret as [[self' h'] Hok].
    + vm_compute. reflexivity.
    + vm_compute. repeat constructor.
    + exists self', h'. split; [exact Hok|].
      rewrite (Hscore ltac:(vm_compute; repeat constructor)
                      ltac:(vm_compute; repeat constructor)
                      ltac:(vm_compute; reflexivity)
                      ltac:(vm_compute; reflexivity)
                      ltac:(vm_compute; reflexivity)
                      ltac:(vm_compute; repeat constructor)
                      self' h' Hok).
      vm_compute. reflexivity.
Defined.

(** C1, the claim as worded, fails: two malignant labels and two malignant
    detections that all overlap.  The four pairs are all kept as matches,
    so label indices and detection indices both repeat, and the call
    returns with these matches used. *)
Lemma process_batch_keeps_all_candidates_counterexample :
  let d := [[10; 10; 50; 50; 9 # 10; 0]; [10; 10; 50; 49; 8 # 10; 0]]%Q in
  let l := [[0; 10; 10; 50; 50]; [0; 10; 10; 50; 48]]%Q in
  let h : heap := <[0%nat := d]> (<[1%nat := l]> ∅) in
  let matches :=
    matches_of General.box_iou engine1
      (mal_detections_of engine1 d) (mal_labels_of engine1 l) in
  init 1 (1 # 2) 1 = Ok engine1 /\
  returns (process_batch General.box_iou engine1 0%nat 1%nat h) /\
  map Matcher.m_label matches = [0; 0; 1; 1]%nat /\
  map Matcher.m_det matches = [0; 1; 0; 1]%nat /\
  ~ NoDup (map Matcher.m_label matches) /\
  ~ NoDup (map Matcher.m_det matches).
Proof.
  cbv zeta. split; [reflexivity|].
  split; [eexists; vm_compute; reflexivity|].
  split; [vm_compute; reflexivity|].
  split; [vm_compute; reflexivity|].
  split; intros H; vm_compute in H.
  - inversion H as [|? ? Hn _]. apply Hn. now left.
  - inversion H as [|? ? Hn _]. apply Hn. right. now left.
Qed.

(** Witness for C3 (amended), the scenario of the specification: an engine
    that has seen one negative image with the single score 0.3 sees one
    with the single score 0.7; at threshold 0.5 the average number of
    false markers is 1/2. *)
Lemma process_batch_normal_image_markers_witness :
  let self := append_markers engine1 [3 # 10] in
  let h : heap :=
    <[0%nat := [[10; 10; 50; 50; 7 # 10; 0]]%Q]> (<[1%nat := []]> ∅) in
  exists self' h',
    process_batch General.box_iou self 0%nat 1%nat h = Ok (self', h') /\
    markers_in_normal_image self' = [[3 # 10]; [7 # 10]] /\
    froc_curve self' [1]%Q [1 # 2] = Ok ([1]%Q, [Fin (1 # 2)]).
Proof.
  cbv zeta.
  destruct (process_batch_normal_image_markers General.box_iou
              (append_markers engine1 [3 # 10]) 0%nat 1%nat
              (<[0%nat := [[10; 10; 50; 50; 7 # 10; 0]]%Q]> (<[1%nat := []]> ∅)))
    as [mx [self' [h' [Hok [_ [Hm [_ [_ [_ Hfroc]]]]]]]]].
  - vm_compute. discriminate.
  - vm_compute. reflexivity.
  - exists self', h'. split; [exact Hok|]. split.
    + rewrite Hm. vm_compute. reflexivity.
    + rewrite Hfroc by discriminate. vm_compute. reflexivity.
Defined.

(** C3, the claim as worded, fails: a negative image with two malignant
    detections of scores 0.6 and 0.7.  Both scores are recorded, not the
    maximum alone, and at threshold 0.5 [froc_curve] counts two false
    markers for this one image. *)
Lemma process_batch_normal_image_markers_counterexample :
  let h : heap :=
    <[0%nat := [[10; 10; 50; 50; 6 # 10; 0]; [60; 60; 90; 90; 7 # 10; 0]]%Q]>
      (<[1%nat := []]> ∅) in
  exists self' h',
    process_batch General.box_iou engine1 0%nat 1%nat h = Ok (self', h') /\
    markers_in_normal_image self' = [[6 # 10; 7 # 10]] /\
    markers_in_normal_image self' <> [[7 # 10]] /\
    froc_curve self' [1]%Q [1 # 2] = Ok ([1]%Q, [Fin (2 # 1)]).
Proof.
  cbv zeta. eexists. eexists.
  split; [vm_compute; reflexivity|].
  split; [reflexivity|]. split; [discriminate|].
  vm_compute. reflexivity.
Qed.

(** Witness for C10: the heap after scoring one image still holds the two
    input tensors, with their class columns as given. *)
Lemma process_batch_preserves_inputs_witness :
  let d := [[10; 10; 50; 50; 9 # 10; 1]; [10; 10; 50; 48; 8 # 10; 0]]%Q in
  let l := [[1; 10; 10; 50; 50]]%Q in
  let h : heap := <[0%nat := d]> (<[1%nat := l]> ∅) in
  exists self self' h',
    init 2 (1 # 2) 1 = Ok self /\
    process_batch General.box_iou self 0%nat 1%nat h = Ok (self', h') /\
    h' !! 0%nat = Some d /\ h' !! 1%nat = Some l.
Proof.
  cbv zeta. eexists. eexists. eexists.
  split; [reflexivity|].
  match goal with
  | |- ?P /\ _ => assert (Hok : P) by (vm_compute; reflexivity)
  end.
  split; [exact Hok|].
  pose proof (process_batch_preserves_inputs General.box_iou _ _ _ _ _ _ _ _
                (lookup_insert_eq _ 0%nat _)
                (eq_trans (lookup_insert_ne _ 0%nat 1%nat _ (Nat.neq_0_succ 0))
                          (lookup_insert_eq _ 1%nat _))
                Hok) as [Hd [Hl _]].
  split; [exact Hd | exact Hl].
Defined.

End OD_AUCROCFacts.

(** ** [ap_per_class] *)

Module ApPerClassFacts.

Import ApPerClass ApPerClassTerms.

Local Open Scope Q_scope.

(** *** Shapes *)

Lemma insert_idx_length (k : nat * Q) (l : list (nat * Q)) :
  length (Np.insert_idx k l) = S (length l).
Proof.
  induction l as [|h l IH]; simpl; [reflexivity|].
  destruct (Qle_bool (snd k) (snd h)); simpl; [reflexivity | now rewrite IH].
Qed.

Lemma argsort_length (a : list Q) : length (Np.argsort a) = length a.
Proof.
  unfold Np.argsort. rewrite length_map.
  rewrite <- (MatcherFacts.enumerate_length a).
  induction (Py.enumerate a) as [|k l IH]; simpl; [reflexivity|].
  now rewrite insert_idx_length, IH.
Qed.

Lemma take_length {A : Type} (d : A) (i : list nat) (a : list A) :
  length (Np.take d i a) = length i.
Proof.
  unfold Np.take. apply length_map.
Qed.

(** *** The sort of line 45 *)

Lemma In_insert_idx_fst (x : nat * Q) (l : list (nat * Q)) (k : nat) :
  In k (map fst (Np.insert_idx x l)) <-> k = fst x \/ In k (map fst l).
Proof.
  induction l as [|h l IH]; simpl.
  - intuition.
  - destruct (Qle_bool (snd x) (snd h)); simpl; [intuition|].
    rewrite IH. intuition.
Qed.

Lemma argsort_bound (a : list Q) (k : nat) :
  In k (Np.argsort a) -> (k < length a)%nat.
Proof.
  unfold Np.argsort.
  assert (H : forall l : list (nat * Q),
            In k (map fst (fold_right Np.insert_idx [] l)) -> In k (map fst l)).
  { induction l as [|x l IH]; simpl; [tauto|].
    intros Hin. apply (proj1 (In_insert_idx_fst _ _ _)) in Hin.
    destruct Hin as [->|Hin]; [now left | right; now apply IH]. }
  intros Hin. apply H in Hin. apply in_map_iff in Hin.
  destruct Hin as [[k' x] [<- Hx]]. cbn [fst].
  apply (proj1 (MatcherFacts.In_enumerate _ _ _)) in Hx.
  apply nth_error_Some. congruence.
Qed.

Lemma in_range_argsort (a : list Q) (n : nat) :
  (length a <= n)%nat -> in_range (Np.argsort a) n = true.
Proof.
  intros Hn. unfold in_range. apply forallb_forall. intros k Hk.
  apply argsort_bound in Hk. apply Nat.ltb_lt. lia.
Qed.

Lemma index_out_of_range {A : Type} (l : list A) (k : nat) :
  (length l <= k)%nat -> Py.index l (Z.of_nat k) = Raise IndexError.
Proof.
  intros Hk. unfold Py.index, Py.norm_index.
  replace (Z.ltb (Z.of_nat k) (Z.of_nat (length l))) with false
    by (symmetry; apply Z.ltb_ge; lia).
  replace (Z.ltb (Z.of_nat k) 0) with false
    by (symmetry; apply Z.ltb_ge; lia).
  rewrite !andb_false_r. reflexivity.
Qed.

(** Fancy indexing raises exactly when an index is out of range. *)
Lemma fancy_checked {A : Type} (d : A) (i : list nat) (a : list A) :
  Np.fancy i a =
  if in_range i (length a) then Ok (Np.take d i a) else Raise IndexError.
Proof.
  unfold Np.fancy, Np.take, in_range.
  induction i as [|k i IH]; [reflexivity|].
  cbn [map Py.gather forallb].
  destruct (Nat.ltb_spec k (length a)) as [Hk|Hk].
  - rewrite (OD_AUCROCFacts.index_of_nat a d k Hk). cbn [rbind andb].
    rewrite IH. destruct (forallb _ i); reflexivity.
  - rewrite (index_out_of_range a k Hk). reflexivity.
Qed.

(** [ap_per_class] is the per-class computation on the sorted arrays when
    line 45 can index them, and [IndexError] otherwise. *)
Lemma ap_per_class_sorted
    (bk : backend) (tp : list (list Q)) (conf : list Q)
    (pred_cls target_cls : list Z) (plot : bool)
    (save_dir : String.string) (names : list String.string) :
  ap_per_class bk tp conf pred_cls target_cls plot save_dir names =
  if indexable tp conf pred_cls then
    per_class bk (map (Np.take 0 (Np.argsort (map Qopp conf))) tp)
              (Np.take 0 (Np.argsort (map Qopp conf)) conf)
              (Np.take 0%Z (Np.argsort (map Qopp conf)) pred_cls)
              target_cls plot save_dir names
  else Raise IndexError.
Proof.
  unfold ap_per_class, indexable.
  set (i := Np.argsort (map Qopp conf)).
  assert (Hconf : Np.fancy i conf = Ok (Np.take 0 i conf)).
  { rewrite (fancy_checked 0 i conf). unfold i.
    rewrite in_range_argsort; [reflexivity | now rewrite length_map]. }
  rewrite (fancy_checked 0%Z i pred_cls).
  destruct tp as [|col0 rest].
  - cbn [Np.take_rows rbind map andb]. rewrite Hconf. cbn [rbind].
    destruct (in_range i (length pred_cls)); reflexivity.
  - cbn [Np.take_rows]. rewrite (fancy_checked 0 i col0).
    destruct (in_range i (length col0)); cbn [rbind andb]; [|reflexivity].
    rewrite Hconf. cbn [rbind].
    destruct (in_range i (length pred_cls)); reflexivity.
Qed.

(** Arrays of the length of [conf] can be indexed. *)
Lemma indexable_shaped (tp : list (list Q)) (conf : list Q) (pred_cls : list Z) :
  List.Forall (fun col => length col = length conf) tp ->
  length pred_cls = length conf ->
  indexable tp conf pred_cls = true.
Proof.
  intros Htp Hpred. unfold indexable. apply andb_true_iff. split.
  - destruct tp as [|col0 rest]; [reflexivity|].
    inversion Htp as [|? ? Hcol0 _]; subst.
    apply in_range_argsort. rewrite length_map. lia.
  - apply in_range_argsort. rewrite length_map. lia.
Qed.

Lemma cumsum_from_length (a : list Q) :
  forall acc, length (Np.cumsum_from acc a) = length a.
Proof.
  induction a as [|x a IH]; intros acc; simpl; [reflexivity | now rewrite IH].
Qed.

Lemma cumsum_length (a : list Q) : length (Np.cumsum a) = length a.
Proof.
  apply cumsum_from_length.
Qed.

Lemma map2_length (f : Q -> Q -> Q) (a : list Q) :
  forall b, length a = length b -> length (Np.map2 f a b) = length a.
Proof.
  induction a as [|x a IH]; intros b H; destruct b as [|y b];
    try discriminate; simpl; [reflexivity|].
  rewrite IH; [reflexivity | now inversion H].
Qed.

(** *** The loop over the threshold columns *)

Lemma ap_step_good (plot : bool) (st : list Q * list (list Q)) (j : nat)
    (rp : list Q * list Q) :
  good rp ->
  ap_step plot st (j, rp) =
  Ok (fst st ++ [ap_of rp],
      snd st ++ (if plot && Nat.eqb j 0 then py_of rp else [])).
Proof.
  intros [Hne Hlen]. unfold ap_step, ap_of, py_of. cbn [fst snd].
  destruct (APFacts.compute_ap_returns _ _ Hne Hlen) as [[[ap mpre] mrec] Hc].
  rewrite Hc. cbn [rbind].
  destruct (plot && Nat.eqb j 0).
  - destruct (APFacts.compute_ap_Ok _ _ _ _ _ Hc) as [rl [_ [Hmrec [_ Hl]]]].
    destruct (APFacts.interp_returns px mrec mpre None None) as [y Hy].
    + subst mrec. discriminate.
    + exact Hl.
    + rewrite Hy. reflexivity.
  - now rewrite app_nil_r.
Qed.

Lemma ap_loop (plot : bool) (cols : list (list Q * list Q)) :
  List.Forall good cols ->
  forall s st,
    Py.for_each (ap_step plot) st (combine (seq s (length cols)) cols) =
    Ok (fst st ++ map ap_of cols,
        snd st ++ (if plot then
                     match s, cols with
                     | O, c0 :: _ => py_of c0
                     | _, _ => []
                     end
                   else [])).
Proof.
  induction 1 as [|c cols Hc Hcols IH]; intros s st.
  - simpl. rewrite !app_nil_r. destruct plot, s; rewrite ?app_nil_r;
      destruct st; reflexivity.
  - cbn [length seq combine Py.for_each].
    rewrite (ap_step_good plot st s c Hc). cbn [rbind].
    rewrite IH. cbn [fst snd map].
    rewrite <- !app_assoc. cbn [app].
    destruct plot; cbn [andb].
    + destruct s; cbn [Nat.eqb]; rewrite ?app_nil_r; reflexivity.
    + rewrite !app_nil_r. reflexivity.
Qed.

(** *** The body of the loop over the classes *)

Section ClassBody.

Variables (plot : bool) (conf : list Q) (pred_cls target_cls : list Z) (c : Z).

Let i := map (Z.eqb c) pred_cls.
Let n_l := Matcher.count_true (map (Z.eqb c) target_cls).
Let n_p := Matcher.count_true i.

Lemma curves_of_good (col : list Q) :
  length col = length pred_cls -> n_p <> 0%nat -> good (curves_of i n_l col).
Proof.
  intros Hlen Hnp. unfold good, curves_of. cbn [fst snd].
  assert (Hsel : length (Py.select i col) = n_p).
  { apply ConfusionMatrixFacts.select_length.
    unfold i. now rewrite length_map. }
  split.
  - intros E. apply (f_equal (@length Q)) in E.
    rewrite length_map, cumsum_length, Hsel in E. simpl in E. congruence.
  - rewrite map2_length; rewrite ?length_map, ?cumsum_length, ?length_map;
      reflexivity.
Qed.

Lemma combine_curves (tp : list (list Q)) :
  combine
    (map (map (fun v => v / (inject_Z (Z.of_nat n_l) + eps)))
         (map Np.cumsum (map (Py.select i) tp)))
    (map (fun tf => Np.map2 (fun t f => t / (t + f)) (fst tf) (snd tf))
         (combine (map Np.cumsum (map (Py.select i) tp))
                  (map (fun col => Np.cumsum (map (fun v => 1 - v) col))
                       (map (Py.select i) tp)))) =
  map (curves_of i n_l) tp.
Proof.
  induction tp as [|col tp IH]; [reflexivity|].
  cbn [map combine]. rewrite IH. reflexivity.
Qed.

(** The body with its inner loop in closed form. *)
Lemma class_body_closed (tp : list (list Q)) :
  List.Forall (fun col => length col = length pred_cls) tp ->
  class_body plot tp conf pred_cls target_cls c =
  if Nat.eqb n_p 0 || Nat.eqb n_l 0 then
    Ok (mk_rows (zeros 1000) (zeros 1000) (zeros (length tp)) [])
  else
    match tp with
    | [] => Raise IndexError
    | col0 :: _ =>
        try! r := Np.interp (map Qopp px) (map Qopp (Py.select i conf))
                    (fst (curves_of i n_l col0)) (Some 0) None in
        try! p := Np.interp (map Qopp px) (map Qopp (Py.select i conf))
                    (snd (curves_of i n_l col0)) (Some 1) None in
        Ok (mk_rows p r (map ap_of (map (curves_of i n_l) tp))
                    (if plot then py_of (curves_of i n_l col0) else []))
    end.
Proof.
  intros Hshape. unfold class_body. fold i. fold n_l. fold n_p.
  destruct (Nat.eqb n_p 0) eqn:Enp; [reflexivity|].
  destruct (Nat.eqb n_l 0) eqn:Enl; [reflexivity|].
  cbn [orb]. apply Nat.eqb_neq in Enp.
  destruct tp as [|col0 tp]; [reflexivity|].
  rewrite combine_curves.
  unfold column. cbn [map nth_error rbind].
  change (map (fun v => v / (inject_Z (Z.of_nat n_l) + eps))
              (Np.cumsum (Py.select i col0)))
    with (fst (curves_of i n_l col0)).
  destruct (Np.interp (map Qopp px) (map Qopp (Py.select i conf))
              (fst (curves_of i n_l col0)) (Some 0) None) as [r|e]; [|reflexivity].
  cbn [rbind map combine nth_error fst snd].
  change (Np.map2 (fun t f => t / (t + f)) (Np.cumsum (Py.select i col0))
            (Np.cumsum (map (fun v => 1 - v) (Py.select i col0))))
    with (snd (curves_of i n_l col0)).
  destruct (Np.interp (map Qopp px) (map Qopp (Py.select i conf))
              (snd (curves_of i n_l col0)) (Some 1) None) as [p|e]; [|reflexivity].
  cbn [rbind]. unfold Py.enumerate.
  change (curves_of i n_l col0 :: map (curves_of i n_l) tp) with (map (curves_of i n_l) (col0 :: tp)).
  rewrite ap_loop.
  - cbn [rbind fst snd app map]. reflexivity.
  - apply List.Forall_forall. intros rp Hrp. apply in_map_iff in Hrp.
    destruct Hrp as [col [<- Hcol]]. apply curves_of_good; [|exact Enp].
    rewrite List.Forall_forall in Hshape. now apply Hshape.
Qed.

(** The precision and recall rows, and the [py] entry, read the first
    column of [tp] and no other. *)
Lemma class_body_first_column (col0 : list Q) (rest rest' : list (list Q)) :
  List.Forall (fun col => length col = length pred_cls) (col0 :: rest) ->
  List.Forall (fun col => length col = length pred_cls) (col0 :: rest') ->
  same_curves (class_body plot (col0 :: rest) conf pred_cls target_cls c)
              (class_body plot (col0 :: rest') conf pred_cls target_cls c).
Proof.
  intros H1 H2. rewrite (class_body_closed _ H1), (class_body_closed _ H2).
  destruct (Nat.eqb n_p 0 || Nat.eqb n_l 0).
  - simpl. auto.
  - destruct (Np.interp (map Qopp px) (map Qopp (Py.select i conf))
                (fst (curves_of i n_l col0)) (Some 0) None) as [r|e];
      cbn [rbind]; [|reflexivity].
    destruct (Np.interp (map Qopp px) (map Qopp (Py.select i conf))
                (snd (curves_of i n_l col0)) (Some 1) None) as [p|e];
      cbn [rbind]; [|reflexivity].
    simpl. auto.
Qed.

(** The body returns on every non-empty, well-shaped [tp]. *)
Lemma class_body_returns (tp : list (list Q)) :
  tp <> [] ->
  length conf = length pred_cls ->
  List.Forall (fun col => length col = length pred_cls) tp ->
  returns (class_body plot tp conf pred_cls target_cls c).
Proof.
  intros Hne Hconf Hshape. unfold returns.
  rewrite (class_body_closed _ Hshape).
  destruct (Nat.eqb n_p 0) eqn:Enp; [eexists; reflexivity|].
  destruct (Nat.eqb n_l 0) eqn:Enl; [eexists; reflexivity|].
  cbn [orb]. apply Nat.eqb_neq in Enp.
  destruct tp as [|col0 tp]; [congruence|].
  assert (Hg : good (curves_of i n_l col0)).
  { apply curves_of_good; [|exact Enp]. now inversion Hshape. }
  destruct Hg as [Hrec Hprec].
  assert (Hsel : length (map Qopp (Py.select i conf)) = length (fst (curves_of i n_l col0))).
  { unfold curves_of. cbn [fst]. rewrite !length_map, cumsum_length.
    rewrite !ConfusionMatrixFacts.select_length; try reflexivity.
    - unfold i. rewrite length_map. now inversion Hshape.
    - unfold i. now rewrite length_map. }
  assert (Hxp : map Qopp (Py.select i conf) <> []).
  { intros E. rewrite E in Hsel. cbn [length] in Hsel.
    apply Hrec. apply length_zero_iff_nil. symmetry. exact Hsel. }
  destruct (APFacts.interp_returns (map Qopp px) _ (fst (curves_of i n_l col0))
              (Some 0) None Hxp Hsel) as [r Hr].
  rewrite Hr. cbn [rbind].
  destruct (APFacts.interp_returns (map Qopp px) (map Qopp (Py.select i conf))
              (snd (curves_of i n_l col0)) (Some 1) None Hxp) as [p Hp].
  { now rewrite Hprec. }
  rewrite Hp. cbn [rbind]. eexists. reflexivity.
Qed.

End ClassBody.

(** *** The loop over the classes *)

Lemma same_curves_refl (a : result class_rows) : same_curves a a.
Proof.
  destruct a; simpl; auto.
Qed.

Lemma collect_cons (f : Z -> result class_rows) (acc : list class_rows)
    (c : Z) (cls : list Z) :
  Py.for_each (collect f) acc (c :: cls) =
  (try! row := f c in Py.for_each (collect f) (acc ++ [row]) cls).
Proof.
  cbn [Py.for_each]. unfold collect at 1. destruct (f c); reflexivity.
Qed.

Lemma rows_loop_related (f g : Z -> result class_rows) :
  (forall c, same_curves (f c) (g c)) ->
  forall cls acc acc', Forall2 row_rel acc acc' ->
    match Py.for_each (collect f) acc cls, Py.for_each (collect g) acc' cls with
    | Ok rs, Ok rs' => Forall2 row_rel rs rs'
    | Raise e, Raise e' => e = e'
    | _, _ => False
    end.
Proof.
  intros Hfg. induction cls as [|c cls IH]; intros acc acc' Hacc.
  - simpl. exact Hacc.
  - rewrite !collect_cons.
    specialize (Hfg c). unfold same_curves in Hfg.
    destruct (f c) as [x|e], (g c) as [y|e']; try contradiction; cbn [rbind].
    + apply IH. apply Forall2_app; [exact Hacc|].
      constructor; [exact Hfg | constructor].
    + exact Hfg.
Qed.

Lemma rows_loop_returns (f : Z -> result class_rows) :
  (forall c, returns (f c)) ->
  forall cls acc, returns (Py.for_each (collect f) acc cls).
Proof.
  intros Hf cls acc.
  destruct (ConfusionMatrixFacts.for_each_returns (fun _ => True) (collect f) cls)
    with (s := acc) as [rs [Hrs _]].
  - intros s c _ _. unfold collect. destruct (Hf c) as [row ->].
    eexists. split; [reflexivity | exact I].
  - exact I.
  - exists rs. exact Hrs.
Qed.

Lemma row_rel_maps (rs rs' : list class_rows) :
  Forall2 row_rel rs rs' ->
  map p_row rs = map p_row rs' /\
  map r_row rs = map r_row rs' /\
  map py_rows rs = map py_rows rs' /\
  map (fun row => f1_row (p_row row) (r_row row)) rs =
  map (fun row => f1_row (p_row row) (r_row row)) rs'.
Proof.
  induction 1 as [|x y rs rs' [Hp [Hr Hpy]] _ [IH1 [IH2 [IH3 IH4]]]].
  - repeat split.
  - cbn [map]. rewrite Hp, Hr, Hpy, IH1, IH2, IH3, IH4. repeat split.
Qed.

Lemma sorted_columns_shape (i : list nat) (pred_cls : list Z) (tp : list (list Q)) :
  List.Forall (fun col => length col = length (Np.take 0%Z i pred_cls))
              (map (Np.take 0%Q i) tp).
Proof.
  apply List.Forall_forall. intros col Hcol. apply in_map_iff in Hcol.
  destruct Hcol as [col' [<- _]]. now rewrite !take_length.
Qed.

(** C9.  The precision, recall and F1 values that [ap_per_class] returns
    (and the class ids) are computed from the first column of [tp] alone:
    two calls whose [tp] arrays have the same first column, whatever their
    further threshold columns, return the same precision, recall and F1
    (or raise the same exception); only the [ap] array can differ. *)
Theorem ap_per_class_first_column
    (bk : backend) (tp tp' : list (list Q)) (conf : list Q)
    (pred_cls target_cls : list Z) (plot : bool)
    (save_dir : String.string) (names : list String.string) :
  nth_error tp 0 = nth_error tp' 0 ->
  same_operating_point
    (ap_per_class bk tp conf pred_cls target_cls plot save_dir names)
    (ap_per_class bk tp' conf pred_cls target_cls plot save_dir names).
Proof.
  intros Hcol. rewrite !ap_per_class_sorted.
  assert (Hidx : indexable tp' conf pred_cls = indexable tp conf pred_cls).
  { unfold indexable.
    destruct tp as [|col0 rest], tp' as [|col0' rest']; try discriminate;
      [reflexivity|].
    simpl in Hcol. inversion Hcol; subst col0'. reflexivity. }
  rewrite Hidx.
  destruct (indexable tp conf pred_cls); [|simpl; reflexivity].
  unfold per_class.
  set (i := Np.argsort (map Qopp conf)).
  set (conf_s := Np.take 0 i conf).
  set (pred_s := Np.take 0%Z i pred_cls).
  set (cls := Np.unique target_cls).
  pose (f := fun tp0 : list (list Q) =>
               class_body plot (map (Np.take 0 i) tp0) conf_s pred_s target_cls).
  assert (Hbody : forall c, same_curves (f tp c) (f tp' c)).
  { intros c. unfold f.
    destruct tp as [|col0 rest], tp' as [|col0' rest']; try discriminate.
    - apply same_curves_refl.
    - simpl in Hcol. inversion Hcol; subst col0'. cbn [map].
      apply class_body_first_column.
      + apply (sorted_columns_shape i pred_cls (col0 :: rest)).
      + apply (sorted_columns_shape i pred_cls (col0 :: rest')). }
  pose proof (rows_loop_related (f tp) (f tp') Hbody cls [] [] (Forall2_nil _))
    as Hrows.
  change (Py.for_each
            (fun acc c =>
               try! row := class_body plot (map (Np.take 0 i) tp) conf_s pred_s
                             target_cls c in
               Ok (acc ++ [row])) [] cls)
    with (Py.for_each (collect (f tp)) [] cls).
  change (Py.for_each
            (fun acc c =>
               try! row := class_body plot (map (Np.take 0 i) tp') conf_s pred_s
                             target_cls c in
               Ok (acc ++ [row])) [] cls)
    with (Py.for_each (collect (f tp')) [] cls).
  destruct (Py.for_each (collect (f tp)) [] cls) as [rs|e],
           (Py.for_each (collect (f tp')) [] cls) as [rs'|e'];
    try contradiction; cbn [rbind]; [|exact Hrows].
  destruct (row_rel_maps rs rs' Hrows) as [Hp [Hr [Hpy Hf1]]].
  rewrite Hp, Hr, Hpy, Hf1.
  assert (Hlen : length rs = length rs').
  { apply (f_equal (@length _)) in Hp. now rewrite !length_map in Hp. }
  destruct plot; cbn [rbind].
  - unfold Plot.plot_pr_curve, Plot.plot_mc_curve.
    destruct (new_figure bk); cbn [rbind]; [|reflexivity].
    match goal with
    | |- context [rbind ?m _] => destruct m; cbn [rbind]; [|reflexivity]
    end.
    repeat match goal with
    | |- context [rbind ?m _] => destruct m; cbn [rbind]; [|reflexivity]
    end.
    simpl. repeat split.
  - simpl. repeat split.
Qed.

(** Witness for C9: two [tp] arrays with one first column and different
    second columns. *)
Lemma ap_per_class_first_column_witness :
  let bk := mk_backend (Ok tt) (Ok tt) (Ok tt) (fun _ => Ok tt) in
  same_operating_point
    (ap_per_class bk [[1; 0; 1]; [1; 0; 0]] [9 # 10; 8 # 10; 7 # 10]
                  [0; 0; 1]%Z [0; 1]%Z false ""%string [])
    (ap_per_class bk [[1; 0; 1]; [0; 0; 1]] [9 # 10; 8 # 10; 7 # 10]
                  [0; 0; 1]%Z [0; 1]%Z false ""%string []).
Proof.
  cbv zeta. apply ap_per_class_first_column. reflexivity.
Defined.

(** *** The rendering boundary *)

(** With and without plotting the loop over the classes writes the same
    precision, recall and [ap] rows; only [py] differs. *)
Lemma class_body_plot_free (conf : list Q) (pred_cls target_cls : list Z)
    (c : Z) (tp : list (list Q)) :
  List.Forall (fun col => length col = length pred_cls) tp ->
  match class_body true tp conf pred_cls target_cls c,
        class_body false tp conf pred_cls target_cls c with
  | Ok x, Ok y => p_row x = p_row y /\ r_row x = r_row y /\ ap_row x = ap_row y
  | Raise e, Raise e' => e = e'
  | _, _ => False
  end.
Proof.
  intros Hshape.
  rewrite (class_body_closed true conf pred_cls target_cls c tp Hshape).
  rewrite (class_body_closed false conf pred_cls target_cls c tp Hshape).
  destruct (_ || _); [simpl; auto|].
  destruct tp as [|col0 rest]; [reflexivity|].
  match goal with
  | |- context [rbind ?m _] => destruct m; cbn [rbind]; [|reflexivity]
  end.
  match goal with
  | |- context [rbind ?m _] => destruct m; cbn [rbind]; [|reflexivity]
  end.
  simpl. auto.
Qed.

Lemma rows_loop_plot_free (f g : Z -> result class_rows) :
  (forall c, match f c, g c with
             | Ok x, Ok y =>
                 p_row x = p_row y /\ r_row x = r_row y /\ ap_row x = ap_row y
             | Raise e, Raise e' => e = e'
             | _, _ => False
             end) ->
  forall cls acc acc' rs',
    map p_row acc = map p_row acc' -> map r_row acc = map r_row acc' ->
    map ap_row acc = map ap_row acc' ->
    Py.for_each (collect g) acc' cls = Ok rs' ->
    exists rs,
      Py.for_each (collect f) acc cls = Ok rs /\
      map p_row rs = map p_row rs' /\ map r_row rs = map r_row rs' /\
      map ap_row rs = map ap_row rs'.
Proof.
  intros Hfg. induction cls as [|c cls IH]; intros acc acc' rs' Hp Hr Hap H.
  - simpl in H. injection H as <-. exists acc. now repeat split.
  - rewrite collect_cons in H. rewrite collect_cons.
    specialize (Hfg c).
    destruct (f c) as [x|e], (g c) as [y|e']; try contradiction;
      try discriminate.
    cbn [rbind] in *. destruct Hfg as [Hx [Hy Hz]].
    apply (IH _ _ _) with (4 := H); rewrite !map_app; cbn [map]; congruence.
Qed.

Lemma f1_rows_agree (rows_t rows : list class_rows) :
  map p_row rows_t = map p_row rows ->
  map r_row rows_t = map r_row rows ->
  map (fun row => f1_row (p_row row) (r_row row)) rows_t =
  map (fun row => f1_row (p_row row) (r_row row)) rows.
Proof.
  revert rows. induction rows_t as [|x xs IH]; intros [|y ys] Hp Hr;
    try discriminate; [reflexivity|].
  cbn [map] in *. injection Hp as Hp1 Hp2. injection Hr as Hr1 Hr2.
  rewrite Hp1, Hr1. f_equal. now apply IH.
Qed.

(** C8 (as amended).  [ConfusionMatrix.plot] catches whatever exception of
    class [Exception] its rendering raises and returns normally.
    [ap_per_class] has no handler around its plot calls.  On arrays of
    the length of [conf], with at least one threshold column: with
    [plot=False] no plot call is made and the call returns the same
    results whatever the backend does; with [plot=True] the call is
    [plot_pr_curve] and the three [plot_mc_curve] calls, unguarded,
    followed by the results of [plot=False]: the first exception that a
    plot call raises is raised by [ap_per_class], and the results are
    returned only when all four calls have returned. *)
Theorem plotting_failures
    (tp : list (list Q)) (conf : list Q)
    (pred_cls target_cls : list Z)
    (save_dir : String.string) (names : list String.string) :
  (forall bk self dir,
     (forall e, ConfusionMatrixPlot.render bk self dir = Raise e ->
                is_Exception e = true) ->
     ConfusionMatrixPlot.plot bk self dir = Ok tt) /\
  (tp <> [] ->
   List.Forall (fun col => length col = length conf) tp ->
   length pred_cls = length conf ->
   exists (o : output) (py p r f1 : list (list Q)),
     forall bk,
       ap_per_class bk tp conf pred_cls target_cls false save_dir names = Ok o /\
       ap_per_class bk tp conf pred_cls target_cls true save_dir names =
         (try! _ := Plot.plot_pr_curve bk px py (out_ap o)
                      (String.append save_dir "/PR_curve.png"%string) names in
          try! _ := Plot.plot_mc_curve bk px f1
                      (String.append save_dir "/F1_curve.png"%string) names in
          try! _ := Plot.plot_mc_curve bk px p
                      (String.append save_dir "/P_curve.png"%string) names in
          try! _ := Plot.plot_mc_curve bk px r
                      (String.append save_dir "/R_curve.png"%string) names in
          Ok o)).
Proof.
  split.
  - intros bk self dir Hexn. unfold ConfusionMatrixPlot.plot.
    destruct (ConfusionMatrixPlot.render bk self dir) as [[]|e] eqn:E;
      [reflexivity|].
    now rewrite (Hexn e eq_refl).
  - intros Hne Htp Hpred.
    set (i := Np.argsort (map Qopp conf)).
    set (tp_s := map (Np.take 0 i) tp).
    set (conf_s := Np.take 0 i conf).
    set (pred_s := Np.take 0%Z i pred_cls).
    destruct (rows_loop_returns (class_body false tp_s conf_s pred_s target_cls))
      with (cls := Np.unique target_cls) (acc := @nil class_rows)
      as [rows Hrows].
    { intros c. apply class_body_returns.
      - unfold tp_s. destruct tp; [congruence | discriminate].
      - unfold conf_s, pred_s. now rewrite !take_length.
      - apply sorted_columns_shape. }
    destruct (rows_loop_plot_free
                (class_body true tp_s conf_s pred_s target_cls)
                (class_body false tp_s conf_s pred_s target_cls))
      with (cls := Np.unique target_cls) (acc := @nil class_rows)
           (acc' := @nil class_rows) (rs' := rows)
      as [rows_t [Hrows_t [Hp [Hr Hap]]]]; try reflexivity; try exact Hrows.
    { intros c. apply class_body_plot_free. apply sorted_columns_shape. }
    pose proof (f1_rows_agree rows_t rows Hp Hr) as Hf1.
    exists (mk_output
              (at_col (Np.argmax (mean0 (map (fun row => f1_row (p_row row) (r_row row)) rows)))
                      (map p_row rows))
              (at_col (Np.argmax (mean0 (map (fun row => f1_row (p_row row) (r_row row)) rows)))
                      (map r_row rows))
              (map ap_row rows)
              (at_col (Np.argmax (mean0 (map (fun row => f1_row (p_row row) (r_row row)) rows)))
                      (map (fun row => f1_row (p_row row) (r_row row)) rows))
              (map Py.astype_int32 (Np.unique target_cls))),
           (concat (map py_rows rows_t)), (map p_row rows), (map r_row rows),
           (map (fun row => f1_row (p_row row) (r_row row)) rows).
    intros bk. rewrite !ap_per_class_sorted.
    rewrite (indexable_shaped tp conf pred_cls Htp Hpred).
    fold i. fold tp_s. fold conf_s. fold pred_s.
    unfold per_class. unfold collect in Hrows, Hrows_t.
    rewrite Hrows, Hrows_t. cbn [rbind out_ap].
    split; [reflexivity|].
    rewrite Hp, Hr, Hap, Hf1.
    destruct (Plot.plot_pr_curve _ _ _ _ _ _) as [[]|e]; cbn [rbind];
      [|reflexivity].
    destruct (Plot.plot_mc_curve _ _ _ _ _) as [[]|e]; cbn [rbind];
      [|reflexivity].
    destruct (Plot.plot_mc_curve _ _ _ _ _) as [[]|e]; cbn [rbind];
      [|reflexivity].
    destruct (Plot.plot_mc_curve _ _ _ _ _) as [[]|e]; cbn [rbind]; reflexivity.
Qed.

(** Witness for C8 (amended): seaborn is not installed, and matplotlib
    cannot create a figure. *)
Lemma plotting_failures_witness :
  let bk := mk_backend (Raise ImportError) (Raise OSError) (Ok tt)
                       (fun _ => Ok tt) in
  ConfusionMatrixPlot.plot bk (ConfusionMatrix.default 2) ""%string = Ok tt /\
  returns (ap_per_class bk [[1]] [9 # 10] [0%Z] [0%Z] false ""%string []) /\
  ap_per_class bk [[1]] [9 # 10] [0%Z] [0%Z] true ""%string [] = Raise OSError.
Proof.
  cbv zeta.
  destruct (plotting_failures [[1]] [9 # 10] [0%Z] [0%Z] ""%string [])
    as [Hplot Hap].
  split.
  - apply Hplot. intros e H. vm_compute in H. inversion H. reflexivity.
  - destruct Hap as [o [py [p [r [f1 H]]]]].
    + discriminate.
    + repeat constructor.
    + reflexivity.
    + destruct (H (mk_backend (Raise ImportError) (Raise OSError) (Ok tt)
                              (fun _ => Ok tt))) as [Hfalse Htrue].
      split; [exists o; exact Hfalse|].
      rewrite Htrue. reflexivity.
Defined.

(** C8, the claim as worded, fails for [ap_per_class].  A validation set
    whose only class has no prediction: with [plot=True] the call raises
    [ValueError] from [np.stack] inside [plot_pr_curve], although the
    backend never fails, while with [plot=False] it returns.  And when
    writing the image fails with [OSError], [ap_per_class] with
    [plot=True] raises [OSError] instead of returning its results. *)
Lemma plotting_failures_counterexample :
  let bk_ok := mk_backend (Ok tt) (Ok tt) (Ok tt) (fun _ => Ok tt) in
  let bk_io := mk_backend (Ok tt) (Ok tt) (Ok tt) (fun _ => Raise OSError) in
  ap_per_class bk_ok [[]] [] [] [0%Z] true ""%string [] = Raise ValueError /\
  returns (ap_per_class bk_ok [[]] [] [] [0%Z] false ""%string []) /\
  ap_per_class bk_io [[1]] [9 # 10] [0%Z] [0%Z] true ""%string [] = Raise OSError /\
  returns (ap_per_class bk_io [[1]] [9 # 10] [0%Z] [0%Z] false ""%string []).
Proof.
  cbv zeta. split; [vm_compute; reflexivity|].
  split; [eexists; vm_compute; reflexivity|].
  split; [vm_compute; reflexivity|].
  eexists. vm_compute. reflexivity.
Qed.

End ApPerClassFacts.

(** ** Worked scenarios *)

Module Scenarios.

Local Open Scope Q_scope.

(** One label, one detection on the same box: one match of IoU 1 and one
    count at [matrix[0][0]]. *)
Example confusion_exact_box :
  ConfusionMatrix.process_batch General.box_iou (ConfusionMatrix.default 1)
    [[10; 10; 50; 50; 9 # 10; 0]] [[0; 10; 10; 50; 50]] =
  Ok (ConfusionMatrix.mk [[1; 0]; [0; 0]]%Z 1 (25 # 100) (45 # 100)).
Proof. vm_compute. reflexivity. Qed.

(** One label and no detection: one count in the background row. *)
Example confusion_missed_label :
  ConfusionMatrix.process_batch General.box_iou (ConfusionMatrix.default 1)
    [] [[0; 10; 10; 50; 50]] =
  Ok (ConfusionMatrix.mk [[0; 0]; [1; 0]]%Z 1 (25 # 100) (45 # 100)).
Proof. vm_compute. reflexivity. Qed.

(** A detection below the confidence cutoff is dropped before matching. *)
Example confusion_low_confidence :
  ConfusionMatrix.kept_detections (ConfusionMatrix.default 1)
    [[10; 10; 50; 50; 25 # 100; 0]; [10; 10; 50; 50; 26 # 100; 0]] =
  [[10; 10; 50; 50; 26 # 100; 0]].
Proof. vm_compute. reflexivity. Qed.

(** Two labels, two detections, every pair above the threshold: the first
    pass keeps the best row of each detection, both on label 0, and the
    second pass keeps the best row of label 0; label 1 stays unmatched. *)
Example dedup_two_by_two :
  Matcher.dedup [(0%nat, 0%nat, 1); (0%nat, 1%nat, 9 # 10);
                 (1%nat, 0%nat, 8 # 10); (1%nat, 1%nat, 7 # 10)] =
  [(0%nat, 0%nat, 1)].
Proof. vm_compute. reflexivity. Qed.

(** The envelope of a saw-tooth precision curve. *)
Example envelope_sawtooth :
  AP.envelope [1; 1 # 2; 3 # 4; 1 # 4; 1 # 2; 0] =
  [1; 3 # 4; 3 # 4; 1 # 2; 1 # 2; 0].
Proof. vm_compute. reflexivity. Qed.

(** [np.interp] on a repeated abscissa and outside the range. *)
Example interp_points :
  Np.interp [-(1); 0; 1 # 4; 1 # 2; 3 # 4; 1; 2] [0; 1 # 2; 1 # 2; 1]
            [0; 1; 2; 3] None None =
  Ok [0; 0; 2 # 4; 2; 20 # 8; 3; 3].
Proof. vm_compute. reflexivity. Qed.

(** The class-count table of [OD_AUCROC.__init__]. *)
Example init_class_counts :
  (exists e, OD_AUCROC.init 4 (1 # 2) 1 = Ok e /\ OD_AUCROC.malignant_cls_th e = 2) /\
  (exists e, OD_AUCROC.init 2 (1 # 2) 1 = Ok e /\ OD_AUCROC.malignant_cls_th e = 1) /\
  (exists e, OD_AUCROC.init 1 (1 # 2) 1 = Ok e /\ OD_AUCROC.malignant_cls_th e = 0) /\
  OD_AUCROC.init 3 (1 # 2) 1 = Raise ValueError.
Proof. repeat split; eexists; split; reflexivity. Qed.

(** A 16-bit index column wraps beyond 32767. *)
Example int16_wraps :
  Py.astype_int16 32767 = 32767%Z /\ Py.astype_int16 32768 = (-32768)%Z.
Proof. split; reflexivity. Qed.

End Scenarios.

(* ===================================================================== *)
(** * Further properties of the code                                      *)
(* ===================================================================== *)

(** ** The two-pass resolution of [ConfusionMatrix.process_batch] *)

Module ResolutionFacts.

Import Matcher.

Local Open Scope Q_scope.

(** *** Lists without repetition *)

Lemma NoDup_map_on {A B : Type} (f : A -> B) (l : list A) :
  NoDup l ->
  (forall a b, In a l -> In b l -> f a = f b -> a = b) ->
  NoDup (map f l).
Proof.
  induction 1 as [|x l Hx Hl IH]; intros Hinj; simpl; constructor.
  - intros Hin. apply in_map_iff in Hin. destruct Hin as [y [Hy Hyl]].
    assert (y = x).
    { apply Hinj; [now right | now left | exact Hy]. }
    subst y. contradiction.
  - apply IH. intros a b Ha Hb. apply Hinj; now right.
Qed.

Lemma NoDup_map_injective_on {A B : Type} (f : A -> B) (l : list A) :
  NoDup (map f l) ->
  forall a b, In a l -> In b l -> f a = f b -> a = b.
Proof.
  induction l as [|x l IH]; intros Hnd a b Ha Hb Hab; [contradiction|].
  simpl in Hnd. inversion Hnd as [|? ? Hx Hl]; subst.
  destruct Ha as [<-|Ha], Hb as [<-|Hb].
  - reflexivity.
  - exfalso. apply Hx. rewrite Hab. now apply in_map.
  - exfalso. apply Hx. rewrite <- Hab. now apply in_map.
  - now apply IH.
Qed.

Lemma NoDup_of_map {A B : Type} (f : A -> B) (l : list A) :
  NoDup (map f l) -> NoDup l.
Proof.
  induction l as [|x l IH]; intros H; [constructor|].
  simpl in H. inversion H as [|? ? Hx Hl]; subst. constructor.
  - intros Hin. apply Hx. now apply in_map.
  - now apply IH.
Qed.

(** *** [np.unique] on an index column *)

Lemma In_insert_key (k x : nat) (l : list nat) :
  In x (insert_key k l) <-> x = k \/ In x l.
Proof.
  induction l as [|h l IH]; simpl.
  - intuition.
  - destruct (Nat.ltb k h); simpl; [intuition|].
    destruct (Nat.eqb k h) eqn:E; simpl.
    + apply Nat.eqb_eq in E. subst. intuition.
    + rewrite IH. intuition.
Qed.

Lemma insert_key_sorted (k : nat) (l : list nat) :
  StronglySorted lt l -> StronglySorted lt (insert_key k l).
Proof.
  induction 1 as [|h l Hs IH Hh]; simpl.
  - constructor; constructor.
  - destruct (Nat.ltb_spec k h).
    + constructor; [constructor; assumption|].
      constructor; [assumption|].
      eapply List.Forall_impl; [|exact Hh]. simpl. lia.
    + destruct (Nat.eqb_spec k h).
      * constructor; assumption.
      * constructor; [exact IH|].
        apply List.Forall_forall. intros x Hx.
        apply (proj1 (In_insert_key _ _ _)) in Hx.
        destruct Hx as [->|Hx]; [lia|].
        rewrite List.Forall_forall in Hh. now apply Hh.
Qed.

Lemma unique_keys_sorted (keys : list nat) :
  StronglySorted lt (unique_keys keys).
Proof.
  unfold unique_keys. induction keys as [|k keys IH]; simpl.
  - constructor.
  - now apply insert_key_sorted.
Qed.

Lemma In_unique_keys (keys : list nat) (x : nat) :
  In x (unique_keys keys) <-> In x keys.
Proof.
  unfold unique_keys. induction keys as [|k keys IH]; simpl; [tauto|].
  rewrite In_insert_key, IH. intuition.
Qed.

Lemma sorted_lt_NoDup (l : list nat) : StronglySorted lt l -> NoDup l.
Proof.
  induction 1 as [|h l Hs IH Hh]; constructor; [|exact IH].
  intros Hin. rewrite List.Forall_forall in Hh. specialize (Hh h Hin). lia.
Qed.

(** [unique_first] keeps exactly one row for every value of the column. *)
Lemma unique_first_keys (key : match_row -> nat) (l : list match_row) :
  map key (unique_first key l) = unique_keys (map key l).
Proof.
  unfold unique_first.
  assert (H : forall ks, (forall k, In k ks -> In k (map key l)) ->
                map key (flat_map (first_with key l) ks) = ks).
  { induction ks as [|k ks IH]; intros Hks; [reflexivity|].
    cbn [flat_map]. rewrite map_app, IH by (intros; apply Hks; now right).
    unfold first_with.
    destruct (find (fun m => Nat.eqb (key m) k) l) as [m|] eqn:E.
    - apply find_some in E. destruct E as [_ E]. apply Nat.eqb_eq in E.
      simpl. now rewrite E.
    - exfalso. specialize (Hks k (or_introl eq_refl)).
      apply in_map_iff in Hks. destruct Hks as [m [Hm Hin]].
      pose proof (find_none _ _ E m Hin) as Hn. simpl in Hn.
      rewrite Hm, Nat.eqb_refl in Hn. discriminate. }
  apply H. intros k Hk. exact (proj1 (In_unique_keys _ _) Hk).
Qed.

Lemma unique_first_NoDup (key : match_row -> nat) (l : list match_row) :
  NoDup (map key (unique_first key l)).
Proof.
  rewrite unique_first_keys. apply sorted_lt_NoDup, unique_keys_sorted.
Qed.

(** A row kept by [unique_first] is the first of the input with its key. *)
Lemma unique_first_head (key : match_row -> nat) (m : match_row)
    (l : list match_row) :
  In m (unique_first key (m :: l)).
Proof.
  unfold unique_first. apply in_flat_map. exists (key m). split.
  - apply In_unique_keys. now left.
  - unfold first_with. simpl. rewrite Nat.eqb_refl. now left.
Qed.

(** *** The sort on the IoU column *)

Lemma insert_by_iou_perm (x : match_row) (l : list match_row) :
  Permutation (insert_by_iou x l) (x :: l).
Proof.
  induction l as [|h l IH]; simpl; [reflexivity|].
  destruct (Qle_bool (m_iou x) (m_iou h)); [reflexivity|].
  rewrite IH. apply perm_swap.
Qed.

Lemma sort_by_iou_perm (l : list match_row) : Permutation (sort_by_iou l) l.
Proof.
  unfold sort_by_iou. induction l as [|x l IH]; simpl; [reflexivity|].
  rewrite insert_by_iou_perm. now constructor.
Qed.

Lemma by_descending_iou_perm (l : list match_row) :
  Permutation (by_descending_iou l) l.
Proof.
  unfold by_descending_iou. rewrite <- Permutation_rev. apply sort_by_iou_perm.
Qed.

Lemma insert_by_iou_sorted (x : match_row) (l : list match_row) :
  StronglySorted (fun a b => m_iou a <= m_iou b) l ->
  StronglySorted (fun a b => m_iou a <= m_iou b) (insert_by_iou x l).
Proof.
  induction 1 as [|h l Hs IH Hh]; simpl.
  - constructor; constructor.
  - destruct (Qle_bool (m_iou x) (m_iou h)) eqn:E.
    + apply Qle_bool_iff in E.
      constructor; [constructor; assumption|].
      constructor; [exact E|].
      eapply List.Forall_impl; [|exact Hh].
      simpl. intros a Ha. eapply Qle_trans; eassumption.
    + assert (Hlt : m_iou h < m_iou x).
      { apply Qnot_le_lt. intros Hle. apply Qle_bool_iff in Hle. congruence. }
      constructor; [exact IH|].
      apply List.Forall_forall. intros a Ha.
      apply (proj1 (MatcherFacts.In_insert_by_iou _ _ _)) in Ha.
      destruct Ha as [->|Ha].
      * now apply Qlt_le_weak.
      * rewrite List.Forall_forall in Hh. now apply Hh.
Qed.

Lemma sort_by_iou_sorted (l : list match_row) :
  StronglySorted (fun a b => m_iou a <= m_iou b) (sort_by_iou l).
Proof.
  unfold sort_by_iou. induction l as [|x l IH]; simpl.
  - constructor.
  - now apply insert_by_iou_sorted.
Qed.

Lemma by_descending_iou_sorted (l : list match_row) :
  StronglySorted (fun a b => m_iou b <= m_iou a) (by_descending_iou l).
Proof.
  unfold by_descending_iou.
  apply (StronglySorted_rev_flip (fun a b => m_iou a <= m_iou b)).
  apply sort_by_iou_sorted.
Qed.

(** A row that beats every other row of the list comes first. *)
Lemma by_descending_iou_head (m : match_row) (l : list match_row) :
  In m l ->
  (forall m', In m' l -> m' = m \/ m_iou m' < m_iou m) ->
  exists rest, by_descending_iou l = m :: rest.
Proof.
  intros Hin Hbest.
  pose proof (by_descending_iou_sorted l) as Hs.
  assert (Hm : In m (by_descending_iou l))
    by exact (proj2 (MatcherFacts.In_by_descending_iou _ _) Hin).
  destruct (by_descending_iou l) as [|h rest] eqn:E; [contradiction|].
  assert (Hh : In h l).
  { apply (proj1 (MatcherFacts.In_by_descending_iou _ _)). rewrite E. now left. }
  destruct (Hbest h Hh) as [->|Hlt]; [now exists rest|].
  exfalso. destruct Hm as [->|Hm].
  - exact (Qlt_irrefl _ Hlt).
  - inversion Hs as [|? ? _ Hall]; subst.
    rewrite List.Forall_forall in Hall. specialize (Hall m Hm).
    exact (Qlt_not_le _ _ Hlt Hall).
Qed.

(** *** The resolution *)

Lemma dedup_one_to_one (l : list match_row) :
  (1 < length l)%nat ->
  NoDup (map m_label (dedup l)) /\ NoDup (map m_det (dedup l)).
Proof.
  intros Hlen. unfold dedup.
  destruct (Nat.ltb_spec 1 (length l)); [|lia].
  split; [apply unique_first_NoDup|].
  set (l1 := unique_first m_det (by_descending_iou l)).
  set (l2 := by_descending_iou l1).
  assert (Hd2 : NoDup (map m_det l2)).
  { eapply Permutation_NoDup.
    - apply Permutation_map. symmetry. apply by_descending_iou_perm.
    - apply unique_first_NoDup. }
  apply NoDup_map_on.
  - apply (NoDup_of_map m_label). apply unique_first_NoDup.
  - intros a b Ha Hb. apply (NoDup_map_injective_on m_det l2 Hd2);
      now apply (MatcherFacts.In_unique_first m_label).
Qed.

Lemma dedup_keeps_best (m : match_row) (l : list match_row) :
  In m l ->
  (forall m', In m' l -> m' = m \/ m_iou m' < m_iou m) ->
  In m (dedup l).
Proof.
  intros Hin Hbest. unfold dedup.
  destruct (Nat.ltb 1 (length l)); [|exact Hin].
  destruct (by_descending_iou_head m l Hin Hbest) as [rest1 E1].
  rewrite E1.
  set (l1 := unique_first m_det (m :: rest1)).
  assert (Hin1 : In m l1) by apply unique_first_head.
  assert (Hbest1 : forall m', In m' l1 -> m' = m \/ m_iou m' < m_iou m).
  { intros m' Hm'. apply Hbest.
    apply MatcherFacts.In_unique_first in Hm'. rewrite <- E1 in Hm'.
    exact (proj1 (MatcherFacts.In_by_descending_iou _ _) Hm'). }
  destruct (by_descending_iou_head m l1 Hin1 Hbest1) as [rest2 E2].
  rewrite E2. apply unique_first_head.
Qed.

Lemma short_NoDup {A : Type} (l : list A) :
  (length l <= 1)%nat -> NoDup l.
Proof.
  destruct l as [|x [|y l]]; simpl; intros H; try lia.
  - constructor.
  - constructor; [intros [] | constructor].
Qed.

Section Resolution.

Variable box_iou : tensor -> tensor -> tensor.

(** X1.  The matches of [ConfusionMatrix.process_batch] are one-to-one:
    no label index and no detection index occurs in two rows. *)
Theorem confusion_matches_one_to_one
    (self : ConfusionMatrix.t) (detections labels : tensor) :
  NoDup (map m_label (ConfusionMatrix.matches_of box_iou self detections labels)) /\
  NoDup (map m_det (ConfusionMatrix.matches_of box_iou self detections labels)).
Proof.
  unfold ConfusionMatrix.matches_of.
  set (x := candidates _ _).
  destruct (Nat.ltb 0 (length x)); [|split; constructor].
  destruct (Nat.ltb_spec 1 (length x)) as [H|H].
  - now apply dedup_one_to_one.
  - unfold dedup. destruct (Nat.ltb_spec 1 (length x)); [lia|].
    split; apply short_NoDup; now rewrite length_map.
Qed.

(** X2.  The resolution is greedy on the IoU: a candidate pair whose IoU
    is strictly larger than that of every other candidate pair of the
    image is always among the matches. *)
Theorem confusion_best_pair_matched
    (self : ConfusionMatrix.t) (detections labels : tensor) (m : match_row) :
  let x := candidates
             (box_iou (Tensor.cols_from 1 labels) (Tensor.cols_to 4 detections))
             (ConfusionMatrix.iou_thres self) in
  In m x ->
  (forall m', In m' x -> m' = m \/ m_iou m' < m_iou m) ->
  In m (ConfusionMatrix.matches_of box_iou self detections labels).
Proof.
  intros x Hin Hbest. unfold ConfusionMatrix.matches_of. fold x.
  destruct (Nat.ltb_spec 0 (length x)) as [H|H].
  - now apply dedup_keeps_best.
  - destruct x; [contradiction | simpl in H; lia].
Qed.

End Resolution.

(** Witness for X2: two labels and two detections; the pair (0, 0) has
    IoU 1 and every other pair less. *)
Lemma confusion_best_pair_matched_witness :
  In (0%nat, 0%nat, 1)
     (ConfusionMatrix.matches_of General.box_iou (ConfusionMatrix.default 2)
        [[10; 10; 50; 50; 9 # 10; 0]; [10; 10; 50; 48; 8 # 10; 1]]
        [[0; 10; 10; 50; 50]; [1; 10; 10; 50; 49]]).
Proof.
  apply (confusion_best_pair_matched General.box_iou (ConfusionMatrix.default 2)
           [[10; 10; 50; 50; 9 # 10; 0]; [10; 10; 50; 48; 8 # 10; 1]]
           [[0; 10; 10; 50; 50]; [1; 10; 10; 50; 49]]).
  - vm_compute. now left.
  - vm_compute. intros m' H.
    repeat (destruct H as [<-|H]; [first [now left | right; reflexivity]|]).
    contradiction.
Defined.

End ResolutionFacts.

(** ** [ConfusionMatrix.process_batch]: what a call changes *)

Module ConfusionMatrixMore.

Import ConfusionMatrix ConfusionMatrixTerms.

Lemma nth_insert {A : Type} (l : list A) (x d : A) :
  forall k i,
    nth i (<[k := x]> l) d =
    if Nat.eqb i k && Nat.ltb k (length l) then x else nth i l d.
Proof.
  induction l as [|a l IH]; intros k i.
  - simpl. rewrite andb_false_r. reflexivity.
  - destruct k as [|k], i as [|i]; simpl; try reflexivity.
    rewrite IH. reflexivity.
Qed.

Lemma map_length_insert (m : list (list Z)) :
  forall i row row',
    nth_error m i = Some row -> length row' = length row ->
    map (@length Z) (<[i := row']> m) = map (@length Z) m.
Proof.
  induction m as [|a m IH]; intros i row row' H Hlen.
  - destruct i; discriminate.
  - destruct i as [|i]; simpl in *.
    + inversion H; subst. now rewrite Hlen.
    + f_equal. eapply IH; eassumption.
Qed.

(** One increment: the cell it adds to, and the shape it keeps. *)
Lemma incr_cells (m m' : list (list Z)) (r c : Z) :
  incr m r c = Ok m' ->
  map (@length Z) m' = map (@length Z) m /\
  exists i0 j0,
    Py.norm_index (length m) r = Ok i0 /\
    (i0 < length m)%nat /\
    Py.norm_index (length (nth i0 m [])) c = Ok j0 /\
    forall i j,
      cell m' i j =
      (cell m i j + (if Nat.eqb i i0 && Nat.eqb j j0 then 1 else 0))%Z.
Proof.
  unfold incr. intros H.
  apply rbind_Ok_inv in H. destruct H as [i0 [Hi0 H]].
  destruct (nth_error m i0) as [row|] eqn:Hrow; [|discriminate].
  apply rbind_Ok_inv in H. destruct H as [j0 [Hj0 H]].
  destruct (nth_error row j0) as [v|] eqn:Hv; [|discriminate].
  inversion H; subst m'. clear H.
  assert (Hlt : (i0 < length m)%nat) by (apply nth_error_Some; congruence).
  assert (Hlt' : (j0 < length row)%nat) by (apply nth_error_Some; congruence).
  assert (Hnrow : nth i0 m [] = row) by (now apply nth_error_nth).
  assert (Hnv : nth j0 row 0%Z = v) by (now apply nth_error_nth).
  split.
  - eapply map_length_insert; [exact Hrow | now rewrite length_insert].
  - exists i0, j0. rewrite Hnrow. repeat split; try assumption.
    intros i j. unfold cell. rewrite nth_insert.
    destruct (Nat.eqb_spec i i0) as [->|Hne]; cbn [andb].
    + destruct (Nat.ltb_spec i0 (length m)); [|lia].
      rewrite nth_insert, Hnrow.
      destruct (Nat.eqb_spec j j0) as [->|Hne']; cbn [andb].
      * destruct (Nat.ltb_spec j0 (length row)); [|lia]. lia.
      * lia.
    + lia.
Qed.

(** A state reached by returning iterations keeps what every iteration
    keeps. *)
Lemma for_each_preserves {A S : Type} (Inv : S -> Prop)
    (body : S -> A -> result S) :
  (forall s a s', Inv s -> body s a = Ok s' -> Inv s') ->
  forall l s s', Inv s -> Py.for_each body s l = Ok s' -> Inv s'.
Proof.
  intros Hbody. induction l as [|a l IH]; intros s s' Hs H; simpl in H.
  - inversion H; subst. exact Hs.
  - apply rbind_Ok_inv in H. destruct H as [s1 [H1 H2]].
    eapply IH; [|exact H2]. eapply Hbody; eassumption.
Qed.

Lemma grown_from_refl (m : list (list Z)) : grown_from m m.
Proof.
  split; [reflexivity | intros; lia].
Qed.

Lemma incr_grown (m0 m m' : list (list Z)) (r c : Z) :
  grown_from m0 m -> incr m r c = Ok m' -> grown_from m0 m'.
Proof.
  intros [Hshape Hle] H.
  destruct (incr_cells _ _ _ _ H) as [Hs [i0 [j0 [_ [_ [_ Hcells]]]]]].
  split; [congruence|].
  intros i j. rewrite Hcells. specialize (Hle i j).
  destruct (Nat.eqb i i0 && Nat.eqb j j0); lia.
Qed.

Section Changes.

Variable box_iou : tensor -> tensor -> tensor.

Lemma label_step_grown (self : t) (n : bool) (m0 m1 dcs : list Z)
    (start mat mat' : list (list Z)) (igc : nat * Z) :
  grown_from start mat ->
  label_step self n m0 m1 dcs mat igc = Ok mat' ->
  grown_from start mat'.
Proof.
  intros Hg. unfold label_step.
  destruct (n && Nat.eqb (Matcher.count_true (Matcher.eq_mask m0 (fst igc))) 1).
  - intros H. apply rbind_Ok_inv in H. destruct H as [l [_ H]].
    destruct l as [|dc [|? ?]]; try discriminate.
    eapply incr_grown; eassumption.
  - apply incr_grown. exact Hg.
Qed.

Lemma detection_step_grown (self : t) (m1 : list Z)
    (start mat mat' : list (list Z)) (idc : nat * Z) :
  grown_from start mat ->
  detection_step self m1 mat idc = Ok mat' ->
  grown_from start mat'.
Proof.
  intros Hg. unfold detection_step.
  destruct (negb (Matcher.any (Matcher.eq_mask m1 (fst idc)))).
  - apply incr_grown. exact Hg.
  - intros H. inversion H; subst. exact Hg.
Qed.

(** X3.  A returning call of [ConfusionMatrix.process_batch] only adds
    counts: the class count and the two thresholds are kept, the matrix
    keeps its shape, and no counter decreases. *)
Theorem process_batch_only_adds
    (self cm' : t) (detections labels : tensor) :
  process_batch box_iou self detections labels = Ok cm' ->
  nc cm' = nc self /\ conf cm' = conf self /\ iou_thres cm' = iou_thres self /\
  map (@length Z) (matrix cm') = map (@length Z) (matrix self) /\
  forall i j, (cell (matrix self) i j <= cell (matrix cm') i j)%Z.
Proof.
  unfold process_batch. intros H.
  apply rbind_Ok_inv in H. destruct H as [mat [Hlab H]].
  apply rbind_Ok_inv in H. destruct H as [mat2 [Hdet H]].
  inversion H; subst cm'. cbn [nc conf iou_thres matrix].
  assert (H1 : grown_from (matrix self) mat).
  { eapply (for_each_preserves (grown_from (matrix self)));
      [|apply grown_from_refl|exact Hlab].
    intros s a s' Hs Hstep. eapply label_step_grown; eassumption. }
  assert (H2 : grown_from (matrix self) mat2).
  { destruct (Nat.ltb 0 (length _)) in Hdet.
    - eapply (for_each_preserves (grown_from (matrix self)));
        [|exact H1|exact Hdet].
      intros s a s' Hs Hstep. eapply detection_step_grown; eassumption.
    - inversion Hdet; subst. exact H1. }
  destruct H2 as [Hshape Hle]. repeat split; assumption.
Qed.

(** X4.  An image without labels leaves the matrix as it is, whatever its
    detections: with no label there is no match, and the detections are
    visited only when there is one. *)
Theorem process_batch_without_labels (self : t) (detections : tensor) :
  box_iou (Tensor.cols_from 1 [])
          (Tensor.cols_to 4 (kept_detections self detections)) = [] ->
  process_batch box_iou self detections [] = Ok self.
Proof.
  intros Hiou. unfold process_batch, matches_of. rewrite Hiou.
  simpl. destruct self. reflexivity.
Qed.

Lemma select_filter {A : Type} (P : A -> bool) (l : list A) :
  Py.select (map P l) l = List.filter P l.
Proof.
  induction l as [|a l IH]; [reflexivity|].
  simpl. rewrite IH. reflexivity.
Qed.

Lemma kept_detections_filter (self : t) (detections : tensor) :
  kept_detections self detections =
  List.filter (fun d => Py.Qgt_bool (nth 4 d 0%Q) (conf self)) detections.
Proof.
  unfold kept_detections, Tensor.col. rewrite map_map.
  apply (select_filter (fun d => Py.Qgt_bool (nth 4 d 0%Q) (conf self))).
Qed.

Lemma filter_idem {A : Type} (P : A -> bool) (l : list A) :
  List.filter P (List.filter P l) = List.filter P l.
Proof.
  induction l as [|a l IH]; [reflexivity|].
  simpl. destruct (P a) eqn:E; simpl; rewrite ?E, IH; reflexivity.
Qed.

(** X5.  The confidence cutoff is strict and final: the detections used
    are exactly those whose confidence is strictly greater than [conf],
    and a call on all the detections equals the call on the kept ones. *)
Theorem process_batch_confidence_cutoff
    (self : t) (detections labels : tensor) :
  (forall d, In d (kept_detections self detections) <->
             In d detections /\ (conf self < nth 4 d 0)%Q) /\
  process_batch box_iou self (kept_detections self detections) labels =
  process_batch box_iou self detections labels.
Proof.
  split.
  - intros d. rewrite kept_detections_filter, filter_In, Qgt_bool_iff. tauto.
  - unfold process_batch.
    replace (kept_detections self (kept_detections self detections))
      with (kept_detections self detections); [reflexivity|].
    rewrite !kept_detections_filter. symmetry. apply filter_idem.
Qed.

End Changes.

(** *** Missed labels *)

Lemma for_each_enumerate {A S : Type} (g : S -> A -> result S) (l : list A) :
  forall k s,
    Py.for_each (fun s (ia : nat * A) => g s (snd ia)) s
                (combine (seq k (length l)) l) =
    Py.for_each g s l.
Proof.
  induction l as [|a l IH]; intros k s; [reflexivity|].
  cbn [length seq combine Py.for_each snd].
  destruct (g s a); cbn [rbind]; [apply IH | reflexivity].
Qed.

Lemma for_each_ext {A S : Type} (f g : S -> A -> result S) (l : list A) :
  (forall s a, f s a = g s a) ->
  forall s, Py.for_each f s l = Py.for_each g s l.
Proof.
  intros H. induction l as [|a l IH]; intros s; [reflexivity|].
  simpl. rewrite H. destruct (g s a); cbn [rbind]; [apply IH | reflexivity].
Qed.

Lemma occurrences_cons (c x : Z) (l : list Z) :
  occurrences c (x :: l) = ((if Z.eqb c x then 1 else 0) + occurrences c l)%Z.
Proof.
  unfold occurrences. simpl. destruct (Z.eqb c x); simpl length; lia.
Qed.

(** Charging a list of classes to one row of a square matrix. *)
Lemma charge_row (k : nat) (r : nat) (gcs : list Z) :
  (r < k)%nat ->
  List.Forall (fun gc => (0 <= gc < Z.of_nat k)%Z) gcs ->
  forall m, square k m ->
    exists m',
      Py.for_each (fun mat gc => incr mat (Z.of_nat r) gc) m gcs = Ok m' /\
      square k m' /\
      forall i j,
        cell m' i j =
        (cell m i j +
         (if Nat.eqb i r then occurrences (Z.of_nat j) gcs else 0))%Z.
Proof.
  intros Hr. induction 1 as [|gc gcs Hgc Hgcs IH]; intros m Hsq.
  - exists m. split; [reflexivity|]. split; [exact Hsq|].
    intros i j. unfold occurrences. simpl. destruct (Nat.eqb i r); lia.
  - cbn [Py.for_each].
    destruct (ConfusionMatrixFacts.incr_returns k m (Z.of_nat r) gc Hsq)
      as [m1 [Hm1 Hsq1]]; [lia | exact Hgc |].
    rewrite Hm1. cbn [rbind].
    destruct (IH m1 Hsq1) as [m' [Hm' [Hsq' Hcells']]].
    exists m'. split; [exact Hm'|]. split; [exact Hsq'|].
    destruct (incr_cells _ _ _ _ Hm1) as [_ [i0 [j0 [Hi0 [Hlt [Hj0 Hc1]]]]]].
    destruct Hsq as [Hlen Hrows].
    rewrite Hlen, ConfusionMatrixFacts.norm_index_nonneg in Hi0 by lia.
    inversion Hi0; subst i0. clear Hi0.
    assert (Hrl : length (nth (Z.to_nat (Z.of_nat r)) m []) = k).
    { rewrite List.Forall_forall in Hrows. apply Hrows. apply nth_In. lia. }
    rewrite Hrl, ConfusionMatrixFacts.norm_index_nonneg in Hj0 by exact Hgc.
    inversion Hj0; subst j0. clear Hj0.
    intros i j. rewrite Hcells', Hc1, occurrences_cons, Nat2Z.id.
    destruct (Nat.eqb_spec i r) as [->|Hne]; cbn [andb]; [|lia].
    destruct (Nat.eqb_spec j (Z.to_nat gc)) as [->|Hne'].
    + rewrite Z2Nat.id by lia. rewrite Z.eqb_refl. lia.
    + destruct (Z.eqb_spec (Z.of_nat j) gc) as [E|E]; [|lia].
      exfalso. apply Hne'. subst gc. now rewrite Nat2Z.id.
Qed.

Section Missed.

Variable box_iou : tensor -> tensor -> tensor.

(** X6.  When no pair of the image is matched, every label is charged to
    the background row: on a square matrix with class ids below [nc], the
    call returns, the counter [matrix[nc][c]] grows by the number of
    labels of class [c], and every counter outside the background row is
    unchanged. *)
Theorem process_batch_all_missed (self : t) (detections labels : tensor) :
  let gt_classes := map Py.int (Tensor.col 0 labels) in
  matches_of box_iou self (kept_detections self detections) labels = [] ->
  square (nc self + 1) (matrix self) ->
  List.Forall (class_below (nc self)) gt_classes ->
  exists cm',
    process_batch box_iou self detections labels = Ok cm' /\
    forall i j,
      cell (matrix cm') i j =
      (cell (matrix self) i j +
       (if Nat.eqb i (nc self) then occurrences (Z.of_nat j) gt_classes else 0))%Z.
Proof.
  intros gt_classes Hm Hsq Hgt. unfold process_batch. rewrite Hm.
  fold gt_classes. cbn [length Nat.ltb Nat.leb].
  unfold Py.enumerate.
  rewrite (for_each_ext _
             (fun s (ia : nat * Z) => incr s (Z.of_nat (nc self)) (snd ia)))
    by reflexivity.
  rewrite (for_each_enumerate (fun s gc => incr s (Z.of_nat (nc self)) gc)).
  destruct (charge_row (nc self + 1) (nc self) gt_classes) with (m := matrix self)
    as [m' [Hm' [_ Hcells]]].
  - lia.
  - eapply List.Forall_impl; [|exact Hgt]. unfold class_below. simpl. lia.
  - exact Hsq.
  - rewrite Hm'. cbn [rbind]. eexists. split; [reflexivity|]. exact Hcells.
Qed.

End Missed.

(** Witness for X3: the matched, the confused and the spurious. *)
Lemma process_batch_only_adds_witness :
  exists cm',
    process_batch General.box_iou (default 2)
      [[10; 10; 50; 50; 9 # 10; 0]; [200; 200; 210; 210; 9 # 10; 1]]%Q
      [[0; 10; 10; 50; 50]]%Q = Ok cm' /\
    nc cm' = 2%nat /\
    map (@length Z) (matrix cm') = [3; 3]%nat ++ [3%nat].
Proof.
  assert (H : exists cm',
             process_batch General.box_iou (default 2)
               [[10; 10; 50; 50; 9 # 10; 0]; [200; 200; 210; 210; 9 # 10; 1]]%Q
               [[0; 10; 10; 50; 50]]%Q = Ok cm')
    by (eexists; vm_compute; reflexivity).
  destruct H as [cm' H]. exists cm'. split; [exact H|].
  destruct (process_batch_only_adds General.box_iou _ _ _ _ H)
    as [Hnc [_ [_ [Hshape _]]]].
  split; [exact Hnc | exact Hshape].
Defined.

(** Witness for X4: three detections and no label. *)
Lemma process_batch_without_labels_witness :
  process_batch General.box_iou (default 2)
    [[10; 10; 50; 50; 9 # 10; 0]; [20; 20; 60; 60; 8 # 10; 1];
     [200; 200; 210; 210; 9 # 10; 1]]%Q [] = Ok (default 2).
Proof.
  apply process_batch_without_labels. reflexivity.
Defined.

(** Witness for X6: two labels of class 1 and a far-away detection. *)
Lemma process_batch_all_missed_witness :
  exists cm',
    process_batch General.box_iou (default 2)
      [[200; 200; 210; 210; 9 # 10; 1]]%Q
      [[1; 10; 10; 50; 50]; [1; 60; 60; 90; 90]]%Q = Ok cm' /\
    cell (matrix cm') 2 1 = 2%Z /\ cell (matrix cm') 1 2 = 0%Z.
Proof.
  destruct (process_batch_all_missed General.box_iou (default 2)
              [[200; 200; 210; 210; 9 # 10; 1]]%Q
              [[1; 10; 10; 50; 50]; [1; 60; 60; 90; 90]]%Q)
    as [cm' [Hok Hcells]].
  - vm_compute. reflexivity.
  - vm_compute. repeat constructor.
  - vm_compute. repeat constructor; discriminate.
  - exists cm'. split; [exact Hok|].
    split; rewrite Hcells; vm_compute; reflexivity.
Defined.

End ConfusionMatrixMore.

(** ** [compute_ap]: domain and envelope *)

Module APMore.

Local Open Scope Q_scope.

(** X7.  [compute_ap] returns exactly when the recall array is non-empty
    and the precision array has its length: an empty recall raises
    [IndexError] (from [recall[-1]]), a precision array of another length
    raises [ValueError] (from [np.interp]). *)
Theorem compute_ap_domain (recall precision : list Q) :
  (recall = [] -> AP.compute_ap recall precision = Raise IndexError) /\
  (recall <> [] -> length precision <> length recall ->
   AP.compute_ap recall precision = Raise ValueError) /\
  (recall <> [] -> length precision = length recall ->
   exists ap mpre mrec,
     AP.compute_ap recall precision = Ok (ap, mpre, mrec) /\
     length mpre = (length recall + 2)%nat /\
     length mrec = (length recall + 2)%nat).
Proof.
  split; [|split].
  - intros ->. reflexivity.
  - intros Hne Hlen. unfold AP.compute_ap.
    destruct (APFacts.last_item_nonempty recall Hne) as [r_last ->].
    cbn [rbind]. unfold Np.interp.
    destruct (APFacts.envelope_padded precision) as [m [body [Henv [Hbody _]]]].
    rewrite Henv. cbn [app].
    replace (Nat.eqb (length (0 :: recall ++ [r_last + (1 # 100)]))
                     (length (Qmax m 1 :: body ++ [0]))) with false.
    + reflexivity.
    + symmetry. apply Nat.eqb_neq. cbn [length].
      rewrite !length_app. cbn [length]. lia.
  - intros Hne Hlen.
    destruct (APFacts.compute_ap_returns recall precision Hne Hlen)
      as [[[ap mpre] mrec] H].
    exists ap, mpre, mrec. split; [exact H|].
    destruct (APFacts.compute_ap_Ok _ _ _ _ _ H) as [rl [_ [Hmrec [Hmpre Hl]]]].
    assert (Hm : length mrec = (length recall + 2)%nat).
    { subst mrec. cbn [app length]. rewrite length_app. cbn [length]. lia. }
    split; [congruence | exact Hm].
Qed.

(** Witness for X7: one recall point, two precision points. *)
Lemma compute_ap_domain_witness :
  AP.compute_ap [1 # 2] [1; 1 # 2] = Raise ValueError.
Proof.
  apply (proj1 (proj2 (compute_ap_domain [1 # 2] [1; 1 # 2]))).
  - discriminate.
  - discriminate.
Defined.

(** *** The running maximum *)

Lemma Qmax_cases (a b : Q) : Qmax a b = a \/ Qmax a b = b.
Proof.
  unfold Qmax, GenericMinMax.gmax. destruct (a ?= b); auto.
Qed.

(** Every entry of [accumulate_from acc a] is at least [acc] and at least
    every entry of [a] up to its index, and is one of them. *)
Lemma accumulate_from_prefix (a : list Q) :
  forall acc j, (j < length a)%nat ->
    (forall k, (k <= j)%nat -> nth k a 0 <= nth j (Np.accumulate_from acc a) 0) /\
    (nth j (Np.accumulate_from acc a) 0 = acc \/
     exists k, (k <= j)%nat /\ nth j (Np.accumulate_from acc a) 0 = nth k a 0).
Proof.
  induction a as [|x a IH]; intros acc j Hj; simpl in Hj; [lia|].
  cbn [Np.accumulate_from].
  destruct j as [|j].
  - cbn [nth]. split.
    + intros k Hk. replace k with 0%nat by lia. apply Q.le_max_r.
    + destruct (Qmax_cases acc x) as [E|E]; rewrite E; [now left|].
      right. exists 0%nat. split; [lia | reflexivity].
  - cbn [nth]. destruct (IH (Qmax acc x) j) as [Hdom Hatt]; [lia|]. split.
    + intros k Hk. destruct k as [|k].
      * cbn [nth]. eapply Qle_trans; [apply Q.le_max_r|].
        pose proof (APFacts.accumulate_from_ge a (Qmax acc x)) as Hge.
        rewrite List.Forall_forall in Hge. apply Hge. apply nth_In.
        rewrite APFacts.accumulate_from_length. lia.
      * cbn [nth]. apply Hdom. lia.
    + destruct Hatt as [E|[k [Hk E]]].
      * rewrite E. destruct (Qmax_cases acc x) as [E'|E']; rewrite E'.
        -- now left.
        -- right. exists 0%nat. split; [lia | reflexivity].
      * right. exists (S k). split; [lia | exact E].
Qed.

Lemma maximum_accumulate_prefix (a : list Q) (j : nat) :
  (j < length a)%nat ->
  (forall k, (k <= j)%nat -> nth k a 0 <= nth j (Np.maximum_accumulate a) 0) /\
  (exists k, (k <= j)%nat /\ nth j (Np.maximum_accumulate a) 0 = nth k a 0).
Proof.
  destruct a as [|x a]; simpl length; intros Hj; [lia|].
  cbn [Np.maximum_accumulate]. destruct j as [|j].
  - cbn [nth]. split.
    + intros k Hk. replace k with 0%nat by lia. apply Qle_refl.
    + exists 0%nat. split; [lia | reflexivity].
  - cbn [nth]. destruct (accumulate_from_prefix a x j) as [Hdom Hatt]; [lia|].
    split.
    + intros k Hk. destruct k as [|k]; cbn [nth].
      * pose proof (APFacts.accumulate_from_ge a x) as Hge.
        rewrite List.Forall_forall in Hge. apply Hge. apply nth_In.
        rewrite APFacts.accumulate_from_length. lia.
      * apply Hdom. lia.
    + destruct Hatt as [E|[k [Hk E]]].
      * exists 0%nat. split; [lia | exact E].
      * exists (S k). split; [lia | exact E].
Qed.

(** The envelope at index [i] is the largest entry from [i] on. *)
Lemma envelope_suffix_max (l : list Q) (i : nat) :
  (i < length l)%nat ->
  (forall k, (i <= k)%nat -> (k < length l)%nat ->
     nth k l 0 <= nth i (AP.envelope l) 0) /\
  (exists k, (i <= k)%nat /\ (k < length l)%nat /\
     nth i (AP.envelope l) 0 = nth k l 0).
Proof.
  intros Hi. unfold AP.envelope, Np.flip.
  set (n := length l).
  assert (Hlen : length (Np.maximum_accumulate (rev l)) = n).
  { now rewrite APFacts.maximum_accumulate_length, length_rev. }
  rewrite rev_nth by (rewrite Hlen; exact Hi). rewrite Hlen.
  destruct (maximum_accumulate_prefix (rev l) (n - S i)) as [Hdom Hatt].
  { rewrite length_rev. fold n. lia. }
  split.
  - intros k Hik Hk.
    specialize (Hdom (n - S k)%nat ltac:(lia)).
    rewrite rev_nth in Hdom by (fold n; lia). fold n in Hdom.
    replace (n - S (n - S k))%nat with k in Hdom by lia. exact Hdom.
  - destruct Hatt as [k [Hk E]].
    exists (n - S k)%nat. split; [lia|]. split; [lia|].
    rewrite E. rewrite rev_nth by (fold n; lia). reflexivity.
Qed.

(** X8.  The envelope returned by [compute_ap] is the running maximum of
    the padded precision array taken from the high-recall end: its value
    at an index is at least every padded precision value from that index
    on, and equals one of them.  In particular the envelope is never below
    the precision curve it is computed from. *)
Theorem compute_ap_envelope_running_max
    (recall precision : list Q) (ap : Q) (mpre mrec : list Q) :
  AP.compute_ap recall precision = Ok (ap, mpre, mrec) ->
  let padded := [1] ++ precision ++ [0] in
  forall i, (i < length mpre)%nat ->
    (forall k, (i <= k)%nat -> (k < length padded)%nat ->
       nth k padded 0 <= nth i mpre 0) /\
    (exists k, (i <= k)%nat /\ (k < length padded)%nat /\
       nth i mpre 0 = nth k padded 0) /\
    nth i padded 0 <= nth i mpre 0.
Proof.
  intros H padded i Hi.
  destruct (APFacts.compute_ap_Ok _ _ _ _ _ H) as [_ [_ [_ [Hmpre _]]]].
  fold padded in Hmpre. subst mpre.
  rewrite APFacts.envelope_length in Hi.
  destruct (envelope_suffix_max padded i Hi) as [Hdom Hatt].
  split; [exact Hdom|]. split; [exact Hatt|].
  apply Hdom; [lia | exact Hi].
Qed.

(** Witness for X8: a saw-tooth precision curve. *)
Lemma compute_ap_envelope_running_max_witness :
  exists ap mpre mrec,
    AP.compute_ap [1 # 4; 1 # 2; 3 # 4; 1] [1 # 2; 3 # 4; 1 # 4; 1 # 2] =
      Ok (ap, mpre, mrec) /\
    nth 1 ([1] ++ [1 # 2; 3 # 4; 1 # 4; 1 # 2] ++ [0]) 0 <= nth 1 mpre 0.
Proof.
  destruct (APFacts.compute_ap_returns
              [1 # 4; 1 # 2; 3 # 4; 1] [1 # 2; 3 # 4; 1 # 4; 1 # 2])
    as [[[ap mpre] mrec] H]; [discriminate | reflexivity |].
  exists ap, mpre, mrec. split; [exact H|].
  apply (compute_ap_envelope_running_max _ _ _ _ _ H 1%nat).
  destruct (APFacts.compute_ap_Ok _ _ _ _ _ H) as [_ [_ [_ [Hmpre _]]]].
  subst mpre. rewrite APFacts.envelope_length. simpl. lia.
Defined.

(** *** The value of [compute_ap]

    Linear interpolation between two points stays between their
    ordinates. *)
Lemma convex_bounds (lo hi a b p q x : Q) :
  lo <= a <= hi -> lo <= b <= hi -> p <= x -> x < q ->
  lo <= (b - a) / (q - p) * (x - p) + a <= hi.
Proof.
  intros [Ha1 Ha2] [Hb1 Hb2] Hpx Hxq.
  assert (Hd : 0 < q - p) by lra.
  set (t := (x - p) / (q - p)).
  assert (Ht0 : 0 <= t).
  { unfold t. apply Qle_shift_div_l; [exact Hd | lra]. }
  assert (Ht1 : t <= 1).
  { unfold t. apply Qle_shift_div_r; [exact Hd | lra]. }
  assert (E : (b - a) / (q - p) * (x - p) + a == a + (b - a) * t).
  { unfold t. field. lra. }
  rewrite E.
  assert (H1 : 0 <= (1 - t) * (a - lo)) by (apply Qmult_le_0_compat; lra).
  assert (H2 : 0 <= t * (b - lo)) by (apply Qmult_le_0_compat; lra).
  assert (H3 : 0 <= (1 - t) * (hi - a)) by (apply Qmult_le_0_compat; lra).
  assert (H4 : 0 <= t * (hi - b)) by (apply Qmult_le_0_compat; lra).
  split; lra.
Qed.

Lemma interp_walk_bounds (lo hi x : Q) (rest : list (Q * Q)) :
  forall p, fst p <= x -> lo <= snd p <= hi ->
    List.Forall (fun q => lo <= snd q <= hi) rest ->
    lo <= Np.interp_walk x p rest <= hi.
Proof.
  induction rest as [|q rest IH]; intros p Hp Hb Hall; [exact Hb|].
  inversion Hall as [|? ? Hq Hrest]; subst. cbn [Np.interp_walk].
  destruct (Qle_bool (fst q) x) eqn:E.
  - apply IH; [now apply Qle_bool_iff | exact Hq | exact Hrest].
  - destruct (Qeq_bool (fst p) x); [exact Hb|].
    apply convex_bounds; try assumption.
    apply Qnot_le_lt. intros H. apply Qle_bool_iff in H. congruence.
Qed.

Lemma interp_at_bounds (lo hi l r x : Q) (pts : list (Q * Q)) :
  pts <> [] -> lo <= l <= hi -> lo <= r <= hi ->
  List.Forall (fun q => lo <= snd q <= hi) pts ->
  lo <= Np.interp_at l r pts x <= hi.
Proof.
  intros Hne Hl Hr Hall. unfold Np.interp_at.
  destruct pts as [|p rest]; [congruence|].
  destruct (negb (Qle_bool x (fst (last (p :: rest) p)))); [exact Hr|].
  destruct (Qle_bool (fst p) x) eqn:E; cbn [negb]; [|exact Hl].
  inversion Hall; subst.
  apply interp_walk_bounds; [now apply Qle_bool_iff | assumption | assumption].
Qed.

Lemma Forall_snd_combine (P : Q -> Prop) (xp fp : list Q) :
  List.Forall P fp -> List.Forall (fun q => P (snd q)) (combine xp fp).
Proof.
  intros H. revert xp. induction H as [|f fp Hf Hfp IH]; intros [|x xp];
    simpl; constructor; auto.
Qed.

Lemma Forall_last (P : Q -> Prop) (l : list Q) (d : Q) :
  P d -> List.Forall P l -> P (last l d).
Proof.
  intros Hd H. induction H as [|x l Hx Hl IH]; [exact Hd|].
  simpl. destruct l; [exact Hx | exact IH].
Qed.

Lemma interp_bounds (lo hi : Q) (x xp fp y : list Q) (left right : option Q) :
  List.Forall (fun v => lo <= v <= hi) fp ->
  (forall v, left = Some v -> lo <= v <= hi) ->
  (forall v, right = Some v -> lo <= v <= hi) ->
  Np.interp x xp fp left right = Ok y ->
  List.Forall (fun v => lo <= v <= hi) y /\ length y = length x.
Proof.
  intros Hfp Hleft Hright. unfold Np.interp.
  destruct xp as [|x0 xp]; [discriminate|].
  destruct fp as [|f0 fp]; [discriminate|].
  destruct (Nat.eqb _ _); [|discriminate].
  intros [= <-]. split; [|apply length_map].
  apply List.Forall_forall. intros v Hv. apply in_map_iff in Hv.
  destruct Hv as [k [<- _]].
  apply interp_at_bounds.
  - discriminate.
  - destruct left as [v|]; [now apply Hleft | now inversion Hfp].
  - destruct right as [v|]; [now apply Hright|].
    change (lo <= last (f0 :: fp) f0 <= hi).
    apply (Forall_last (fun v => lo <= v <= hi)); [now inversion Hfp | exact Hfp].
  - apply (Forall_snd_combine (fun v => lo <= v <= hi) (x0 :: xp) (f0 :: fp)).
    exact Hfp.
Qed.

Lemma sorted_head_le_last (x0 : Q) (tx : list Q) :
  Sorted Qle (x0 :: tx) -> x0 <= last tx x0.
Proof.
  revert x0. induction tx as [|x1 tx IH]; intros x0 H; [apply Qle_refl|].
  inversion H as [|? ? Hs Hh]; subst. inversion Hh; subst.
  rewrite APFacts.last_cons_head. eapply Qle_trans; [eassumption | now apply IH].
Qed.

Lemma trapz_bounds (y : list Q) :
  List.Forall (fun v => 0 <= v <= 1) y ->
  forall x0 tx, Sorted Qle (x0 :: tx) ->
    0 <= Np.trapz y (x0 :: tx) <= last tx x0 - x0.
Proof.
  induction 1 as [|y0 ty Hy0 Hty IH]; intros x0 tx Hs.
  - pose proof (sorted_head_le_last _ _ Hs). simpl. lra.
  - destruct ty as [|y1 ty].
    + pose proof (sorted_head_le_last _ _ Hs). simpl. lra.
    + destruct tx as [|x1 tx].
      * simpl. lra.
      * inversion Hs as [|? ? Hs' Hh]; subst. inversion Hh; subst.
        specialize (IH x1 tx Hs').
        change (Np.trapz (y0 :: y1 :: ty) (x0 :: x1 :: tx))
          with ((x1 - x0) * (y1 + y0) / 2 + Np.trapz (y1 :: ty) (x1 :: tx)).
        rewrite APFacts.last_cons_head.
        inversion Hty; subst.
        assert (Hlow : 0 <= (x1 - x0) * (y1 + y0))
          by (apply Qmult_le_0_compat; lra).
        assert (Hhigh : 0 <= (x1 - x0) * (2 - (y1 + y0)))
          by (apply Qmult_le_0_compat; lra).
        destruct IH as [IH1 IH2].
        generalize dependent (Np.trapz (y1 :: ty) (x1 :: tx)).
        generalize dependent (last tx x1).
        intros L T IH1 IH2.
        assert (E : (x1 - x0) * (y1 + y0) / 2 == (x1 - x0) * (y1 + y0) * (1 # 2))
          by field.
        rewrite E. split; lra.
Qed.

Lemma grid_sorted (c : Q) (n : nat) :
  0 < c ->
  forall s, Sorted Qle (map (fun k => inject_Z (Z.of_nat k) / c) (seq s n)).
Proof.
  intros Hc. induction n as [|n IH]; intros s; [constructor|].
  cbn [seq map]. constructor; [apply IH|].
  destruct n; [constructor|]. cbn [seq map]. constructor.
  apply Qle_shift_div_l; [exact Hc|].
  unfold Qdiv. rewrite <- Qmult_assoc, (Qmult_comm (/ c)), Qmult_inv_r, Qmult_1_r
    by (intros E; rewrite E in Hc; discriminate).
  rewrite <- Zle_Qle. lia.
Qed.

Lemma compute_ap_grid :
  exists x0 tx, Np.linspace01 101 = x0 :: tx /\ Sorted Qle (x0 :: tx) /\
                last tx x0 - x0 == 1.
Proof.
  exists (inject_Z 0 / inject_Z 100),
         (map (fun k => inject_Z (Z.of_nat k) / inject_Z 100) (seq 1 100)).
  split; [reflexivity|]. split.
  - apply (grid_sorted (inject_Z 100) 101 ltac:(reflexivity) 0%nat).
  - vm_compute. reflexivity.
Qed.

(** The bounds on what [compute_ap] returns. *)
Lemma compute_ap_bounds
    (recall precision : list Q) (ap : Q) (mpre mrec : list Q) :
  StronglySorted Qle recall ->
  List.Forall (fun r => 0 <= r) recall ->
  List.Forall (fun p => 0 <= p <= 1) precision ->
  AP.compute_ap recall precision = Ok (ap, mpre, mrec) ->
  0 <= ap <= 1 /\ List.Forall (fun p => 0 <= p <= 1) mpre /\
  StronglySorted Qle mrec.
Proof.
  intros Hsorted Hpos Hprec H.
  destruct (APFacts.compute_ap_Ok _ _ _ _ _ H) as [r_last [Hlast [Hmrec [Hmpre _]]]].
  assert (Hpad : List.Forall (fun p => 0 <= p <= 1) ([1] ++ precision ++ [0])).
  { constructor; [lra|]. apply Forall_app. split; [exact Hprec|].
    constructor; [lra | constructor]. }
  assert (Henv : List.Forall (fun p => 0 <= p <= 1) mpre).
  { subst mpre. apply List.Forall_forall. intros v Hv.
    apply (In_nth _ _ 0) in Hv. destruct Hv as [i [Hi <-]].
    rewrite APFacts.envelope_length in Hi.
    destruct (envelope_suffix_max _ i Hi) as [_ [k [_ [Hk ->]]]].
    rewrite List.Forall_forall in Hpad. apply Hpad. now apply nth_In. }
  split; [|split; [exact Henv|]].
  - unfold AP.compute_ap in H. rewrite Hlast in H. cbn [rbind] in H.
    apply rbind_Ok_inv in H. destruct H as [y [Hy H]].
    injection H as Hap _ _. subst ap.
    rewrite <- Hmpre in Hy.
    destruct (interp_bounds 0 1 _ _ _ _ None None Henv
                ltac:(discriminate) ltac:(discriminate) Hy) as [Hyb _].
    destruct compute_ap_grid as [x0 [tx [Ex [Hs Hw]]]].
    rewrite Ex. pose proof (trapz_bounds y Hyb x0 tx Hs) as Hb.
    rewrite Hw in Hb. exact Hb.
  - subst mrec. now apply APFacts.mrec_sorted.
Qed.

(** X13.  On a non-decreasing, non-negative recall array and precision
    values between 0 and 1, the average precision that [compute_ap]
    returns lies between 0 and 1, and so does every value of the returned
    envelope; the returned recall array is non-decreasing. *)
Theorem compute_ap_unit_interval
    (recall precision : list Q) (ap : Q) (mpre mrec : list Q) :
  StronglySorted Qle recall ->
  List.Forall (fun r => 0 <= r) recall ->
  List.Forall (fun p => 0 <= p <= 1) precision ->
  AP.compute_ap recall precision = Ok (ap, mpre, mrec) ->
  0 <= ap <= 1 /\ List.Forall (fun p => 0 <= p <= 1) mpre /\
  StronglySorted Qle mrec.
Proof.
  apply compute_ap_bounds.
Qed.

(** Witness for X13. *)
Lemma compute_ap_unit_interval_witness :
  exists ap mpre mrec,
    AP.compute_ap [1 # 4; 1 # 2; 3 # 4; 1] [1 # 2; 3 # 4; 1 # 4; 1 # 2] =
      Ok (ap, mpre, mrec) /\ 0 <= ap <= 1.
Proof.
  destruct (APFacts.compute_ap_returns [1 # 4; 1 # 2; 3 # 4; 1]
              [1 # 2; 3 # 4; 1 # 4; 1 # 2] ltac:(discriminate) eq_refl)
    as [[[ap mpre] mrec] H].
  exists ap, mpre, mrec. split; [exact H|].
  apply (compute_ap_unit_interval _ _ ap mpre mrec) in H.
  - apply H.
  - repeat constructor; discriminate.
  - repeat constructor; discriminate.
  - repeat constructor; discriminate.
Defined.

End APMore.

(** ** [ap_per_class]: ordering, shapes and empty classes *)

Module ApPerClassMore.

Import ApPerClass ApPerClassTerms.

Local Open Scope Q_scope.

(** *** [np.argsort] *)

Lemma insert_idx_perm (k : nat * Q) (l : list (nat * Q)) :
  Permutation (Np.insert_idx k l) (k :: l).
Proof.
  induction l as [|h l IH]; simpl; [reflexivity|].
  destruct (Qle_bool (snd k) (snd h)); [reflexivity|].
  rewrite IH. apply perm_swap.
Qed.

Lemma insert_idx_sorted (k : nat * Q) (l : list (nat * Q)) :
  StronglySorted (fun p q => snd p <= snd q) l ->
  StronglySorted (fun p q => snd p <= snd q) (Np.insert_idx k l).
Proof.
  induction 1 as [|h l Hs IH Hh]; simpl.
  - constructor; constructor.
  - destruct (Qle_bool (snd k) (snd h)) eqn:E.
    + apply Qle_bool_iff in E.
      constructor; [constructor; assumption|].
      constructor; [exact E|].
      eapply List.Forall_impl; [|exact Hh].
      simpl. intros a Ha. eapply Qle_trans; eassumption.
    + assert (Hlt : snd h < snd k).
      { apply Qnot_le_lt. intros Hle. apply Qle_bool_iff in Hle. congruence. }
      constructor; [exact IH|].
      apply List.Forall_forall. intros a Ha.
      apply (Permutation_in _ (insert_idx_perm k l)) in Ha.
      destruct Ha as [<-|Ha].
      * now apply Qlt_le_weak.
      * rewrite List.Forall_forall in Hh. now apply Hh.
Qed.

Lemma sorted_pairs (a : list Q) :
  Permutation (fold_right Np.insert_idx [] (Py.enumerate a)) (Py.enumerate a) /\
  StronglySorted (fun p q => snd p <= snd q)
                 (fold_right Np.insert_idx [] (Py.enumerate a)).
Proof.
  induction (Py.enumerate a) as [|k l [IHp IHs]]; simpl.
  - split; [reflexivity | constructor].
  - split.
    + rewrite insert_idx_perm. now constructor.
    + now apply insert_idx_sorted.
Qed.

Lemma map_fst_combine_eq {A B : Type} (a : list A) :
  forall b : list B, length a = length b -> map fst (combine a b) = a.
Proof.
  induction a as [|x a IH]; intros [|y b] H; try discriminate; [reflexivity|].
  cbn [combine map fst]. rewrite IH; [reflexivity | now inversion H].
Qed.

Lemma argsort_perm (a : list Q) :
  Permutation (Np.argsort a) (seq 0 (length a)).
Proof.
  unfold Np.argsort.
  rewrite (Permutation_map fst (proj1 (sorted_pairs a))).
  unfold Py.enumerate. rewrite map_fst_combine_eq; [reflexivity|].
  now rewrite length_seq.
Qed.

Lemma In_argsort (a : list Q) (k : nat) :
  In k (Np.argsort a) <-> (k < length a)%nat.
Proof.
  split; intros H.
  - apply (Permutation_in _ (argsort_perm a)) in H. apply in_seq in H. lia.
  - apply (Permutation_in _ (Permutation_sym (argsort_perm a))).
    apply in_seq. lia.
Qed.

Lemma map_nth_seq {A : Type} (d : A) (l : list A) :
  forall s, map (fun k => nth (k - s) l d) (seq s (length l)) = l.
Proof.
  induction l as [|x l IH]; intros s; [reflexivity|].
  cbn [length seq map]. rewrite Nat.sub_diag. cbn [nth]. f_equal.
  rewrite <- (IH (S s)) at 2. apply map_ext_in.
  intros k Hk. apply in_seq in Hk.
  replace (k - s)%nat with (S (k - S s)) by lia. reflexivity.
Qed.

Lemma take_seq {A : Type} (d : A) (l : list A) :
  Np.take d (seq 0 (length l)) l = l.
Proof.
  unfold Np.take. etransitivity; [|apply (map_nth_seq d l 0)].
  apply map_ext. intros k. now rewrite Nat.sub_0_r.
Qed.

(** Re-ordering by [argsort] is a permutation of an array of the sorted
    array's length. *)
Lemma take_argsort_perm {A : Type} (d : A) (a : list Q) (l : list A) :
  length l = length a -> Permutation (Np.take d (Np.argsort a) l) l.
Proof.
  intros Hlen. unfold Np.take.
  rewrite (Permutation_map _ (argsort_perm a)).
  rewrite <- Hlen. fold (Np.take d (seq 0 (length l)) l).
  now rewrite take_seq.
Qed.

Lemma StronglySorted_map_on {A B : Type} (R : A -> A -> Prop)
    (R' : B -> B -> Prop) (g : A -> B) (l : list A) :
  StronglySorted R l ->
  (forall p q, In p l -> In q l -> R p q -> R' (g p) (g q)) ->
  StronglySorted R' (map g l).
Proof.
  induction 1 as [|x l Hs IH Hx]; intros Hg; simpl; constructor.
  - apply IH. intros p q Hp Hq. apply Hg; now right.
  - apply List.Forall_forall. intros b Hb. apply in_map_iff in Hb.
    destruct Hb as [q [<- Hq]]. apply Hg; [now left | now right|].
    rewrite List.Forall_forall in Hx. now apply Hx.
Qed.

(** X9.  [ap_per_class] processes the detections by descending
    confidence: the confidence array it works on is a permutation of the
    input that is sorted from the largest to the smallest value, and the
    true-positive columns and the predicted classes are re-ordered by the
    same permutation of the indices. *)
Theorem ap_per_class_descending_confidence
    (conf : list Q) (pred_cls : list Z) (col : list Q) :
  let i := Np.argsort (map Qopp conf) in
  Permutation i (seq 0 (length conf)) /\
  Permutation (Np.take 0 i conf) conf /\
  StronglySorted (fun a b => b <= a) (Np.take 0 i conf) /\
  (length pred_cls = length conf -> Permutation (Np.take 0%Z i pred_cls) pred_cls) /\
  (length col = length conf -> Permutation (Np.take 0 i col) col).
Proof.
  intros i. unfold i.
  split; [|split; [|split; [|split]]].
  - rewrite <- (length_map Qopp conf). apply argsort_perm.
  - apply take_argsort_perm. now rewrite length_map.
  - unfold Np.take, Np.argsort. rewrite map_map.
    destruct (sorted_pairs (map Qopp conf)) as [Hperm Hsorted].
    eapply StronglySorted_map_on; [exact Hsorted|].
    intros p q Hp Hq Hpq. cbn beta in Hpq |- *.
    assert (Hsnd : forall x, In x (fold_right Np.insert_idx []
                                     (Py.enumerate (map Qopp conf))) ->
                     snd x = Qopp (nth (fst x) conf 0)).
    { intros [k v] Hx. apply (Permutation_in _ Hperm) in Hx.
      apply MatcherFacts.In_enumerate in Hx. simpl.
      apply nth_error_nth with (d := Qopp 0) in Hx.
      rewrite map_nth in Hx. now rewrite <- Hx. }
    rewrite (Hsnd p Hp), (Hsnd q Hq) in Hpq.
    apply Qopp_le_compat in Hpq. now rewrite !Qopp_involutive in Hpq.
  - intros Hlen. apply take_argsort_perm. now rewrite length_map.
  - intros Hlen. apply take_argsort_perm. now rewrite length_map.
Qed.

(** Witness for X9. *)
Lemma ap_per_class_descending_confidence_witness :
  Permutation (Np.take 0%Z (Np.argsort (map Qopp [3 # 10; 9 # 10; 5 # 10]))
                       [7; 8; 9]%Z)
              [7; 8; 9]%Z.
Proof.
  apply (ap_per_class_descending_confidence [3 # 10; 9 # 10; 5 # 10]
           [7; 8; 9]%Z []).
  reflexivity.
Defined.

(** *** [np.unique] *)

Lemma In_insert_unique (k x : Z) (l : list Z) :
  In x (Np.insert_unique k l) <-> x = k \/ In x l.
Proof.
  induction l as [|h l IH]; simpl.
  - intuition.
  - destruct (Z.ltb k h); simpl; [intuition|].
    destruct (Z.eqb_spec k h); simpl.
    + subst. intuition.
    + rewrite IH. intuition.
Qed.

Lemma insert_unique_sorted (k : Z) (l : list Z) :
  StronglySorted Z.lt l -> StronglySorted Z.lt (Np.insert_unique k l).
Proof.
  induction 1 as [|h l Hs IH Hh]; simpl.
  - constructor; constructor.
  - destruct (Z.ltb_spec k h).
    + constructor; [constructor; assumption|].
      constructor; [assumption|].
      eapply List.Forall_impl; [|exact Hh]. simpl. lia.
    + destruct (Z.eqb_spec k h).
      * constructor; assumption.
      * constructor; [exact IH|].
        apply List.Forall_forall. intros x Hx.
        apply (proj1 (In_insert_unique _ _ _)) in Hx.
        destruct Hx as [->|Hx]; [lia|].
        rewrite List.Forall_forall in Hh. now apply Hh.
Qed.

Lemma unique_sorted (a : list Z) : StronglySorted Z.lt (Np.unique a).
Proof.
  unfold Np.unique. induction a as [|k a IH]; simpl.
  - constructor.
  - now apply insert_unique_sorted.
Qed.

Lemma In_unique (a : list Z) (x : Z) : In x (Np.unique a) <-> In x a.
Proof.
  unfold Np.unique. induction a as [|k a IH]; simpl; [tauto|].
  rewrite In_insert_unique, IH. intuition.
Qed.

(** *** The rows written by the loop over the classes *)

Lemma collect_rows (f : Z -> result class_rows) (cls : list Z) :
  forall acc rows,
    Py.for_each (collect f) acc cls = Ok rows ->
    exists rows', rows = acc ++ rows' /\
                  Forall2 (fun c row => f c = Ok row) cls rows'.
Proof.
  induction cls as [|c cls IH]; intros acc rows H.
  - simpl in H. inversion H; subst. exists []. split; [now rewrite app_nil_r | constructor].
  - rewrite ApPerClassFacts.collect_cons in H.
    apply rbind_Ok_inv in H. destruct H as [row [Hrow H]].
    destruct (IH _ _ H) as [rows' [-> HF]].
    exists (row :: rows'). split.
    + now rewrite <- app_assoc.
    + constructor; assumption.
Qed.

Lemma count_true_zero (c : Z) (l : list Z) :
  ~ In c l -> Matcher.count_true (map (Z.eqb c) l) = 0%nat.
Proof.
  unfold Matcher.count_true. induction l as [|x l IH]; intros H; [reflexivity|].
  simpl. destruct (Z.eqb_spec c x) as [->|Hne].
  - exfalso. apply H. now left.
  - apply IH. intros Hin. apply H. now right.
Qed.

Lemma count_true_pos (c : Z) (l : list Z) :
  In c l -> Matcher.count_true (map (Z.eqb c) l) <> 0%nat.
Proof.
  unfold Matcher.count_true. induction l as [|x l IH]; intros H; [contradiction|].
  simpl. destruct (Z.eqb_spec c x) as [->|Hne]; simpl; [discriminate|].
  apply IH. destruct H as [->|H]; [congruence | exact H].
Qed.

Lemma In_take (i : list nat) (l : list Z) (c : Z) :
  (forall k, In k i -> (k < length l)%nat) ->
  In c (Np.take 0%Z i l) -> In c l.
Proof.
  intros Hi H. unfold Np.take in H. apply in_map_iff in H.
  destruct H as [k [<- Hk]]. apply nth_In. now apply Hi.
Qed.

Lemma take_In (i : list nat) (l : list Z) (c : Z) :
  (forall k, (k < length l)%nat -> In k i) ->
  In c l -> In c (Np.take 0%Z i l).
Proof.
  intros Hi H. apply (In_nth _ _ 0%Z) in H. destruct H as [k [Hk <-]].
  unfold Np.take. apply in_map_iff. exists k. split; [reflexivity|].
  now apply Hi.
Qed.

Lemma nth_at_col (g : class_rows -> list Q) (rows : list class_rows)
    (ci i : nat) (row : class_rows) :
  nth_error rows ci = Some row ->
  nth ci (at_col i (map g rows)) 0 = nth i (g row) 0.
Proof.
  intros H. unfold at_col. rewrite map_map.
  apply nth_error_nth with (d := 0). rewrite nth_error_map, H. reflexivity.
Qed.

Lemma nth_zeros (n i : nat) : nth i (zeros n) 0 = 0.
Proof.
  unfold zeros. revert i. induction n as [|n IH]; intros [|i]; simpl; auto.
Qed.

Lemma f1_zeros (n i : nat) : nth i (f1_row (zeros n) (zeros n)) 0 == 0.
Proof.
  unfold f1_row, zeros. revert i.
  induction n as [|n IH]; intros [|i]; simpl; try reflexivity.
  apply IH.
Qed.

Lemma Forall2_In_r {A B : Type} (R : A -> B -> Prop) (l : list A) (l' : list B) :
  Forall2 R l l' -> forall y, In y l' -> exists x, In x l /\ R x y.
Proof.
  induction 1 as [|x y l l' Hxy _ IH]; intros z Hz; [contradiction|].
  destruct Hz as [<-|Hz].
  - exists x. split; [now left | exact Hxy].
  - destruct (IH z Hz) as [x' [Hx' HR]]. exists x'. split; [now right | exact HR].
Qed.

Lemma Forall2_nth_error_l {A B : Type} (R : A -> B -> Prop) (l : list A) (l' : list B) :
  Forall2 R l l' -> forall k x, nth_error l k = Some x ->
  exists y, nth_error l' k = Some y /\ R x y.
Proof.
  induction 1 as [|x y l l' Hxy _ IH]; intros [|k] z Hz; try discriminate.
  - simpl in Hz. inversion Hz; subst. exists y. now split.
  - simpl in *. now apply IH.
Qed.

Section Rows.

Variables (bk : backend) (tp : list (list Q)) (conf : list Q)
          (pred_cls target_cls : list Z) (plot : bool)
          (save_dir : String.string) (names : list String.string).

Let i := Np.argsort (map Qopp conf).
Let tp_s := map (Np.take 0 i) tp.
Let conf_s := Np.take 0 i conf.
Let pred_s := Np.take 0%Z i pred_cls.
Let cls := Np.unique target_cls.

(** What a returning call has computed. *)
Lemma ap_per_class_Ok (o : output) :
  ap_per_class bk tp conf pred_cls target_cls plot save_dir names = Ok o ->
  exists rows,
    Forall2 (fun c row => class_body plot tp_s conf_s pred_s target_cls c = Ok row)
            cls rows /\
    let f1 := map (fun row => f1_row (p_row row) (r_row row)) rows in
    let k := Np.argmax (mean0 f1) in
    o = mk_output (at_col k (map p_row rows)) (at_col k (map r_row rows))
                  (map ap_row rows) (at_col k f1)
                  (map Py.astype_int32 cls).
Proof.
  rewrite ApPerClassFacts.ap_per_class_sorted.
  destruct (indexable tp conf pred_cls); [|discriminate].
  unfold per_class. fold i. fold tp_s. fold conf_s. fold pred_s. fold cls.
  intros H. apply rbind_Ok_inv in H. destruct H as [rows [Hrows H]].
  apply rbind_Ok_inv in H. destruct H as [[] [_ H]].
  destruct (collect_rows (class_body plot tp_s conf_s pred_s target_cls)
              cls [] rows Hrows) as [rows' [-> HF]].
  exists rows'. split; [exact HF|].
  cbv zeta. inversion H. reflexivity.
Qed.

Lemma class_row_shape (c : Z) (row : class_rows) :
  class_body plot tp_s conf_s pred_s target_cls c = Ok row ->
  length (ap_row row) = length tp.
Proof.
  rewrite ApPerClassFacts.class_body_closed
    by (apply ApPerClassFacts.sorted_columns_shape).
  assert (Hlen : length tp_s = length tp) by (unfold tp_s; apply length_map).
  destruct (_ || _).
  - intros H. inversion H; subst. cbn [ap_row]. unfold zeros.
    now rewrite repeat_length.
  - destruct tp_s as [|col0 rest] eqn:E; [discriminate|].
    intros H. apply rbind_Ok_inv in H. destruct H as [r [_ H]].
    apply rbind_Ok_inv in H. destruct H as [p [_ H]].
    inversion H; subst. cbn [ap_row]. rewrite <- Hlen. cbn [length].
    now rewrite ?length_map.
Qed.

(** X10.  A returning call of [ap_per_class] reports one entry per
    distinct target class, in ascending class order: the class ids
    returned are the distinct values of [target_cls], strictly increasing;
    the precision, recall and F1 arrays have one value per class, and the
    [ap] array one row per class with one column per column of [tp]. *)
Theorem ap_per_class_shapes (o : output) :
  ap_per_class bk tp conf pred_cls target_cls plot save_dir names = Ok o ->
  StronglySorted Z.lt cls /\
  (forall c, In c cls <-> In c target_cls) /\
  out_classes o = map Py.astype_int32 cls /\
  length (out_p o) = length cls /\
  length (out_r o) = length cls /\
  length (out_f1 o) = length cls /\
  length (out_ap o) = length cls /\
  List.Forall (fun row => length row = length tp) (out_ap o).
Proof.
  intros H. destruct (ap_per_class_Ok o H) as [rows [HF Ho]].
  cbv zeta in Ho. subst o. cbn [out_p out_r out_f1 out_ap out_classes].
  pose proof (Forall2_length HF) as Hlen.
  unfold at_col. rewrite !length_map.
  repeat split; try (symmetry; exact Hlen).
  - apply unique_sorted.
  - apply In_unique.
  - apply In_unique.
  - apply List.Forall_forall. intros r Hr. apply in_map_iff in Hr.
    destruct Hr as [row [<- Hrow]].
    destruct (Forall2_In_r _ _ _ HF row Hrow) as [c [_ Hc]].
    eapply class_row_shape. exact Hc.
Qed.

(** X11.  A target class for which there is no prediction stays an
    all-zero row: its average precision is 0 in every threshold column,
    and its reported precision, recall and F1 are 0. *)
Theorem ap_per_class_class_without_predictions (o : output) (ci : nat) (c : Z) :
  length pred_cls = length conf ->
  ap_per_class bk tp conf pred_cls target_cls plot save_dir names = Ok o ->
  nth_error cls ci = Some c ->
  ~ In c pred_cls ->
  nth ci (out_ap o) [] = zeros (length tp) /\
  nth ci (out_p o) 0 = 0 /\
  nth ci (out_r o) 0 = 0 /\
  nth ci (out_f1 o) 0 == 0.
Proof.
  intros Hlen H Hci Hc. destruct (ap_per_class_Ok o H) as [rows [HF Ho]].
  cbv zeta in Ho. subst o. cbn [out_p out_r out_f1 out_ap].
  assert (Hrow : exists row, nth_error rows ci = Some row /\
                  class_body plot tp_s conf_s pred_s target_cls c = Ok row).
  { exact (Forall2_nth_error_l _ _ _ HF ci c Hci). }
  destruct Hrow as [row [Hrow Hbody]].
  assert (Hnp : Matcher.count_true (map (Z.eqb c) pred_s) = 0%nat).
  { apply count_true_zero. intros Hin. apply Hc.
    apply (In_take i pred_cls c); [|exact Hin].
    intros k Hk. unfold i in Hk. apply In_argsort in Hk.
    rewrite length_map in Hk. lia. }
  unfold class_body in Hbody. rewrite Hnp in Hbody. cbn [Nat.eqb orb] in Hbody.
  inversion Hbody; subst row. clear Hbody.
  assert (Hlt : length tp_s = length tp) by (unfold tp_s; apply length_map).
  split; [|split; [|split]].
  - rewrite <- Hlt. apply nth_error_nth with (d := []).
    rewrite nth_error_map, Hrow. reflexivity.
  - rewrite (nth_at_col p_row rows ci _ _ Hrow). apply nth_zeros.
  - rewrite (nth_at_col r_row rows ci _ _ Hrow). apply nth_zeros.
  - rewrite (nth_at_col (fun row => f1_row (p_row row) (r_row row)) rows ci _ _ Hrow).
    apply f1_zeros.
Qed.

(** X12.  A [tp] array with no threshold column makes [ap_per_class]
    raise [IndexError] (from [recall[:, 0]]) as soon as some target class
    has a prediction. *)
Theorem ap_per_class_no_threshold_column (c : Z) :
  tp = [] ->
  length pred_cls = length conf ->
  In c target_cls -> In c pred_cls ->
  ap_per_class bk tp conf pred_cls target_cls plot save_dir names =
  Raise IndexError.
Proof.
  intros Htp Hlen Hct Hcp. rewrite ApPerClassFacts.ap_per_class_sorted.
  rewrite Htp.
  rewrite (ApPerClassFacts.indexable_shaped [] conf pred_cls (Forall_nil _) Hlen).
  unfold per_class.
  fold i. fold conf_s. fold pred_s. fold cls. cbn [map].
  assert (Hbody : forall c0,
            class_body plot [] conf_s pred_s target_cls c0 =
            if Nat.eqb (Matcher.count_true (map (Z.eqb c0) pred_s)) 0
               || Nat.eqb (Matcher.count_true (map (Z.eqb c0) target_cls)) 0
            then Ok (mk_rows (zeros 1000) (zeros 1000) (zeros 0) [])
            else Raise IndexError).
  { intros c0. unfold class_body.
    destruct (_ || _); reflexivity. }
  assert (Hloop : forall l acc, In c l ->
            Py.for_each (collect (class_body plot [] conf_s pred_s target_cls))
                        acc l = Raise IndexError).
  { induction l as [|c0 l IH]; intros acc Hin; [contradiction|].
    rewrite ApPerClassFacts.collect_cons, Hbody.
    destruct (Nat.eqb (Matcher.count_true (map (Z.eqb c0) pred_s)) 0
              || Nat.eqb (Matcher.count_true (map (Z.eqb c0) target_cls)) 0)
      eqn:E; [|reflexivity].
    cbn [rbind]. apply IH. destruct Hin as [->|Hin]; [|exact Hin].
    exfalso. apply orb_true_iff in E. destruct E as [E|E];
      apply Nat.eqb_eq in E; revert E; apply count_true_pos; [|exact Hct].
    apply (take_In i pred_cls c); [|exact Hcp].
    intros k Hk. unfold i. apply In_argsort. rewrite length_map. lia. }
  change (Py.for_each
            (fun acc c0 =>
               try! row := class_body plot [] conf_s pred_s target_cls c0 in
               Ok (acc ++ [row])) [] cls)
    with (Py.for_each (collect (class_body plot [] conf_s pred_s target_cls))
                      [] cls).
  rewrite Hloop; [reflexivity|]. unfold cls. now apply In_unique.
Qed.

End Rows.

(** Without plotting, a call on arrays of the length of [conf], with at
    least one threshold column, returns. *)
Lemma ap_per_class_unplotted_returns
    (bk : backend) (tp : list (list Q)) (conf : list Q)
    (pred_cls target_cls : list Z)
    (save_dir : String.string) (names : list String.string) :
  tp <> [] ->
  List.Forall (fun col => length col = length conf) tp ->
  length pred_cls = length conf ->
  returns (ap_per_class bk tp conf pred_cls target_cls false save_dir names).
Proof.
  intros Hne Htp Hpred. unfold returns.
  rewrite ApPerClassFacts.ap_per_class_sorted.
  rewrite (ApPerClassFacts.indexable_shaped tp conf pred_cls Htp Hpred).
  unfold per_class.
  destruct (ApPerClassFacts.rows_loop_returns
              (class_body false
                 (map (Np.take 0 (Np.argsort (map Qopp conf))) tp)
                 (Np.take 0 (Np.argsort (map Qopp conf)) conf)
                 (Np.take 0%Z (Np.argsort (map Qopp conf)) pred_cls)
                 target_cls)) with (cls := Np.unique target_cls)
                                   (acc := @nil class_rows) as [rs Hrs].
  - intros c. apply ApPerClassFacts.class_body_returns.
    + destruct tp; [congruence | discriminate].
    + now rewrite !ApPerClassFacts.take_length.
    + apply ApPerClassFacts.sorted_columns_shape.
  - unfold collect in Hrs. rewrite Hrs. cbn [rbind]. eexists. reflexivity.
Qed.

(** Witness for X10. *)
Lemma ap_per_class_shapes_witness :
  exists o,
    ap_per_class (mk_backend (Ok tt) (Ok tt) (Ok tt) (fun _ => Ok tt))
                 [[1; 0; 1]; [1; 0; 0]] [9 # 10; 8 # 10; 7 # 10]
                 [0; 0; 2]%Z [2; 0; 2; 5]%Z false ""%string [] = Ok o /\
    out_classes o = [0; 2; 5]%Z /\ length (out_p o) = 3%nat.
Proof.
  assert (H : returns (ap_per_class
                         (mk_backend (Ok tt) (Ok tt) (Ok tt) (fun _ => Ok tt))
                         [[1; 0; 1]; [1; 0; 0]]
                         [9 # 10; 8 # 10; 7 # 10] [0; 0; 2]%Z [2; 0; 2; 5]%Z
                         false ""%string []))
    by (apply ap_per_class_unplotted_returns;
        [discriminate | repeat constructor | reflexivity]).
  destruct H as [o Ho].
  exists o. split; [exact Ho|].
  destruct (ap_per_class_shapes _ _ _ _ _ _ _ _ o Ho)
    as [_ [_ [Hc [Hp _]]]].
  split; [rewrite Hc | rewrite Hp]; reflexivity.
Defined.

(** Witness for X11: class 5 is labelled but never predicted. *)
Lemma ap_per_class_class_without_predictions_witness :
  exists o,
    ap_per_class (mk_backend (Ok tt) (Ok tt) (Ok tt) (fun _ => Ok tt))
                 [[1; 0; 1]; [1; 0; 0]] [9 # 10; 8 # 10; 7 # 10]
                 [0; 0; 2]%Z [2; 0; 2; 5]%Z false ""%string [] = Ok o /\
    nth 2 (out_ap o) [] = [0; 0] /\ nth 2 (out_p o) 0 = 0.
Proof.
  assert (H : returns (ap_per_class
                         (mk_backend (Ok tt) (Ok tt) (Ok tt) (fun _ => Ok tt))
                         [[1; 0; 1]; [1; 0; 0]]
                         [9 # 10; 8 # 10; 7 # 10] [0; 0; 2]%Z [2; 0; 2; 5]%Z
                         false ""%string []))
    by (apply ap_per_class_unplotted_returns;
        [discriminate | repeat constructor | reflexivity]).
  destruct H as [o Ho]. exists o. split; [exact Ho|].
  assert (Hno : ~ In 5%Z [0; 0; 2]%Z)
    by (simpl; intros [H|[H|[H|[]]]]; discriminate).
  destruct (ap_per_class_class_without_predictions
              (mk_backend (Ok tt) (Ok tt) (Ok tt) (fun _ => Ok tt))
              [[1; 0; 1]; [1; 0; 0]] [9 # 10; 8 # 10; 7 # 10]
              [0; 0; 2]%Z [2; 0; 2; 5]%Z false ""%string [] o 2%nat 5%Z
              eq_refl Ho eq_refl Hno) as [Hap [Hp _]].
  split; assumption.
Defined.

(** Witness for X12. *)
Lemma ap_per_class_no_threshold_column_witness :
  ap_per_class (mk_backend (Ok tt) (Ok tt) (Ok tt) (fun _ => Ok tt))
               [] [9 # 10] [0%Z] [0%Z] false ""%string [] = Raise IndexError.
Proof.
  apply (ap_per_class_no_threshold_column _ _ _ _ _ _ _ _ 0%Z);
    try reflexivity; now left.
Defined.

(** *** Values between 0 and 1 *)

Lemma cumsum_from_sorted (l : list Q) :
  List.Forall (fun v => 0 <= v) l ->
  forall acc,
    StronglySorted Qle (Np.cumsum_from acc l) /\
    List.Forall (fun s => acc <= s) (Np.cumsum_from acc l).
Proof.
  induction 1 as [|v l Hv Hl IH]; intros acc; [split; constructor|].
  cbn [Np.cumsum_from]. destruct (IH (acc + v)) as [Hs Hb]. split.
  - constructor; [exact Hs | exact Hb].
  - constructor; [lra|]. eapply List.Forall_impl; [|exact Hb].
    simpl. intros s Hsv. lra.
Qed.

Lemma scaled_sorted (d : Q) (l : list Q) :
  0 < d -> StronglySorted Qle l -> List.Forall (fun s => 0 <= s) l ->
  StronglySorted Qle (map (fun v => v / d) l) /\
  List.Forall (fun r => 0 <= r) (map (fun v => v / d) l).
Proof.
  intros Hd Hs. 
  assert (Hmono : forall a b, a <= b -> a / d <= b / d).
  { intros a b Hab. apply Qle_shift_div_l; [exact Hd|].
    unfold Qdiv. rewrite <- Qmult_assoc, (Qmult_comm (/ d)), Qmult_inv_r, Qmult_1_r
      by (intros E; rewrite E in Hd; discriminate).
    exact Hab. }
  induction Hs as [|a l Hl IH Ha]; intros Hpos; [split; constructor|].
  inversion Hpos as [|? ? Ha0 Hl0]; subst. destruct (IH Hl0) as [IH1 IH2].
  cbn [map]. split.
  - constructor; [exact IH1|]. apply Forall_map.
    eapply List.Forall_impl; [|exact Ha]. simpl. intros b Hb. now apply Hmono.
  - constructor; [|exact IH2]. apply Qle_shift_div_l; [exact Hd | lra].
Qed.

Lemma ratio_bounds (t f : Q) : 0 <= t -> 0 <= f -> 0 <= t / (t + f) <= 1.
Proof.
  intros Ht Hf. destruct (Qlt_le_dec 0 (t + f)) as [Hpos|Hzero].
  - split.
    + apply Qle_shift_div_l; [exact Hpos | lra].
    + apply Qle_shift_div_r; [exact Hpos | lra].
  - assert (E : t + f == 0) by lra.
    assert (E' : t / (t + f) == 0).
    { unfold Qdiv. rewrite E. unfold Qinv. simpl. lra. }
    rewrite E'. split; lra.
Qed.

Lemma map2_ratio_bounds (a b : list Q) :
  List.Forall (fun v => 0 <= v) a -> List.Forall (fun v => 0 <= v) b ->
  List.Forall (fun p => 0 <= p <= 1) (Np.map2 (fun t f => t / (t + f)) a b).
Proof.
  intros Ha. revert b. induction Ha as [|x a Hx Ha IH]; intros b Hb; [constructor|].
  destruct b as [|y b]; [constructor|]. inversion Hb; subst.
  cbn [Np.map2]. constructor; [now apply ratio_bounds | now apply IH].
Qed.

Lemma eps_scale_pos (n_l : nat) : 0 < inject_Z (Z.of_nat n_l) + eps.
Proof.
  assert (H : 0 <= inject_Z (Z.of_nat n_l)).
  { change 0 with (inject_Z 0). rewrite <- Zle_Qle. lia. }
  assert (He : 0 < eps) by reflexivity. lra.
Qed.

Lemma curves_of_bounds (i : list bool) (n_l : nat) (col : list Q) :
  List.Forall (fun v => 0 <= v <= 1) col ->
  StronglySorted Qle (fst (curves_of i n_l col)) /\
  List.Forall (fun r => 0 <= r) (fst (curves_of i n_l col)) /\
  List.Forall (fun p => 0 <= p <= 1) (snd (curves_of i n_l col)).
Proof.
  intros Hcol. unfold curves_of. cbn [fst snd].
  assert (Hsel : List.Forall (fun v => 0 <= v <= 1) (Py.select i col))
    by (apply OD_AUCROCFacts.select_Forall; exact Hcol).
  assert (Hpos : List.Forall (fun v => 0 <= v) (Py.select i col)).
  { eapply List.Forall_impl; [|exact Hsel]. simpl. intros v Hv. apply Hv. }
  assert (Hneg : List.Forall (fun v => 0 <= v) (map (fun v => 1 - v) (Py.select i col))).
  { apply Forall_map. eapply List.Forall_impl; [|exact Hsel]. simpl. intros v Hv. lra. }
  destruct (cumsum_from_sorted _ Hpos 0) as [Hs Hb].
  destruct (cumsum_from_sorted _ Hneg 0) as [_ Hb'].
  destruct (scaled_sorted _ _ (eps_scale_pos n_l) Hs Hb) as [H1 H2].
  split; [exact H1|]. split; [exact H2|].
  apply map2_ratio_bounds; assumption.
Qed.

Lemma ap_of_bounds (i : list bool) (n_l : nat) (col : list Q) :
  List.Forall (fun v => 0 <= v <= 1) col ->
  0 <= ap_of (curves_of i n_l col) <= 1.
Proof.
  intros Hcol. destruct (curves_of_bounds i n_l col Hcol) as [Hs [Hr Hp]].
  unfold ap_of.
  destruct (AP.compute_ap _ _) as [[[ap mpre] mrec]|e] eqn:E; [|split; lra].
  exact (proj1 (APMore.compute_ap_bounds _ _ _ _ _ Hs Hr Hp E)).
Qed.

Lemma zeros_bounds (n : nat) : List.Forall (fun v => 0 <= v <= 1) (zeros n).
Proof.
  unfold zeros. induction n; constructor; [split; lra | assumption].
Qed.

Lemma take_Forall (P : Q -> Prop) (i : list nat) (col : list Q) :
  P 0 -> List.Forall P col -> List.Forall P (Np.take 0 i col).
Proof.
  intros H0 Hcol. unfold Np.take. apply Forall_map.
  apply List.Forall_forall. intros k _.
  destruct (Nat.lt_ge_cases k (length col)) as [Hk|Hk].
  - rewrite List.Forall_forall in Hcol. apply Hcol. now apply nth_In.
  - now rewrite nth_overflow.
Qed.

Section Bounds.

Variables (plot : bool) (tp : list (list Q)) (conf : list Q)
          (pred_cls target_cls : list Z).

Lemma class_row_bounds (i : list nat) (c : Z) (row : class_rows) :
  List.Forall (List.Forall (fun v => 0 <= v <= 1)) tp ->
  class_body plot (map (Np.take 0 i) tp) (Np.take 0 i conf)
             (Np.take 0%Z i pred_cls) target_cls c = Ok row ->
  List.Forall (fun v => 0 <= v <= 1) (ap_row row) /\
  List.Forall (fun v => 0 <= v <= 1) (p_row row).
Proof.
  intros Htp.
  rewrite ApPerClassFacts.class_body_closed
    by (apply ApPerClassFacts.sorted_columns_shape).
  assert (Htps : List.Forall (List.Forall (fun v => 0 <= v <= 1))
                   (map (Np.take 0 i) tp)).
  { apply Forall_map. eapply List.Forall_impl; [|exact Htp]. simpl.
    intros col Hcol. apply take_Forall; [split; lra | exact Hcol]. }
  destruct (_ || _).
  - intros [= <-]. cbn [ap_row p_row]. split; apply zeros_bounds.
  - destruct (map (Np.take 0 i) tp) as [|col0 rest] eqn:E; [discriminate|].
    intros H. apply rbind_Ok_inv in H. destruct H as [r [_ H]].
    apply rbind_Ok_inv in H. destruct H as [p [Hp H]].
    injection H as <-.
    change (List.Forall (fun v => 0 <= v <= 1)
              (map ap_of
                 (map (curves_of (map (Z.eqb c) (Np.take 0%Z i pred_cls))
                         (Matcher.count_true (map (Z.eqb c) target_cls)))
                      (col0 :: rest))) /\
            List.Forall (fun v => 0 <= v <= 1) p).
    split.
    + apply List.Forall_forall. intros v Hv.
      apply in_map_iff in Hv. destruct Hv as [rp [<- Hrp]].
      apply in_map_iff in Hrp. destruct Hrp as [col [<- Hcol]].
      apply ap_of_bounds.
      rewrite List.Forall_forall in Htps. now apply Htps.
    + inversion Htps as [|? ? Hcol0 _]; subst.
      destruct (curves_of_bounds (map (Z.eqb c) (Np.take 0%Z i pred_cls))
                  (Matcher.count_true (map (Z.eqb c) target_cls)) col0 Hcol0)
        as [_ [_ Hprec]].
      refine (proj1 (APMore.interp_bounds 0 1 _ _ _ _ _ _ Hprec _ _ Hp)).
      * intros v [= <-]. split; lra.
      * discriminate.
Qed.

End Bounds.

(** X18.  When every entry of [tp] lies between 0 and 1 (a true-positive
    flag), every average precision that [ap_per_class] returns, for every
    class and every threshold column, lies between 0 and 1, and so does
    every returned precision. *)
Theorem ap_per_class_unit_interval
    (bk : backend) (tp : list (list Q)) (conf : list Q)
    (pred_cls target_cls : list Z) (plot : bool)
    (save_dir : String.string) (names : list String.string) (o : output) :
  length pred_cls = length conf ->
  List.Forall (fun col => length col = length conf) tp ->
  List.Forall (List.Forall (fun v => 0 <= v <= 1)) tp ->
  ap_per_class bk tp conf pred_cls target_cls plot save_dir names = Ok o ->
  List.Forall (List.Forall (fun v => 0 <= v <= 1)) (out_ap o) /\
  List.Forall (fun v => 0 <= v <= 1) (out_p o).
Proof.
  intros _ _ Htp H.
  destruct (ap_per_class_Ok _ _ _ _ _ _ _ _ o H) as [rows [HF Ho]].
  cbv zeta in Ho. subst o. cbn [out_ap out_p].
  assert (Hrows : List.Forall (fun row =>
                     List.Forall (fun v => 0 <= v <= 1) (ap_row row) /\
                     List.Forall (fun v => 0 <= v <= 1) (p_row row)) rows).
  { apply List.Forall_forall. intros row Hrow.
    destruct (Forall2_In_r _ _ _ HF row Hrow) as [c [_ Hc]].
    eapply class_row_bounds; [exact Htp | exact Hc]. }
  split.
  - apply Forall_map. eapply List.Forall_impl; [|exact Hrows].
    simpl. intros row Hr. apply Hr.
  - unfold at_col. rewrite map_map. apply Forall_map.
    eapply List.Forall_impl; [|exact Hrows]. simpl. intros row [_ Hp].
    set (k := Np.argmax _).
    destruct (Nat.lt_ge_cases k (length (p_row row))) as [Hk|Hk].
    + rewrite List.Forall_forall in Hp. apply Hp. now apply nth_In.
    + rewrite nth_overflow by exact Hk. split; lra.
Qed.

(** Witness for X18. *)
Lemma ap_per_class_unit_interval_witness :
  exists o,
    ap_per_class (mk_backend (Ok tt) (Ok tt) (Ok tt) (fun _ => Ok tt))
                 [[1; 0; 1]; [1; 0; 0]] [9 # 10; 8 # 10; 7 # 10]
                 [0; 0; 2]%Z [2; 0; 2; 5]%Z false ""%string [] = Ok o /\
    List.Forall (List.Forall (fun v => 0 <= v <= 1)) (out_ap o).
Proof.
  assert (H : returns (ap_per_class
                         (mk_backend (Ok tt) (Ok tt) (Ok tt) (fun _ => Ok tt))
                         [[1; 0; 1]; [1; 0; 0]]
                         [9 # 10; 8 # 10; 7 # 10] [0; 0; 2]%Z [2; 0; 2; 5]%Z
                         false ""%string []))
    by (apply ap_per_class_unplotted_returns;
        [discriminate | repeat constructor | reflexivity]).
  destruct H as [o Ho]. exists o. split; [exact Ho|].
  refine (proj1 (ap_per_class_unit_interval
                   (mk_backend (Ok tt) (Ok tt) (Ok tt) (fun _ => Ok tt))
                   [[1; 0; 1]; [1; 0; 0]] [9 # 10; 8 # 10; 7 # 10]
                   [0; 0; 2]%Z [2; 0; 2; 5]%Z false ""%string [] o
                   eq_refl _ _ Ho)).
  - repeat constructor.
  - repeat constructor; discriminate.
Defined.

Lemma rows_loop_const (f : Z -> result class_rows) (z : class_rows) (l : list Z) :
  (forall c, In c l -> f c = Ok z) ->
  forall acc, Py.for_each (collect f) acc l = Ok (acc ++ repeat z (length l)).
Proof.
  induction l as [|c l IH]; intros Hf acc.
  - simpl. now rewrite app_nil_r.
  - rewrite ApPerClassFacts.collect_cons, (Hf c (or_introl eq_refl)).
    cbn [rbind]. rewrite IH by (intros c' Hc'; apply Hf; now right).
    cbn [length repeat]. now rewrite <- app_assoc.
Qed.

(** X19.  On arrays of the length of [conf], when no target class has a
    single prediction (in particular when there is no label at all), no
    precision-recall curve is collected: with [plot=True] the call raises
    [ValueError] (from [np.stack] on an empty list in [plot_pr_curve]) as
    soon as the figure could be created, while with [plot=False] the same
    call returns. *)
Theorem ap_per_class_plot_without_curves
    (bk : backend) (tp : list (list Q)) (conf : list Q)
    (pred_cls target_cls : list Z)
    (save_dir : String.string) (names : list String.string) :
  new_figure bk = Ok tt ->
  List.Forall (fun col => length col = length conf) tp ->
  length pred_cls = length conf ->
  (forall c, In c target_cls -> ~ In c pred_cls) ->
  ap_per_class bk tp conf pred_cls target_cls true save_dir names =
    Raise ValueError /\
  returns (ap_per_class bk tp conf pred_cls target_cls false save_dir names).
Proof.
  intros Hfig Htp Hlen Hnone.
  rewrite !ApPerClassFacts.ap_per_class_sorted.
  rewrite (ApPerClassFacts.indexable_shaped tp conf pred_cls Htp Hlen).
  set (i := Np.argsort (map Qopp conf)).
  assert (Hbody : forall plot c, In c (Np.unique target_cls) ->
            class_body plot (map (Np.take 0 i) tp) (Np.take 0 i conf)
                       (Np.take 0%Z i pred_cls) target_cls c =
            Ok (mk_rows (zeros 1000) (zeros 1000)
                        (zeros (length (map (Np.take 0 i) tp))) [])).
  { intros plot c Hc. apply (proj1 (In_unique _ _)) in Hc. unfold class_body.
    rewrite count_true_zero; [reflexivity|].
    intros Hin. apply (Hnone c Hc).
    apply (In_take i pred_cls c); [|exact Hin].
    intros k Hk. unfold i in Hk. apply In_argsort in Hk.
    rewrite length_map in Hk. lia. }
  assert (Hloop : forall plot,
            Py.for_each
              (fun acc c =>
                 try! row := class_body plot (map (Np.take 0 i) tp) (Np.take 0 i conf)
                               (Np.take 0%Z i pred_cls) target_cls c in
                 Ok (acc ++ [row])) [] (Np.unique target_cls) =
            Ok (repeat (mk_rows (zeros 1000) (zeros 1000)
                          (zeros (length (map (Np.take 0 i) tp))) [])
                       (length (Np.unique target_cls)))).
  { intros plot.
    exact (rows_loop_const _ _ _ (Hbody plot) []). }
  assert (Hpy : forall z n, py_rows z = [] ->
                  concat (map py_rows (repeat z n)) = []).
  { intros z n Hz. induction n as [|n IH]; [reflexivity|].
    cbn [repeat map concat]. now rewrite Hz, IH. }
  split.
  - unfold per_class. rewrite Hloop. cbn [rbind].
    rewrite Hpy by reflexivity.
    unfold Plot.plot_pr_curve. rewrite Hfig. reflexivity.
  - unfold returns, per_class. rewrite Hloop. cbn [rbind].
    eexists. reflexivity.
Qed.

(** Witness for X19. *)
Lemma ap_per_class_plot_without_curves_witness :
  ap_per_class (mk_backend (Ok tt) (Ok tt) (Ok tt) (fun _ => Ok tt))
               [[1; 0]] [9 # 10; 8 # 10] [0; 0]%Z [3; 4]%Z true ""%string [] =
  Raise ValueError.
Proof.
  refine (proj1 (ap_per_class_plot_without_curves
                   (mk_backend (Ok tt) (Ok tt) (Ok tt) (fun _ => Ok tt))
                   [[1; 0]] [9 # 10; 8 # 10] [0; 0]%Z [3; 4]%Z ""%string []
                   eq_refl _ eq_refl _)).
  - repeat constructor.
  - intros c [<-|[<-|[]]] [H|[H|[]]]; discriminate.
Defined.

(** *** Arrays shorter than [conf] *)

Lemma in_range_argsort_short (a : list Q) (n : nat) :
  (n < length a)%nat -> in_range (Np.argsort a) n = false.
Proof.
  intros Hn. destruct (in_range (Np.argsort a) n) eqn:E; [|reflexivity].
  unfold in_range in E. rewrite forallb_forall in E.
  specialize (E n (proj2 (In_argsort a n) Hn)).
  apply Nat.ltb_lt in E. lia.
Qed.

(** X21.  Line 45 indexes [tp] and [pred_cls] with the sort indices of
    [conf]: when [conf] is longer than the rows of [tp], or longer than
    [pred_cls], [ap_per_class] raises [IndexError], whatever its other
    arguments. *)
Theorem ap_per_class_short_arrays
    (bk : backend) (tp : list (list Q)) (conf : list Q)
    (pred_cls target_cls : list Z) (plot : bool)
    (save_dir : String.string) (names : list String.string) :
  (exists col0, nth_error tp 0 = Some col0 /\ (length col0 < length conf)%nat) \/
  (length pred_cls < length conf)%nat ->
  ap_per_class bk tp conf pred_cls target_cls plot save_dir names =
  Raise IndexError.
Proof.
  intros H. rewrite ApPerClassFacts.ap_per_class_sorted.
  replace (indexable tp conf pred_cls) with false; [reflexivity|].
  symmetry. unfold indexable. apply andb_false_iff.
  destruct H as [[col0 [Hcol0 Hlt]]|Hlt].
  - left. destruct tp as [|c0 rest]; [discriminate|].
    simpl in Hcol0. injection Hcol0 as ->.
    apply in_range_argsort_short. now rewrite length_map.
  - right. apply in_range_argsort_short. now rewrite length_map.
Qed.

(** Witness for X21: one row of [tp] for two confidences. *)
Lemma ap_per_class_short_arrays_witness :
  ap_per_class (mk_backend (Ok tt) (Ok tt) (Ok tt) (fun _ => Ok tt))
               [[1]] [9 # 10; 8 # 10] [0; 0]%Z [0%Z] false ""%string [] =
  Raise IndexError.
Proof.
  apply ap_per_class_short_arrays. left. exists [1]. split; [reflexivity|].
  simpl. lia.
Defined.

End ApPerClassMore.

(* ===================================================================== *)
(** ** [fitness]                                                          *)
(* ===================================================================== *)

Module FitnessFacts.

Local Open Scope Q_scope.

Lemma fitness_row (a b c d : Q) (rest : list Q) :
  Fitness.sum (Np.map2 Qmult (firstn 4 (a :: b :: c :: d :: rest)) Fitness.w) ==
  (1 # 10) * c + (9 # 10) * d.
Proof.
  unfold Fitness.sum, Fitness.w. cbn -[Qplus Qmult].
  change (firstn 0 rest) with (@nil Q). cbn -[Qplus Qmult]. ring.
Qed.

(** X20.  On an array of at least four columns, [fitness] returns for
    every row 0.1 times its third entry plus 0.9 times its fourth: the
    first two columns (precision and recall) and any column after the
    fourth have no influence. *)
Theorem fitness_weighted_map
    (ncols : nat) (x : list (list Q)) :
  (4 <= ncols)%nat ->
  List.Forall (fun row => length row = ncols) x ->
  exists f,
    Fitness.fitness ncols x = Ok f /\
    Forall2 (fun row v => v == (1 # 10) * nth 2 row 0 + (9 # 10) * nth 3 row 0) x f.
Proof.
  intros Hn Hx. unfold Fitness.fitness.
  replace (Nat.min ncols 4) with 4%nat by lia.
  eexists. split; [reflexivity|].
  induction Hx as [|row x Hrow Hx IH]; [constructor|].
  cbn [map]. constructor; [|exact IH].
  destruct row as [|a [|b [|c [|d rest]]]]; simpl in Hrow; try lia.
  rewrite fitness_row. reflexivity.
Qed.

(** Witness for X20: a row of seven results. *)
Lemma fitness_weighted_map_witness :
  exists f,
    Fitness.fitness 7 [[1 # 2; 6 # 10; 7 # 10; 4 # 10; 0; 0; 0]] = Ok f /\
    Forall2 (fun row v => v == (1 # 10) * nth 2 row 0 + (9 # 10) * nth 3 row 0)
            [[1 # 2; 6 # 10; 7 # 10; 4 # 10; 0; 0; 0]] f.
Proof.
  apply (fitness_weighted_map 7 [[1 # 2; 6 # 10; 7 # 10; 4 # 10; 0; 0; 0]]).
  - lia.
  - repeat constructor.
Defined.

End FitnessFacts.

(* ===================================================================== *)
(** ** [OD_AUCROC]: what every image adds                                 *)
(* ===================================================================== *)

Module OD_AUCROCMore.

Import OD_AUCROC OD_AUCROCTerms.

Local Open Scope Q_scope.

Lemma observations_update (roc : roc_state) (preds target : list Q) :
  observations (update roc preds target) = (observations roc + length preds)%nat.
Proof.
  unfold observations, update.
  rewrite map_app, concat_app, length_app. simpl. now rewrite app_nil_r.
Qed.

Lemma index_In {A : Type} (l : list A) (k : Z) (a : A) :
  Py.index l k = Ok a -> In a l.
Proof.
  unfold Py.index. intros H. apply rbind_Ok_inv in H. destruct H as [i [_ H]].
  destruct (nth_error l i) eqn:E; [|discriminate].
  inversion H; subst. eapply nth_error_In. exact E.
Qed.

Lemma gather_In {A : Type} (l : list A) (idx : list Z) :
  forall r, Py.gather l idx = Ok r -> List.Forall (fun a => In a l) r.
Proof.
  induction idx as [|k idx IH]; intros r H.
  - inversion H. constructor.
  - cbn [Py.gather] in H.
    apply rbind_Ok_inv in H. destruct H as [a [Ha H]].
    apply rbind_Ok_inv in H. destruct H as [r' [Hr H]].
    inversion H; subst. constructor; [eapply index_In; exact Ha | now apply IH].
Qed.

Lemma max0_upper (t : list Q) (mx : Q) :
  Torch.max0 t = Ok mx -> List.Forall (fun v => v <= mx) t.
Proof.
  destruct t as [|x r]; [discriminate|]. intros [= <-].
  assert (H : forall r a, a <= fold_left Qmax r a /\
                          List.Forall (fun v => v <= fold_left Qmax r a) r).
  { clear. induction r as [|y r IH]; intros a.
    - split; [apply Qle_refl | constructor].
    - cbn [fold_left]. destruct (IH (Qmax a y)) as [H1 H2]. split.
      + eapply Qle_trans; [apply Q.le_max_l | exact H1].
      + constructor; [|exact H2].
        eapply Qle_trans; [apply Q.le_max_r | exact H1]. }
  destruct (H r x) as [H1 H2]. constructor; assumption.
Qed.

Lemma best_fold_bounds (gc : Z) (M : Q) (dcps : list (Z * Q)) :
  List.Forall (fun dcp => snd dcp <= M) dcps ->
  forall b img, 0 <= b <= M -> 0 <= img <= M ->
    0 <= fst (fold_left (best_step gc) dcps (b, img)) <= M /\
    0 <= snd (fold_left (best_step gc) dcps (b, img)) <= M.
Proof.
  induction 1 as [|dcp dcps Hd Hds IH]; intros b img Hb Himg; [now split|].
  cbn [fold_left].
  assert (E : best_step gc (b, img) dcp =
              if Z.eqb (fst dcp) gc
              then (Qmax b (snd dcp), Qmax img (Qmax b (snd dcp)))
              else (b, img)) by reflexivity.
  rewrite E. clear E.
  destruct (Z.eqb (fst dcp) gc).
  - apply IH.
    + split.
      * eapply Qle_trans; [apply Hb | apply Q.le_max_l].
      * apply Q.max_lub; [apply Hb | exact Hd].
    + split.
      * eapply Qle_trans; [apply Himg | apply Q.le_max_l].
      * apply Q.max_lub; [apply Himg|]. apply Q.max_lub; [apply Hb | exact Hd].
  - now apply IH.
Qed.

Lemma lesion_step_shape (n : bool) (m0 m1 dcs : list Z) (probs : list Q) (M : Q)
    (st st' : roc_state * Q) (igc : nat * Z) :
  0 <= M -> List.Forall (fun v => v <= M) probs ->
  0 <= snd st <= M ->
  lesion_step n m0 m1 dcs probs st igc = Ok st' ->
  (exists s, 0 <= s <= M /\ fst st' = update (fst st) [s] [inject_Z (snd igc)]) /\
  0 <= snd st' <= M.
Proof.
  intros HM Hprobs Hst. unfold lesion_step.
  assert (Hmiss : forall st'',
            Ok (update (fst st) [0] [inject_Z (snd igc)], snd st) = Ok st'' ->
            (exists s, 0 <= s <= M /\
                       fst st'' = update (fst st) [s] [inject_Z (snd igc)]) /\
            0 <= snd st'' <= M).
  { intros st'' [= <-]. cbn [fst snd]. split; [|exact Hst].
    exists 0. split; [split; [apply Qle_refl | exact HM] | reflexivity]. }
  destruct (n && Nat.ltb 0 (Matcher.count_true (Matcher.eq_mask m0 (fst igc))));
    [|apply Hmiss].
  intros H. apply rbind_Ok_inv in H. destruct H as [ds [_ H]].
  destruct (existsb (fun dc => Z.eqb dc (snd igc)) ds); [|now apply Hmiss].
  apply rbind_Ok_inv in H. destruct H as [ps [Hps H]].
  injection H as <-. cbn [fst snd].
  assert (Hb : List.Forall (fun dcp : Z * Q => snd dcp <= M) (combine ds ps)).
  { apply gather_In in Hps. clear -Hps Hprobs.
    rewrite List.Forall_forall in *. intros [d p] Hin.
    apply in_combine_r in Hin. cbn [snd]. apply Hprobs. now apply Hps. }
  destruct (best_fold_bounds (snd igc) M _ Hb 0 (snd st)
              (conj (Qle_refl 0) HM) Hst) as [H1 H2].
  split; [|exact H2]. eexists. split; [exact H1 | reflexivity].
Qed.

Lemma lesion_loop_shape (n : bool) (m0 m1 dcs : list Z) (probs : list Q) (M : Q)
    (l : list (nat * Z)) :
  0 <= M -> List.Forall (fun v => v <= M) probs ->
  forall st st', 0 <= snd st <= M ->
    Py.for_each (lesion_step n m0 m1 dcs probs) st l = Ok st' ->
    observations (fst st') = (observations (fst st) + length l)%nat /\
    length (fst st') = (length (fst st) + length l)%nat /\
    0 <= snd st' <= M.
Proof.
  intros HM Hprobs. induction l as [|igc l IH]; intros st st' Hst H.
  - injection H as <-. rewrite !Nat.add_0_r. now split.
  - cbn [Py.for_each] in H. apply rbind_Ok_inv in H. destruct H as [st1 [H1 H]].
    destruct (lesion_step_shape _ _ _ _ _ M _ _ _ HM Hprobs Hst H1)
      as [[s [_ Hs]] Hst1].
    destruct (IH _ _ Hst1 H) as [Ho [Hl Hb]].
    rewrite Ho, Hl, Hs, observations_update. unfold update.
    rewrite length_app. cbn [length]. repeat split; try lia; apply Hb.
Qed.

Section Accounting.

Variable box_iou : tensor -> tensor -> tensor.

(** What one scored image adds, whichever branch is taken. *)
Lemma update_image_accounting (self self' : t) (mal_d mal_l : tensor) :
  update_image box_iou self mal_d mal_l = Ok self' ->
  let target := if Nat.eqb (length mal_l) 0 then 0 else 1 in
  (exists s, roc_image self' = update (roc_image self) [s] [target]) /\
  (exists s, roc_image_noloc self' = update (roc_image_noloc self) [s] [target]) /\
  observations (roc_lesion self') =
    (observations (roc_lesion self) + Nat.max 1 (length mal_l))%nat /\
  markers_in_normal_image self' =
    (if Nat.eqb (length mal_l) 0
     then markers_in_normal_image self ++ [Tensor.col 4 mal_d]
     else markers_in_normal_image self) /\
  nc self' = nc self /\ iou_thres self' = iou_thres self /\
  fm_img_ths self' = fm_img_ths self /\
  malignant_cls_th self' = malignant_cls_th self /\
  class_modifier self' = class_modifier self.
Proof.
  unfold update_image.
  destruct (Nat.eqb (length mal_d) 0) eqn:Ed.
  - destruct (Nat.eqb (length mal_l) 0) eqn:El.
    + intros [= <-]. cbv zeta.
      cbn [set_rocs append_markers roc_image roc_image_noloc roc_lesion
           markers_in_normal_image nc iou_thres fm_img_ths malignant_cls_th
           class_modifier].
      rewrite observations_update. apply Nat.eqb_eq in El. rewrite El.
      repeat split; eauto.
    + intros [= <-]. cbv zeta.
      cbn [set_rocs roc_image roc_image_noloc roc_lesion
           markers_in_normal_image nc iou_thres fm_img_ths malignant_cls_th
           class_modifier].
      rewrite observations_update, repeat_length. apply Nat.eqb_neq in El.
      repeat split; eauto. lia.
  - destruct (Nat.eqb (length mal_l) 0) eqn:El.
    + intros H. apply rbind_Ok_inv in H. destruct H as [mx [_ H]].
      injection H as <-. cbv zeta.
      cbn [set_rocs append_markers roc_image roc_image_noloc roc_lesion
           markers_in_normal_image nc iou_thres fm_img_ths malignant_cls_th
           class_modifier].
      rewrite observations_update. apply Nat.eqb_eq in El. rewrite El.
      repeat split; eauto.
    + intros H. apply rbind_Ok_inv in H. destruct H as [mx [Hmx H]].
      apply rbind_Ok_inv in H. destruct H as [st [Hst H]].
      injection H as <-. cbv zeta.
      cbn [set_rocs roc_image roc_image_noloc roc_lesion
           markers_in_normal_image nc iou_thres fm_img_ths malignant_cls_th
           class_modifier].
      apply Nat.eqb_neq in El.
      assert (Hlt : Nat.ltb 0 (length mal_l) = true) by (apply Nat.ltb_lt; lia).
      rewrite Hlt.
      pose proof (max0_upper _ _ Hmx) as Hup.
      assert (Hup' : List.Forall (fun v => v <= Qmax 0 mx) (Tensor.col 4 mal_d)).
      { eapply List.Forall_impl; [|exact Hup]. simpl. intros v Hv.
        eapply Qle_trans; [exact Hv | apply Q.le_max_r]. }
      destruct (lesion_loop_shape _ _ _ _ _ (Qmax 0 mx) _ (Q.le_max_l 0 mx) Hup'
                  (roc_lesion self, 0) st
                  (conj (Qle_refl 0) (Q.le_max_l 0 mx)) Hst) as [Ho _].
      cbn [fst] in Ho. rewrite Ho.
      unfold Py.enumerate. rewrite length_combine, length_seq, !length_map.
      unfold Tensor.col. rewrite !length_map.
      repeat split; eauto. lia.
Qed.

End Accounting.

Lemma lesion_loop_miss (m0 m1 dcs : list Z) (probs : list Q) (l : list (nat * Z)) :
  forall st,
    Py.for_each (lesion_step false m0 m1 dcs probs) st l =
    Ok (fst st ++ map (fun igc => ([0], [inject_Z (snd igc)])) l, snd st).
Proof.
  induction l as [|igc l IH]; intros st.
  - simpl. rewrite app_nil_r. now destruct st.
  - cbn [Py.for_each]. unfold lesion_step at 1. cbn [andb rbind].
    rewrite IH. cbn [fst snd map]. unfold update.
    now rewrite <- app_assoc.
Qed.

Lemma candidates_none (iou : tensor) (thres : Q) :
  List.Forall (List.Forall (fun v => v <= thres)) iou ->
  Matcher.candidates iou thres = [].
Proof.
  intros H. destruct (Matcher.candidates iou thres) as [|m ms] eqn:E; [reflexivity|].
  exfalso.
  assert (Hin : In m (Matcher.candidates iou thres)) by (rewrite E; now left).
  apply (proj1 (MatcherFacts.In_candidates _ _ _)) in Hin.
  destruct Hin as [row [Hrow [Hv Hlt]]].
  apply nth_error_In in Hrow, Hv.
  rewrite List.Forall_forall in H. specialize (H _ Hrow).
  rewrite List.Forall_forall in H. specialize (H _ Hv).
  apply (Qlt_not_le _ _ Hlt H).
Qed.

Lemma col0_relabelled (t : tensor) :
  Tensor.col 0 (Tensor.set_col 0 0 t) = repeat 0 (length t).
Proof.
  unfold Tensor.col, Tensor.set_col.
  induction t as [|r t IH]; [reflexivity|].
  cbn [map length repeat]. rewrite IH. now destruct r.
Qed.

Lemma map_snd_enumerate {A : Type} (l : list A) : map snd (Py.enumerate l) = l.
Proof.
  unfold Py.enumerate. generalize 0%nat.
  induction l as [|a l IH]; intros s; [reflexivity|].
  cbn [length seq combine map snd]. now rewrite IH.
Qed.

Section Images.

Variable box_iou : tensor -> tensor -> tensor.

(** X14.  Every returning call of [OD_AUCROC.process_batch] records the
    image exactly once at image level: one score with one target in
    [roc_image] and in [roc_image_noloc], the target being 0 when the
    image has no malignant label and 1 otherwise.  At lesion level it
    records one score per malignant label, and a single one when there is
    none.  The list of markers grows, by the malignant detection scores,
    exactly when the image has no malignant label, and the configuration
    is never changed. *)
Theorem process_batch_accounting
    (self self' : t) (detections labels : loc) (h h' : heap) :
  process_batch box_iou self detections labels h = Ok (self', h') ->
  let mal_d := mal_detections_of self (Heap.read h detections) in
  let mal_l := mal_labels_of self (Heap.read h labels) in
  let target := if Nat.eqb (length mal_l) 0 then 0 else 1 in
  (exists s, roc_image self' = update (roc_image self) [s] [target]) /\
  (exists s, roc_image_noloc self' = update (roc_image_noloc self) [s] [target]) /\
  observations (roc_lesion self') =
    (observations (roc_lesion self) + Nat.max 1 (length mal_l))%nat /\
  markers_in_normal_image self' =
    (if Nat.eqb (length mal_l) 0
     then markers_in_normal_image self ++ [Tensor.col 4 mal_d]
     else markers_in_normal_image self) /\
  nc self' = nc self /\ iou_thres self' = iou_thres self /\
  fm_img_ths self' = fm_img_ths self /\
  malignant_cls_th self' = malignant_cls_th self /\
  class_modifier self' = class_modifier self.
Proof.
  intros H.
  destruct (OD_AUCROCFacts.process_batch_heap box_iou self detections labels h)
    as [md [ml [h2 [_ [_ [_ [_ Heq]]]]]]].
  rewrite Heq in H. apply rbind_Ok_inv in H. destruct H as [s [Hs H]].
  injection H as <- _.
  exact (update_image_accounting box_iou _ _ _ _ Hs).
Qed.

(** X15.  On an image with malignant detections and malignant labels,
    the score recorded in [roc_image] (the best score among the matched
    detections) is never negative and never above the larger of 0 and the
    score recorded in [roc_image_noloc] (the best score among all
    malignant detections); with non-negative confidences the localized
    score is at most the non-localized one. *)
Theorem process_batch_localized_score
    (self self' : t) (detections labels : loc) (h h' : heap) :
  let mal_d := mal_detections_of self (Heap.read h detections) in
  let mal_l := mal_labels_of self (Heap.read h labels) in
  mal_d <> [] -> mal_l <> [] ->
  process_batch box_iou self detections labels h = Ok (self', h') ->
  exists s mx,
    Torch.max0 (Tensor.col 4 mal_d) = Ok mx /\
    roc_image self' = update (roc_image self) [s] [1] /\
    roc_image_noloc self' = update (roc_image_noloc self) [mx] [1] /\
    0 <= s /\ s <= Qmax 0 mx /\
    (List.Forall (fun v => 0 <= v) (Tensor.col 4 mal_d) -> s <= mx).
Proof.
  intros mal_d mal_l Hd Hl H.
  destruct (OD_AUCROCFacts.process_batch_heap box_iou self detections labels h)
    as [md [ml [h2 [_ [_ [_ [_ Heq]]]]]]].
  rewrite Heq in H. apply rbind_Ok_inv in H. destruct H as [s' [Hs H]].
  injection H as <- _. fold mal_d in Hs. fold mal_l in Hs.
  clearbody mal_d mal_l. clear Heq.
  unfold update_image in Hs.
  destruct mal_d as [|d0 mal_d']; [congruence|].
  destruct mal_l as [|l0 mal_l']; [congruence|].
  cbn [length Nat.eqb] in Hs.
  apply rbind_Ok_inv in Hs. destruct Hs as [mx [Hmx Hs]].
  apply rbind_Ok_inv in Hs. destruct Hs as [st [Hst Hs]].
  injection Hs as <-.
  cbn [set_rocs roc_image roc_image_noloc].
  pose proof (max0_upper _ _ Hmx) as Hup.
  assert (Hup' : List.Forall (fun v => v <= Qmax 0 mx) (Tensor.col 4 (d0 :: mal_d'))).
  { eapply List.Forall_impl; [|exact Hup]. simpl. intros v Hv.
    eapply Qle_trans; [exact Hv | apply Q.le_max_r]. }
  destruct (lesion_loop_shape _ _ _ _ _ (Qmax 0 mx) _ (Q.le_max_l 0 mx) Hup'
              (roc_lesion self, 0) st
              (conj (Qle_refl 0) (Q.le_max_l 0 mx)) Hst) as [_ [_ [Hs0 Hs1]]].
  exists (snd st), mx. split; [exact Hmx|].
  split; [reflexivity|]. split; [reflexivity|].
  split; [exact Hs0|]. split; [exact Hs1|].
  intros Hpos. eapply Qle_trans; [exact Hs1|].
  apply Q.max_lub; [|apply Qle_refl].
  inversion Hpos as [|? ? Hp0 _]; subst. inversion Hup as [|? ? Hu0 _]; subst.
  eapply Qle_trans; eassumption.
Qed.

(** X16.  On an image with malignant detections and malignant labels
    where no IoU exceeds [iou_thres], the call returns, every malignant
    label is recorded as missed (score 0), the image is recorded with
    localized score 0 and target 1, while [roc_image_noloc] still receives
    the best detection score with target 1. *)
Theorem process_batch_no_overlap
    (self : t) (detections labels : loc) (h : heap) :
  let mal_d := mal_detections_of self (Heap.read h detections) in
  let mal_l := mal_labels_of self (Heap.read h labels) in
  mal_d <> [] -> mal_l <> [] ->
  List.Forall (List.Forall (fun v => v <= iou_thres self))
    (box_iou (Tensor.cols_from 1 mal_l) (Tensor.cols_to 4 mal_d)) ->
  exists mx self' h',
    process_batch box_iou self detections labels h = Ok (self', h') /\
    Torch.max0 (Tensor.col 4 mal_d) = Ok mx /\
    roc_lesion self' =
      roc_lesion self ++
      repeat ([0], [inject_Z (class_modifier self)]) (length mal_l) /\
    roc_image self' = update (roc_image self) [0] [1] /\
    roc_image_noloc self' = update (roc_image_noloc self) [mx] [1] /\
    markers_in_normal_image self' = markers_in_normal_image self.
Proof.
  intros mal_d mal_l Hd Hl Hiou.
  destruct (OD_AUCROCFacts.process_batch_heap box_iou self detections labels h)
    as [md [ml [h2 [_ [_ [_ [_ Heq]]]]]]].
  fold mal_d in Heq. fold mal_l in Heq.
  destruct (OD_AUCROCFacts.max0_nonempty (Tensor.col 4 mal_d)) as [mx Hmx].
  { destruct mal_d; [congruence | discriminate]. }
  assert (Hgt : Tensor.col 0 mal_l = repeat 0 (length mal_l)).
  { unfold mal_l, mal_labels_of. rewrite col0_relabelled.
    unfold Tensor.set_col. now rewrite length_map. }
  assert (Hupd : update_image box_iou self mal_d mal_l =
                 Ok (set_rocs self
                       (roc_lesion self ++
                        repeat ([0], [inject_Z (class_modifier self)]) (length mal_l))
                       (update (roc_image self) [0] [1])
                       (update (roc_image_noloc self) [mx] [1]))).
  { clearbody mal_d mal_l. clear Heq. unfold update_image.
    replace (Nat.eqb (length mal_d) 0) with false
      by (destruct mal_d; [congruence | reflexivity]).
    replace (Nat.eqb (length mal_l) 0) with false
      by (destruct mal_l; [congruence | reflexivity]).
    replace (Nat.ltb 0 (length mal_l)) with true
      by (destruct mal_l; [congruence | reflexivity]).
    rewrite Hmx. cbn [rbind].
    rewrite OD_AUCROCFacts.matches_of_candidates, (candidates_none _ _ Hiou).
    change (Nat.ltb 0 (length (@nil match_row))) with false.
    rewrite lesion_loop_miss. cbn [rbind fst snd].
    replace (map (fun igc : nat * Z => ([0], [inject_Z (snd igc)]))
               (Py.enumerate
                  (map (fun c => (Py.int c + class_modifier self)%Z)
                       (Tensor.col 0 mal_l))))
      with (repeat ([0], [inject_Z (class_modifier self)]) (length mal_l)).
    - reflexivity.
    - rewrite <- (map_map snd (fun gc => ([0], [inject_Z gc]))).
      rewrite map_snd_enumerate, map_map, Hgt.
      generalize (length mal_l). intros n.
      induction n as [|n IH]; [reflexivity|].
      cbn [repeat map]. rewrite <- IH. reflexivity. }
  rewrite Hupd in Heq. cbn [rbind] in Heq.
  eexists mx, _, h2. split; [exact Heq|]. split; [exact Hmx|].
  cbn [set_rocs roc_lesion roc_image roc_image_noloc markers_in_normal_image].
  repeat split.
Qed.

End Images.

Lemma filter_length_le {A : Type} (f g : A -> bool) (l : list A) :
  (forall x, f x = true -> g x = true) ->
  (length (List.filter f l) <= length (List.filter g l))%nat.
Proof.
  intros Himp. induction l as [|a l IH]; [apply Nat.le_refl|].
  simpl. destruct (f a) eqn:Ef.
  - rewrite (Himp a Ef). simpl. lia.
  - destruct (g a); simpl; lia.
Qed.

Lemma count_gt_antitone (m : list Q) (t1 t2 : Q) :
  t1 <= t2 -> (0 <= Torch.count_gt m t2 <= Torch.count_gt m t1)%Z.
Proof.
  intros Hle. unfold Torch.count_gt. split; [lia|].
  apply inj_le. apply filter_length_le. intros v Hv.
  apply Qgt_bool_iff in Hv. apply Qgt_bool_iff.
  eapply Qle_lt_trans; eassumption.
Qed.

(** X17.  A returning call of [froc_curve] hands back [tpr] unchanged
    and, for every threshold, the number of recorded markers above the
    threshold divided by the number of recorded normal images; at least
    one normal image had been recorded.  That average never increases
    when the threshold grows, and is never negative. *)
Theorem froc_curve_antitone
    (self : t) (tpr thresholds tpr' : list Q) (fm : list tfloat) :
  froc_curve self tpr thresholds = Ok (tpr', fm) ->
  tpr' = tpr /\
  markers_in_normal_image self <> [] /\
  fm = map (fun th => Fin (avg_false_markers self th)) thresholds /\
  (forall t1 t2, t1 <= t2 ->
     0 <= avg_false_markers self t2 /\
     avg_false_markers self t2 <= avg_false_markers self t1).
Proof.
  intros H.
  assert (Hm : markers_in_normal_image self <> []).
  { intros E. rewrite (OD_AUCROCFacts.froc_curve_empty self tpr thresholds E) in H.
    discriminate. }
  assert (Ht : thresholds <> []).
  { intros ->. unfold froc_curve in H. simpl in H. discriminate. }
  rewrite (OD_AUCROCFacts.froc_curve_value self tpr thresholds Hm Ht) in H.
  injection H as <- <-.
  split; [reflexivity|]. split; [exact Hm|]. split; [reflexivity|].
  intros t1 t2 Hle. unfold avg_false_markers.
  destruct (count_gt_antitone (concat (markers_in_normal_image self)) t1 t2 Hle)
    as [H0 H1].
  unfold Qle. cbn [Qnum Qden]. split; nia.
Qed.

(** Witness for X17. *)
Lemma froc_curve_antitone_witness :
  exists fm,
    froc_curve (append_markers (append_markers engine1 [3 # 10; 6 # 10]) [8 # 10])
               [1; 1] [1 # 2; 7 # 10] = Ok ([1; 1], fm) /\
    avg_false_markers
      (append_markers (append_markers engine1 [3 # 10; 6 # 10]) [8 # 10]) (7 # 10) <=
    avg_false_markers
      (append_markers (append_markers engine1 [3 # 10; 6 # 10]) [8 # 10]) (1 # 2).
Proof.
  eexists. split; [vm_compute; reflexivity|].
  refine (proj2 (proj2 (proj2 (proj2
           (froc_curve_antitone
              (append_markers (append_markers engine1 [3 # 10; 6 # 10]) [8 # 10])
              [1; 1] [1 # 2; 7 # 10] [1; 1] _ _))) (1 # 2) (7 # 10) _)).
  - vm_compute. reflexivity.
  - discriminate.
Defined.

(** Witness for X14: two labels, two detections. *)
Lemma process_batch_accounting_witness :
  let h : heap :=
    <[0%nat := [[10; 10; 50; 50; 9 # 10; 0]; [10; 10; 50; 48; 8 # 10; 0]]%Q]>
      (<[1%nat := [[0; 10; 10; 50; 50]; [0; 60; 60; 90; 90]]%Q]> ∅) in
  exists self' h',
    process_batch General.box_iou engine1 0%nat 1%nat h = Ok (self', h') /\
    observations (roc_lesion self') = 2%nat /\
    markers_in_normal_image self' = [].
Proof.
  cbv zeta.
  assert (H : returns (process_batch General.box_iou engine1 0%nat 1%nat
             (<[0%nat := [[10; 10; 50; 50; 9 # 10; 0]; [10; 10; 50; 48; 8 # 10; 0]]%Q]>
               (<[1%nat := [[0; 10; 10; 50; 50]; [0; 60; 60; 90; 90]]%Q]> ∅))))
    by (eexists; vm_compute; reflexivity).
  destruct H as [[self' h'] H]. exists self', h'. split; [exact H|].
  destruct (process_batch_accounting General.box_iou _ _ _ _ _ _ H)
    as [_ [_ [Ho [Hm _]]]].
  split; [rewrite Ho | rewrite Hm]; vm_compute; reflexivity.
Defined.

(** Witness for X15: the better detection lies away from the label. *)
Lemma process_batch_localized_score_witness :
  let h : heap :=
    <[0%nat := [[10; 10; 50; 50; 6 # 10; 0]; [60; 60; 90; 90; 9 # 10; 0]]%Q]>
      (<[1%nat := [[0; 10; 10; 50; 50]]%Q]> ∅) in
  exists self' h' s,
    process_batch General.box_iou engine1 0%nat 1%nat h = Ok (self', h') /\
    roc_image self' = [([s], [1])] /\
    roc_image_noloc self' = [([9 # 10], [1])] /\
    s <= 9 # 10.
Proof.
  cbv zeta.
  assert (H : returns (process_batch General.box_iou engine1 0%nat 1%nat
             (<[0%nat := [[10; 10; 50; 50; 6 # 10; 0]; [60; 60; 90; 90; 9 # 10; 0]]%Q]>
               (<[1%nat := [[0; 10; 10; 50; 50]]%Q]> ∅))))
    by (eexists; vm_compute; reflexivity).
  destruct H as [[self' h'] H].
  destruct (process_batch_localized_score General.box_iou engine1 self' 0%nat 1%nat
              (<[0%nat := [[10; 10; 50; 50; 6 # 10; 0];
                           [60; 60; 90; 90; 9 # 10; 0]]%Q]>
                 (<[1%nat := [[0; 10; 10; 50; 50]]%Q]> ∅)) h')
    as [s [mx [Hmx [Hi [Hn [_ [_ Hle]]]]]]].
  - vm_compute. discriminate.
  - vm_compute. discriminate.
  - exact H.
  - vm_compute in Hmx. injection Hmx as <-.
    exists self', h', s. split; [exact H|]. split; [exact Hi|]. split; [exact Hn|].
    apply Hle. vm_compute. repeat constructor; discriminate.
Defined.

(** Witness for X16. *)
Lemma process_batch_no_overlap_witness :
  let h : heap :=
    <[0%nat := [[60; 60; 90; 90; 9 # 10; 0]]%Q]>
      (<[1%nat := [[0; 10; 10; 50; 50]]%Q]> ∅) in
  exists self' h',
    process_batch General.box_iou engine1 0%nat 1%nat h = Ok (self', h') /\
    roc_lesion self' = [([0], [1])] /\
    roc_image self' = [([0], [1])] /\
    roc_image_noloc self' = [([9 # 10], [1])].
Proof.
  cbv zeta.
  destruct (process_batch_no_overlap General.box_iou engine1 0%nat 1%nat
              (<[0%nat := [[60; 60; 90; 90; 9 # 10; 0]]%Q]>
                 (<[1%nat := [[0; 10; 10; 50; 50]]%Q]> ∅)))
    as [mx [self' [h' [Hok [Hmx [Hl [Hi [Hn _]]]]]]]].
  - vm_compute. discriminate.
  - vm_compute. discriminate.
  - vm_compute. repeat constructor; discriminate.
  - vm_compute in Hmx. injection Hmx as <-.
    exists self', h'. split; [exact Hok|]. split; [exact Hl|].
    split; [exact Hi | exact Hn].
Defined.

End OD_AUCROCMore.
